(** * MNEE Connect: minor-unit conversion, session keys and the task escrow

    A shallow embedding of the SDK utilities ([toWei], [fromWei], [isExpired]),
    of the session-key part of [MneeClient], of the [MockMNEE] token and the
    [MneeEscrow] contract, and of the escrow release/refund API route, with
    the properties the specification states about them; then the rest of
    these files and the code around them (the session-key and sponsor
    routes, the calldata of the gasless transfer, the client's calls of the
    routes), with properties read off the code. *)

From Stdlib Require Import ZArith NArith Lia Ascii String.
From stdpp Require Import gmap strings list.

(** ** JavaScript strings and bigint text

    A string is its list of code units; only code units below 256 are
    modelled. *)
Module Js.

Definition code (c : ascii) : N := N_of_ascii c.
Definition chr (n : N) : ascii := ascii_of_N n.

Definition is_char (k : N) (c : ascii) : bool := (code c =? k)%N.

Definition is_digit (c : ascii) : bool := ((48 <=? code c) && (code c <=? 57))%N.

(** WhiteSpace and LineTerminator code points below 256: TAB, LF, VT, FF, CR,
    SP and NBSP. *)
Definition is_ws (c : ascii) : bool :=
  let k := code c in
  ((9 <=? k) && (k <=? 13) || (k =? 32) || (k =? 160))%N.

(** [BigInt.prototype.toString()]: decimal digits, most significant first. *)
Fixpoint digits_from (fuel : nat) (n : N) (acc : list ascii) : list ascii :=
  match fuel with
  | O => acc
  | S fuel' =>
      let acc' := chr (48 + n mod 10) :: acc in
      if (n <? 10)%N then acc' else digits_from fuel' (n / 10) acc'
  end.

Definition decimal_digits (n : N) : list ascii :=
  digits_from (S (N.to_nat (N.log2 n))) n [].

Definition BigInt_toString (w : Z) : list ascii :=
  if (w <? 0)%Z then chr 45 :: decimal_digits (Z.abs_N w)
  else decimal_digits (Z.to_N w).

(** [String.prototype.padStart], [padEnd] and [slice] with a one-unit filler
    and indices that are natural numbers. *)
Definition padStart (target : nat) (fill : ascii) (s : list ascii) : list ascii :=
  replicate (target - length s) fill ++ s.

Definition padEnd (target : nat) (fill : ascii) (s : list ascii) : list ascii :=
  s ++ replicate (target - length s) fill.

Definition slice (first last : nat) (s : list ascii) : list ascii :=
  take (last - first) (drop first s).

(** [s.replace(/0+$/, '')]: the trailing run of zeros is removed. *)
Fixpoint strip_trailing_zeros (s : list ascii) : list ascii :=
  match s with
  | [] => []
  | c :: r =>
      match strip_trailing_zeros r with
      | [] => if is_char 48 c then [] else [c]
      | r' => c :: r'
      end
  end.

(** [s.split(sep)] for a one-unit separator: never an empty array. *)
Fixpoint split_on (sep : N) (s : list ascii) : list (list ascii) :=
  match s with
  | [] => [[]]
  | c :: r =>
      if is_char sep c then [] :: split_on sep r
      else match split_on sep r with
           | p :: ps => (c :: p) :: ps
           | [] => [[c]]
           end
  end.

(** StringToBigInt, the parser behind [BigInt(string)]: white space is
    trimmed, the empty text is [0n], a decimal literal may carry a sign, and
    the prefixes 0x, 0o and 0b select another radix. [None] is the
    SyntaxError that [BigInt] throws. *)
Fixpoint drop_ws (s : list ascii) : list ascii :=
  match s with
  | [] => []
  | c :: r => if is_ws c then drop_ws r else s
  end.

Definition trim (s : list ascii) : list ascii := rev (drop_ws (rev (drop_ws s))).

Definition digit_value (c : ascii) : option N :=
  let k := code c in
  if ((48 <=? k) && (k <=? 57))%N then Some (k - 48)%N
  else if ((97 <=? k) && (k <=? 102))%N then Some (k - 87)%N
  else if ((65 <=? k) && (k <=? 70))%N then Some (k - 55)%N
  else None.

Definition digit_in (radix : N) (c : ascii) : option N :=
  match digit_value c with
  | Some d => if (d <? radix)%N then Some d else None
  | None => None
  end.

Fixpoint parse_radix (radix : N) (s : list ascii) (acc : N) : option N :=
  match s with
  | [] => Some acc
  | c :: r =>
      match digit_in radix c with
      | Some d => parse_radix radix r (radix * acc + d)
      | None => None
      end
  end.

Definition parse_digits (radix : N) (s : list ascii) : option N :=
  match s with
  | [] => None
  | _ => parse_radix radix s 0
  end.

Definition radix_of_prefix (c : ascii) : option N :=
  let k := code c in
  if ((k =? 120) || (k =? 88))%N then Some 16%N
  else if ((k =? 111) || (k =? 79))%N then Some 8%N
  else if ((k =? 98) || (k =? 66))%N then Some 2%N
  else None.

Definition StringToBigInt (s : list ascii) : option Z :=
  match trim s with
  | [] => Some 0%Z
  | c :: r =>
      if is_char 43 c then Z.of_N <$> parse_digits 10 r
      else if is_char 45 c then (fun n => (- Z.of_N n)%Z) <$> parse_digits 10 r
      else
        match r with
        | p :: r' =>
            match (if is_char 48 c then radix_of_prefix p else None) with
            | Some radix => Z.of_N <$> parse_digits radix r'
            | None => Z.of_N <$> parse_digits 10 (c :: r)
            end
        | [] => Z.of_N <$> parse_digits 10 (c :: r)
        end
  end.

(** [s.slice(-n)] for a natural number [n]: the last [n] code units, and the
    whole string for [n = 0], since [-0] is the index [0]. *)
Definition slice_last (n : nat) (s : list ascii) : list ascii :=
  match n with
  | O => s
  | _ => drop (length s - n) s
  end.

(** [BigInt.prototype.toString(16)]: lower-case hexadecimal digits, most
    significant first. *)
Definition hex_char (d : N) : ascii :=
  if (d <? 10)%N then chr (48 + d) else chr (87 + d).

Fixpoint hex_from (fuel : nat) (n : N) (acc : list ascii) : list ascii :=
  match fuel with
  | O => acc
  | S fuel' =>
      let acc' := hex_char (n mod 16) :: acc in
      if (n <? 16)%N then acc' else hex_from fuel' (n / 16) acc'
  end.

Definition hex_digits (n : N) : list ascii :=
  hex_from (S (N.to_nat (N.log2 n))) n [].

Definition BigInt_toString16 (w : Z) : list ascii :=
  if (w <? 0)%Z then chr 45 :: hex_digits (Z.abs_N w)
  else hex_digits (Z.to_N w).

End Js.

(** ** SDK utilities (utils.ts) *)
Module Utils.
Import Js.

(** [MNEE_TOKEN_CONFIG.decimals]. *)
Definition decimals : nat := 6.

(** [toWei(amount)] on a string argument; a number argument is first
    rendered by [Number.prototype.toString], which is outside the model.
    [toWei_text] is [whole + truncatedDecimal], the text handed to [BigInt];
    [None] is the SyntaxError raised by [BigInt]. *)
Definition toWei_text (amount : string) : list ascii :=
  let parts := split_on 46 (list_ascii_of_string amount) in
  let whole := nth 0 parts [] in
  let decimal := nth 1 parts [] in
  let paddedDecimal := padEnd decimals "0" decimal in
  let truncatedDecimal := slice 0 decimals paddedDecimal in
  whole ++ truncatedDecimal.

Definition toWei (amount : string) : option Z :=
  StringToBigInt (toWei_text amount).

(** [fromWei(wei)]. *)
Definition fromWei (wei : Z) : string :=
  let weiStr := padStart (decimals + 1) "0" (BigInt_toString wei) in
  let decimalPosition := (length weiStr - decimals)%nat in
  let whole :=
    match slice 0 decimalPosition weiStr with
    | [] => ["0"%char]
    | w => w
    end in
  let decimal := drop decimalPosition weiStr in
  let trimmedDecimal := strip_trailing_zeros decimal in
  string_of_list_ascii
    match trimmedDecimal with
    | [] => whole
    | _ => whole ++ "."%char :: trimmedDecimal
    end.

(** [getExpirationTimestamp] and [isExpired]; [nowMs] is [Date.now()]. *)
Definition getExpirationTimestamp (nowMs durationInSeconds : Z) : Z :=
  (nowMs / 1000 + durationInSeconds)%Z.

Definition isExpired (nowMs expiresAt : Z) : bool :=
  (expiresAt <=? nowMs / 1000)%Z.

(** [isValidAddress(address)]: the test of [/^0x[a-fA-F0-9]{40}$/]. *)
Definition is_hex (c : ascii) : bool :=
  let k := code c in
  ((97 <=? k) && (k <=? 102) || (65 <=? k) && (k <=? 70) || (48 <=? k) && (k <=? 57))%N.

Definition isValidAddress (address : string) : bool :=
  match list_ascii_of_string address with
  | z :: x :: rest =>
      is_char 48 z && is_char 120 x && (length rest =? 40)%nat && forallb is_hex rest
  | _ => false
  end.

(** [shortenAddress(address, chars)] for a natural number [chars] (4 when
    the argument is left out). *)
Definition shortenAddress (address : string) (chars : nat) : string :=
  if negb (isValidAddress address) then address
  else
    let s := list_ascii_of_string address in
    string_of_list_ascii
      (slice 0 (chars + 2) s ++ list_ascii_of_string "..." ++ slice_last chars s).

End Utils.

(** ** Session keys of the SDK client (constants.ts, MneeClient.ts) *)
Module MneeClient.
Import Utils.

Definition Address : Type := string.
Definition Hash : Type := string.

(** What a call of an [async] method settles to. *)
Inductive outcome (A : Type) : Type :=
  | Returned (value : A)
  | Threw (message : string).
Arguments Returned {A} value.
Arguments Threw {A} message.

Record SessionKey : Type := {
  privateKey : string;
  address : Address;
  spendLimit : Z;
  remainingLimit : Z;
  expiresAt : Z;
  createdAt : Z
}.

Inductive PaymentStatus : Type := PENDING | CONFIRMED | FAILED.

Record TransactionReceipt : Type := {
  hash : Hash;
  from : Address;
  to : Address;
  amount : Z;
  status : PaymentStatus;
  timestamp : Z;
  blockNumber : Z
}.

(** The token calls the client sends through [writeContract], who signs
    them, and what the wallet client answered: a transaction hash, or a
    rejected promise. *)
Inductive ContractCall : Type :=
  | Approve (spender : Address) (value : Z)
  | Transfer (recipient : Address) (value : Z)
  | TransferFrom (owner recipient : Address) (value : Z).

Inductive Signer : Type :=
  | MainAccount (a : Address)
  | SessionAccount (key : string).

Record Submission : Type := {
  signer : Signer;
  call : ContractCall;
  answer : outcome Hash
}.

(** What [waitForTransactionReceipt] resolves to. *)
Record ChainReceipt : Type := {
  receipt_success : bool;
  receipt_blockNumber : Z
}.

(** The client and the objects it shares with its callers. A session key is
    a mutable object: [heap] holds the objects, a [ref] is a reference to
    one, and [sessionKeys] (the client's [Map]) and the caller hold
    references to the same object. [submitted] lists, oldest first, the
    calls handed to the wallet clients. *)
Abbreviation ref := nat.

Record World : Type := {
  account : option Address;
  sessionKeys : gmap string ref;
  heap : list SessionKey;
  submitted : list Submission
}.

Definition set_sessionKeys (m : gmap string ref) (w : World) : World :=
  {| account := account w; sessionKeys := m; heap := heap w; submitted := submitted w |}.

Definition set_heap (h : list SessionKey) (w : World) : World :=
  {| account := account w; sessionKeys := sessionKeys w; heap := h; submitted := submitted w |}.

Definition writeContract (who : Signer) (c : ContractCall) (ans : outcome Hash)
    (w : World) : World :=
  {| account := account w; sessionKeys := sessionKeys w; heap := heap w;
     submitted := submitted w ++ [{| signer := who; call := c; answer := ans |}] |}.

(** The message of the SyntaxError that [BigInt] throws inside
    [toWei(amount)]: V8 (Node.js, Chrome) quotes the text it was given. *)
Definition SyntaxError (amount : string) : string :=
  ("Cannot convert " ++ string_of_list_ascii (toWei_text amount) ++ " to a BigInt")%string.
Definition TypeError : string := "TypeError: Cannot read properties of undefined".

(** [approve(spender, amount)]; [ans] is the wallet client's answer. *)
Definition approve (ans : outcome Hash) (spender : Address) (amount : string)
    (w : World) : World * outcome Hash :=
  match account w with
  | None => (w, Threw "Wallet client not initialized. Provide account in constructor.")
  | Some main =>
      match toWei amount with
      | None => (w, Threw (SyntaxError amount))
      | Some amountWei => (writeContract (MainAccount main) (Approve spender amountWei) ans w, ans)
      end
  end.

Record AuthorizeAgentOptions : Type := {
  opt_spendLimit : string;
  opt_duration : Z;
  opt_label : option string
}.

(** What the environment supplies to one [authorizeAgent] call: the key pair
    of [generatePrivateKey], two readings of [Date.now()], and the answer to
    the approval. *)
Record AuthorizeEnv : Type := {
  auth_privateKey : string;
  auth_address : Address;
  auth_now : Z;
  auth_created : Z;
  auth_approve : outcome Hash
}.

(** [options.label || sessionAccount.address]: an empty label is falsy. *)
Definition keyId_of (label : option string) (a : Address) : string :=
  match label with
  | Some l => if String.eqb l "" then a else l
  | None => a
  end.

Definition authorizeAgent (env : AuthorizeEnv) (options : AuthorizeAgentOptions)
    (w : World) : World * outcome ref :=
  match account w with
  | None => (w, Threw "Account not initialized. Provide account in constructor.")
  | Some _ =>
      match toWei (opt_spendLimit options) with
      | None => (w, Threw (SyntaxError (opt_spendLimit options)))
      | Some spendLimitWei =>
          let sessionKey :=
            {| privateKey := auth_privateKey env;
               address := auth_address env;
               spendLimit := spendLimitWei;
               remainingLimit := spendLimitWei;
               expiresAt := getExpirationTimestamp (auth_now env) (opt_duration options);
               createdAt := (auth_created env / 1000)%Z |} in
          let r := length (heap w) in
          let keyId := keyId_of (opt_label options) (auth_address env) in
          let w1 := set_sessionKeys (<[keyId := r]> (sessionKeys w))
                      (set_heap (heap w ++ [sessionKey]) w) in
          match approve (auth_approve env) (auth_address env) (opt_spendLimit options) w1 with
          | (w2, Returned _) => (w2, Returned r)
          | (w2, Threw m) => (w2, Threw m)
          end
      end
  end.

Definition getSessionKey (keyId : string) (w : World) : option ref :=
  sessionKeys w !! keyId.

Definition revokeSessionKey (ans : outcome Hash) (keyId : string) (w : World)
    : World * outcome Hash :=
  match sessionKeys w !! keyId with
  | None => (w, Threw "Session key not found")
  | Some r =>
      match heap w !! r with
      | None => (w, Threw TypeError)
      | Some sessionKey =>
          match approve ans (address sessionKey) "0" w with
          | (w1, Returned h) => (set_sessionKeys (delete keyId (sessionKeys w1)) w1, Returned h)
          | (w1, Threw m) => (w1, Threw m)
          end
      end
  end.

(** [sessionKey.remainingLimit -= amount] on the shared object. *)
Definition debit (r : ref) (amount : Z) (w : World) : World :=
  set_heap
    (alter (fun k =>
       {| privateKey := privateKey k; address := address k; spendLimit := spendLimit k;
          remainingLimit := (remainingLimit k - amount)%Z;
          expiresAt := expiresAt k; createdAt := createdAt k |}) r (heap w)) w.

Definition limit_message (k : SessionKey) : string :=
  ("Amount exceeds session key limit. Remaining: " ++ fromWei (remainingLimit k) ++ " MNEE")%string.

(** What the environment supplies to one session-key payment: [Date.now()]
    at entry and at return, and the answers of [writeContract] and of
    [waitForTransactionReceipt]. *)
Record PayEnv : Type := {
  pay_now : Z;
  pay_submit : outcome Hash;
  pay_receipt : outcome ChainReceipt;
  pay_done : Z
}.

Definition receipt_of (h : Hash) (main recipient : Address) (value : Z)
    (rc : ChainReceipt) (doneMs : Z) : TransactionReceipt :=
  {| hash := h; from := main; to := recipient; amount := value;
     status := if receipt_success rc then CONFIRMED else FAILED;
     timestamp := (doneMs / 1000)%Z;
     blockNumber := receipt_blockNumber rc |}.

(** [_sendPaymentWithSessionKey(to, amount, sessionKey)], run without
    another call in between. Deriving the session account from the private
    key and building its wallet client are taken to succeed. *)
Definition _sendPaymentWithSessionKey (env : PayEnv) (recipient : Address)
    (value : Z) (r : ref) (w : World) : World * outcome TransactionReceipt :=
  match heap w !! r with
  | None => (w, Threw TypeError)
  | Some sessionKey =>
      if isExpired (pay_now env) (expiresAt sessionKey) then
        (w, Threw "Session key has expired")
      else if (remainingLimit sessionKey <? value)%Z then
        (w, Threw (limit_message sessionKey))
      else
        match account w with
        | None => (w, Threw "Main account not initialized")
        | Some main =>
            let w1 := writeContract (SessionAccount (privateKey sessionKey))
                        (TransferFrom main recipient value) (pay_submit env) w in
            match pay_submit env with
            | Threw m => (w1, Threw m)
            | Returned h =>
                let w2 := debit r value w1 in
                match pay_receipt env with
                | Threw m => (w2, Threw m)
                | Returned rc =>
                    (w2, Returned (receipt_of h main recipient value rc (pay_done env)))
                end
            end
        end
  end.

(** A sequence of payments against one session key, each run to its end
    before the next one starts. *)
Record PayCall : Type := {
  call_env : PayEnv;
  call_to : Address;
  call_amount : Z
}.

Fixpoint run_payments (calls : list PayCall) (r : ref) (w : World)
    : World * list (outcome TransactionReceipt) :=
  match calls with
  | [] => (w, [])
  | c :: rest =>
      let '(w1, res) := _sendPaymentWithSessionKey (call_env c) (call_to c) (call_amount c) r w in
      let '(w2, ress) := run_payments rest r w1 in
      (w2, res :: ress)
  end.

(** The same method as the event loop runs it: the body is cut at its two
    [await]s, and another call may run between two segments. *)
Inductive Payment : Type :=
  | Called (recipient : Address) (value : Z) (r : ref)
  | AwaitingSubmit (main : Address) (key : string) (recipient : Address) (value : Z) (r : ref)
  | AwaitingReceipt (main : Address) (recipient : Address) (value : Z) (r : ref) (h : Hash)
  | Settled (result : outcome TransactionReceipt).

Inductive Resume : Type :=
  | Enter (nowMs : Z)
  | Submitted (ans : outcome Hash)
  | Mined (ans : outcome ChainReceipt) (doneMs : Z).

Definition resume (e : Resume) (p : Payment) (w : World) : World * Payment :=
  match p, e with
  | Called recipient value r, Enter nowMs =>
      match heap w !! r with
      | None => (w, Settled (Threw TypeError))
      | Some sessionKey =>
          if isExpired nowMs (expiresAt sessionKey) then
            (w, Settled (Threw "Session key has expired"))
          else if (remainingLimit sessionKey <? value)%Z then
            (w, Settled (Threw (limit_message sessionKey)))
          else
            match account w with
            | None => (w, Settled (Threw "Main account not initialized"))
            | Some main =>
                (w, AwaitingSubmit main (privateKey sessionKey) recipient value r)
            end
      end
  | AwaitingSubmit main key recipient value r, Submitted ans =>
      let w1 := writeContract (SessionAccount key) (TransferFrom main recipient value) ans w in
      match ans with
      | Threw m => (w1, Settled (Threw m))
      | Returned h => (debit r value w1, AwaitingReceipt main recipient value r h)
      end
  | AwaitingReceipt main recipient value r h, Mined ans doneMs =>
      match ans with
      | Threw m => (w, Settled (Threw m))
      | Returned rc => (w, Settled (Returned (receipt_of h main recipient value rc doneMs)))
      end
  | _, _ => (w, p)
  end.

(** A schedule resumes one pending call at a time. *)
Fixpoint run_schedule (steps : list (nat * Resume)) (pool : list Payment) (w : World)
    : World * list Payment :=
  match steps with
  | [] => (w, pool)
  | (i, e) :: rest =>
      match pool !! i with
      | None => run_schedule rest pool w
      | Some p =>
          let '(w1, p1) := resume e p w in
          run_schedule rest (<[i := p1]> pool) w1
      end
  end.

(** The amounts of the [transferFrom] calls a session account got a hash for. *)
Definition debit_of (key : string) (s : Submission) : Z :=
  match signer s, call s, answer s with
  | SessionAccount k, TransferFrom _ _ value, Returned _ =>
      if String.eqb k key then value else 0%Z
  | _, _, _ => 0%Z
  end.

Definition debited (key : string) (log : list Submission) : Z :=
  foldr (fun s acc => (debit_of key s + acc)%Z) 0%Z log.

(** The amounts of the payments that returned a confirmed receipt. *)
Definition confirmed_amount (res : outcome TransactionReceipt) : Z :=
  match res with
  | Returned rc => match status rc with CONFIRMED => amount rc | _ => 0%Z end
  | Threw _ => 0%Z
  end.

Definition confirmed_total (results : list (outcome TransactionReceipt)) : Z :=
  foldr (fun r acc => (confirmed_amount r + acc)%Z) 0%Z results.

(** The ABI declares every amount [uint256]: the wallet client encodes the
    arguments before it sends anything, so a hash is only ever returned for
    an amount in range. *)
Definition call_value (c : ContractCall) : Z :=
  match c with
  | Approve _ v | Transfer _ v | TransferFrom _ _ v => v
  end.

Definition uint256_accepted (s : Submission) : Prop :=
  match answer s with
  | Returned _ => (0 <= call_value (call s) < 2 ^ 256)%Z
  | Threw _ => True
  end.

(** [sendPayment({to, amount, sessionKey})] on a string amount. With a
    session key the call is handed to [_sendPaymentWithSessionKey]; without
    one the main account signs a [transfer]. *)
Definition sendPayment (env : PayEnv) (recipient : Address) (amount : string)
    (sessionKey : option ref) (w : World) : World * outcome TransactionReceipt :=
  if negb (isValidAddress recipient) then (w, Threw "Invalid recipient address")
  else
    match toWei amount with
    | None => (w, Threw (SyntaxError amount))
    | Some amountWei =>
        match sessionKey with
        | Some r => _sendPaymentWithSessionKey env recipient amountWei r w
        | None =>
            match account w with
            | None => (w, Threw "Wallet client not initialized")
            | Some main =>
                let w1 := writeContract (MainAccount main) (Transfer recipient amountWei)
                            (pay_submit env) w in
                match pay_submit env with
                | Threw m => (w1, Threw m)
                | Returned h =>
                    match pay_receipt env with
                    | Threw m => (w1, Threw m)
                    | Returned rc =>
                        (w1, Returned (receipt_of h main recipient amountWei rc (pay_done env)))
                    end
                end
            end
        end
    end.

End MneeClient.

(** ** Calldata of the gasless transfer (AccountAbstractionService.ts) *)
Module AccountAbstractionService.
Import Js.

Definition encodeTransferFunction (recipient : string) (amount : Z) : string :=
  let functionSignature := list_ascii_of_string "0xa9059cbb" in
  let addressParam := padStart 64 "0" (drop 2 (list_ascii_of_string recipient)) in
  let amountParam := padStart 64 "0" (BigInt_toString16 amount) in
  string_of_list_ascii (functionSignature ++ addressParam ++ amountParam).

End AccountAbstractionService.

(** ** Contract calls: a transaction returns, or reverts and changes nothing *)
Module Evm.

Inductive result (A : Type) : Type :=
  | Ok (value : A)
  | Revert (reason : string).
Arguments Ok {A} value.
Arguments Revert {A} reason.

#[global] Instance result_ret : MRet result := fun A => @Ok A.
#[global] Instance result_bind : MBind result :=
  fun A B f r => match r with Ok a => f a | Revert m => Revert m end.

Definition require (b : bool) (reason : string) : result unit :=
  if b then Ok tt else Revert reason.

(** [uint256]: a natural number below [2^256]. Checked arithmetic reverts
    with a panic when it leaves the range; [unchecked] arithmetic wraps. *)
Definition wrap (n : N) : N := (n mod 2 ^ 256)%N.

Definition checked_add (a b : N) : result N :=
  if (a + b <? 2 ^ 256)%N then Ok (a + b)%N else Revert "Panic(0x11)".

(** [msg.sender] and [block.timestamp] of a call. *)
Record Msg : Type := {
  sender : N;
  timestamp : N
}.

End Evm.

(** ** The token (contracts/MockMNEE.sol) *)
Module MockMNEE.
Import Evm.

Inductive Event : Type :=
  | Transfer (from to value : N)
  | Approval (owner spender value : N)
  | FaucetDrip (recipient amount : N).

Record State : Type := {
  _totalSupply : N;
  _balances : gmap N N;
  _allowances : gmap (N * N) N;
  lastFaucetTime : gmap N N
}.

Definition FAUCET_AMOUNT : N := 1000 * 10 ^ 6.
Definition FAUCET_COOLDOWN : N := 3600.

Definition totalSupply (st : State) : N := _totalSupply st.
Definition balanceOf (st : State) (a : N) : N := default 0%N (_balances st !! a).
Definition allowance (st : State) (owner spender : N) : N :=
  default 0%N (_allowances st !! (owner, spender)).

Definition set_balance (a v : N) (st : State) : State :=
  {| _totalSupply := _totalSupply st; _balances := <[a := v]> (_balances st);
     _allowances := _allowances st; lastFaucetTime := lastFaucetTime st |}.

Definition _transfer (from to amount : N) (st : State) : result (State * list Event) :=
  _ ← require (negb (from =? 0)%N) "ERC20: transfer from zero address";
  _ ← require (negb (to =? 0)%N) "ERC20: transfer to zero address";
  let fromBalance := balanceOf st from in
  _ ← require (amount <=? fromBalance)%N "ERC20: insufficient balance";
  let st1 := set_balance from (fromBalance - amount)%N st in
  let st2 := set_balance to (wrap (balanceOf st1 to + amount)) st1 in
  mret (st2, [Transfer from to amount]).

Definition _mint (a amount : N) (st : State) : result (State * list Event) :=
  _ ← require (negb (a =? 0)%N) "ERC20: mint to zero address";
  supply ← checked_add (_totalSupply st) amount;
  let st1 :=
    {| _totalSupply := supply; _balances := _balances st;
       _allowances := _allowances st; lastFaucetTime := lastFaucetTime st |} in
  let st2 := set_balance a (wrap (balanceOf st1 a + amount)) st1 in
  mret (st2, [Transfer 0 a amount]).

Definition _approve (owner spender amount : N) (st : State) : result (State * list Event) :=
  _ ← require (negb (owner =? 0)%N) "ERC20: approve from zero address";
  _ ← require (negb (spender =? 0)%N) "ERC20: approve to zero address";
  mret ({| _totalSupply := _totalSupply st; _balances := _balances st;
           _allowances := <[(owner, spender) := amount]> (_allowances st);
           lastFaucetTime := lastFaucetTime st |},
        [Approval owner spender amount]).

Definition constructor (deployer : N) : result (State * list Event) :=
  _mint deployer (1000000 * 10 ^ 6)
    {| _totalSupply := 0; _balances := ∅; _allowances := ∅; lastFaucetTime := ∅ |}.

Definition faucet (msg : Msg) (st : State) : result (State * list Event) :=
  next ← checked_add (default 0%N (lastFaucetTime st !! sender msg)) FAUCET_COOLDOWN;
  _ ← require (next <=? timestamp msg)%N "Faucet: Please wait before requesting again";
  let st1 :=
    {| _totalSupply := _totalSupply st; _balances := _balances st;
       _allowances := _allowances st;
       lastFaucetTime := <[sender msg := timestamp msg]> (lastFaucetTime st) |} in
  '(st2, ev) ← _mint (sender msg) FAUCET_AMOUNT st1;
  mret (st2, ev ++ [FaucetDrip (sender msg) FAUCET_AMOUNT]).

Definition transfer (msg : Msg) (to amount : N) (st : State) : result (State * list Event) :=
  _transfer (sender msg) to amount st.

Definition approve (msg : Msg) (spender amount : N) (st : State) : result (State * list Event) :=
  _approve (sender msg) spender amount st.

Definition transferFrom (msg : Msg) (from to amount : N) (st : State)
    : result (State * list Event) :=
  let currentAllowance := allowance st from (sender msg) in
  _ ← require (amount <=? currentAllowance)%N "ERC20: insufficient allowance";
  '(st1, ev1) ← _approve from (sender msg) (currentAllowance - amount)%N st;
  '(st2, ev2) ← _transfer from to amount st1;
  mret (st2, ev1 ++ ev2).

Definition mintForDemo (msg : Msg) (to amount : N) (st : State) : result (State * list Event) :=
  _mint to amount st.

(** [timeUntilNextDrip(account)], a view: it reads the block time of the
    call. *)
Definition timeUntilNextDrip (msg : Msg) (account : N) (st : State) : result N :=
  nextAvailable ← checked_add (default 0%N (lastFaucetTime st !! account)) FAUCET_COOLDOWN;
  if (nextAvailable <=? timestamp msg)%N then mret 0%N
  else mret (nextAvailable - timestamp msg)%N.

End MockMNEE.

(** ** The escrow (contracts/MneeEscrow.sol) *)
Module MneeEscrow.
Import Evm.

Inductive TaskStatus : Type := Active | Completed | Refunded | Disputed.

Definition status_eqb (a b : TaskStatus) : bool :=
  match a, b with
  | Active, Active | Completed, Completed | Refunded, Refunded | Disputed, Disputed => true
  | _, _ => false
  end.

Record EscrowTask : Type := {
  agent : N;
  serviceProvider : N;
  amount : N;
  deadline : N;
  status : TaskStatus;
  taskId : N;
  taskDescription : string;
  autoRefund : bool
}.

Inductive Event : Type :=
  | Token (e : MockMNEE.Event)
  | TaskCreated (id agent serviceProvider amount deadline : N)
  | TaskCompleted (id serviceProvider attestationUID : N)
  | TaskRefunded (id agent amount : N)
  | TaskDisputed (id disputeInitiator : N)
  | AttestationProviderUpdated (newProvider : N)
  | OwnershipTransferred (previousOwner newOwner : N).

(** The storage of the contract; [owner] is the slot of [Ownable]. The
    re-entrancy guard is left out: the token makes no call back, so the guard
    is never met closed. *)
Record Storage : Type := {
  owner : N;
  taskCompletionSchemaUID : N;
  attestationProvider : N;
  tasks : gmap N EscrowTask;
  agentTasks : gmap N (list N);
  providerTasks : gmap N (list N)
}.

(** The two contracts on the chain: [this] is [address(this)], [mneeToken]
    the ledger of the token the escrow was deployed with. *)
Record Chain : Type := {
  this : N;
  escrow : Storage;
  mneeToken : MockMNEE.State
}.

(** The hashing and signature primitives of the EVM, left abstract:
    [task_hash] is [keccak256(abi.encodePacked(sender, provider, amount,
    timestamp, description))], [attestation_hash] the Ethereum signed-message
    hash of [keccak256(abi.encodePacked(taskId, attestationUID, provider))],
    and [ecrecover hash v r s] the precompile. *)
Record Primitives : Type := {
  task_hash : N -> N -> N -> N -> string -> N;
  attestation_hash : N -> N -> N -> N;
  ecrecover : N -> N -> N -> N -> N
}.

(** A missing key of a [mapping] reads as the zero value. *)
Definition no_task : EscrowTask :=
  {| agent := 0; serviceProvider := 0; amount := 0; deadline := 0; status := Active;
     taskId := 0; taskDescription := ""; autoRefund := false |}.

Definition task_at (st : Storage) (id : N) : EscrowTask := default no_task (tasks st !! id).

Definition with_status (s : TaskStatus) (t : EscrowTask) : EscrowTask :=
  {| agent := agent t; serviceProvider := serviceProvider t; amount := amount t;
     deadline := deadline t; status := s; taskId := taskId t;
     taskDescription := taskDescription t; autoRefund := autoRefund t |}.

Definition set_tasks (m : gmap N EscrowTask) (st : Storage) : Storage :=
  {| owner := owner st; taskCompletionSchemaUID := taskCompletionSchemaUID st;
     attestationProvider := attestationProvider st; tasks := m;
     agentTasks := agentTasks st; providerTasks := providerTasks st |}.

(** [task.status = s] through the storage pointer [tasks[id]]. *)
Definition set_status (id : N) (s : TaskStatus) (c : Chain) : Chain :=
  {| this := this c;
     escrow := set_tasks (<[id := with_status s (task_at (escrow c) id)]> (tasks (escrow c)))
                 (escrow c);
     mneeToken := mneeToken c |}.

Definition set_escrow (st : Storage) (c : Chain) : Chain :=
  {| this := this c; escrow := st; mneeToken := mneeToken c |}.

(** A call of the token made by the escrow: [msg.sender] is the escrow. The
    token returns [true] or reverts, and its revert undoes the whole
    transaction; the "Transfer failed" branch of the surrounding [require] is
    therefore never taken. *)
Definition as_escrow (c : Chain) (msg : Msg) : Msg :=
  {| sender := this c; timestamp := timestamp msg |}.

Definition token_call (r : result (MockMNEE.State * list MockMNEE.Event)) (c : Chain)
    : result (Chain * list Event) :=
  match r with
  | Ok (tok, ev) =>
      Ok ({| this := this c; escrow := escrow c; mneeToken := tok |}, Token <$> ev)
  | Revert reason => Revert reason
  end.

Definition constructor (msg : Msg) (_mneeToken _attestationProvider : N) : result Storage :=
  _ ← require (negb (sender msg =? 0)%N) "OwnableInvalidOwner";
  _ ← require (negb (_mneeToken =? 0)%N) "Invalid MNEE token address";
  mret {| owner := sender msg; taskCompletionSchemaUID := 0;
          attestationProvider := _attestationProvider;
          tasks := ∅; agentTasks := ∅; providerTasks := ∅ |}.

Definition onlyOwner (msg : Msg) (c : Chain) : result unit :=
  require (owner (escrow c) =? sender msg)%N "OwnableUnauthorizedAccount".

Definition lockFunds (P : Primitives) (msg : Msg) (_serviceProvider _amount _deadline : N)
    (_taskDescription : string) (_autoRefund : bool) (c : Chain)
    : result (N * Chain * list Event) :=
  _ ← require (negb (_serviceProvider =? 0)%N) "Invalid provider address";
  _ ← require (0 <? _amount)%N "Amount must be greater than 0";
  _ ← require (timestamp msg <? _deadline)%N "Deadline must be in future";
  _ ← require (0 <? String.length _taskDescription)%nat "Description required";
  let id := task_hash P (sender msg) _serviceProvider _amount (timestamp msg)
              _taskDescription in
  _ ← require (agent (task_at (escrow c) id) =? 0)%N "Task already exists";
  '(c1, ev) ← token_call
      (MockMNEE.transferFrom (as_escrow c msg) (sender msg) (this c) _amount (mneeToken c)) c;
  let task :=
    {| agent := sender msg; serviceProvider := _serviceProvider; amount := _amount;
       deadline := _deadline; status := Active; taskId := id;
       taskDescription := _taskDescription; autoRefund := _autoRefund |} in
  let st := escrow c1 in
  let st' :=
    {| owner := owner st; taskCompletionSchemaUID := taskCompletionSchemaUID st;
       attestationProvider := attestationProvider st;
       tasks := <[id := task]> (tasks st);
       agentTasks :=
         <[sender msg := default [] (agentTasks st !! sender msg) ++ [id]]> (agentTasks st);
       providerTasks :=
         <[_serviceProvider := default [] (providerTasks st !! _serviceProvider) ++ [id]]>
           (providerTasks st) |} in
  mret (id, set_escrow st' c1,
        ev ++ [TaskCreated id (sender msg) _serviceProvider _amount _deadline]).

(** Big-endian value of a run of bytes, as [mload] reads it. *)
Definition be_uint (bytes : list N) : N :=
  fold_left (fun a b => (256 * a + b)%N) bytes 0%N.

Definition _recoverSigner (P : Primitives) (_ethSignedMessageHash : N) (_signature : list N)
    : result N :=
  _ ← require (length _signature =? 65)%nat "Invalid signature length";
  let r := be_uint (take 32 _signature) in
  let s := be_uint (take 32 (drop 32 _signature)) in
  let v := nth 64 _signature 0%N in
  mret (ecrecover P _ethSignedMessageHash v r s).

Definition _verifyAttestation (P : Primitives) (st : Storage)
    (_taskId _attestationUID : N) (_signature : list N) (_serviceProvider : N)
    : result bool :=
  if (0 <? length _signature)%nat then
    signer ← _recoverSigner P (attestation_hash P _taskId _attestationUID _serviceProvider)
               _signature;
    mret (signer =? attestationProvider st)%N
  else
    mret (negb (_attestationUID =? 0)%N).

Definition releaseWithProof (P : Primitives) (msg : Msg) (_taskId _attestationUID : N)
    (_signature : list N) (c : Chain) : result (Chain * list Event) :=
  let task := task_at (escrow c) _taskId in
  _ ← require (negb (agent task =? 0)%N) "Task does not exist";
  _ ← require (status_eqb (status task) Active) "Task not active";
  _ ← require (timestamp msg <=? deadline task)%N "Task deadline passed";
  isValidAttestation ← _verifyAttestation P (escrow c) _taskId _attestationUID _signature
                         (serviceProvider task);
  _ ← require isValidAttestation "Invalid attestation";
  let c1 := set_status _taskId Completed c in
  '(c2, ev) ← token_call
      (MockMNEE.transfer (as_escrow c msg) (serviceProvider task) (amount task) (mneeToken c1))
      c1;
  mret (c2, ev ++ [TaskCompleted _taskId (serviceProvider task) _attestationUID]).

Definition refund (msg : Msg) (_taskId : N) (c : Chain) : result (Chain * list Event) :=
  let task := task_at (escrow c) _taskId in
  _ ← require (negb (agent task =? 0)%N) "Task does not exist";
  _ ← require (status_eqb (status task) Active) "Task not active";
  _ ← require ((sender msg =? agent task)%N || autoRefund task)
        "Not authorized or auto-refund disabled";
  _ ← require (deadline task <? timestamp msg)%N "Deadline not passed";
  let c1 := set_status _taskId Refunded c in
  '(c2, ev) ← token_call
      (MockMNEE.transfer (as_escrow c msg) (agent task) (amount task) (mneeToken c1)) c1;
  mret (c2, ev ++ [TaskRefunded _taskId (agent task) (amount task)]).

Definition dispute (msg : Msg) (_taskId : N) (c : Chain) : result (Chain * list Event) :=
  let task := task_at (escrow c) _taskId in
  _ ← require (negb (agent task =? 0)%N) "Task does not exist";
  _ ← require (status_eqb (status task) Active) "Task not active";
  _ ← require ((sender msg =? agent task)%N || (sender msg =? serviceProvider task)%N)
        "Not authorized";
  mret (set_status _taskId Disputed c, [TaskDisputed _taskId (sender msg)]).

Definition resolveDispute (msg : Msg) (_taskId : N) (_releaseToProvider : bool) (c : Chain)
    : result (Chain * list Event) :=
  _ ← onlyOwner msg c;
  let task := task_at (escrow c) _taskId in
  _ ← require (status_eqb (status task) Disputed) "Task not disputed";
  let recipient := if _releaseToProvider then serviceProvider task else agent task in
  let c1 := set_status _taskId (if _releaseToProvider then Completed else Refunded) c in
  '(c2, ev) ← token_call
      (MockMNEE.transfer (as_escrow c msg) recipient (amount task) (mneeToken c1)) c1;
  mret (c2, ev ++ [if _releaseToProvider
                   then TaskCompleted _taskId (serviceProvider task) 0
                   else TaskRefunded _taskId (agent task) (amount task)]).

Definition updateAttestationProvider (msg : Msg) (_newProvider : N) (c : Chain)
    : result (Chain * list Event) :=
  _ ← onlyOwner msg c;
  _ ← require (negb (_newProvider =? 0)%N) "Invalid address";
  let st := escrow c in
  mret (set_escrow
          {| owner := owner st; taskCompletionSchemaUID := taskCompletionSchemaUID st;
             attestationProvider := _newProvider; tasks := tasks st;
             agentTasks := agentTasks st; providerTasks := providerTasks st |} c,
        [AttestationProviderUpdated _newProvider]).

Definition updateSchemaUID (msg : Msg) (_schemaUID : N) (c : Chain)
    : result (Chain * list Event) :=
  _ ← onlyOwner msg c;
  let st := escrow c in
  mret (set_escrow
          {| owner := owner st; taskCompletionSchemaUID := _schemaUID;
             attestationProvider := attestationProvider st; tasks := tasks st;
             agentTasks := agentTasks st; providerTasks := providerTasks st |} c,
        []).

Definition emergencyWithdraw (msg : Msg) (c : Chain) : result (Chain * list Event) :=
  _ ← onlyOwner msg c;
  let balance := MockMNEE.balanceOf (mneeToken c) (this c) in
  _ ← require (0 <? balance)%N "No balance";
  token_call (MockMNEE.transfer (as_escrow c msg) (owner (escrow c)) balance (mneeToken c)) c.

(** [transferOwnership] and [renounceOwnership], inherited from [Ownable]. *)
Definition set_owner (o : N) (c : Chain) : Chain :=
  let st := escrow c in
  set_escrow
    {| owner := o; taskCompletionSchemaUID := taskCompletionSchemaUID st;
       attestationProvider := attestationProvider st; tasks := tasks st;
       agentTasks := agentTasks st; providerTasks := providerTasks st |} c.

Definition transferOwnership (msg : Msg) (newOwner : N) (c : Chain)
    : result (Chain * list Event) :=
  _ ← onlyOwner msg c;
  _ ← require (negb (newOwner =? 0)%N) "OwnableInvalidOwner";
  mret (set_owner newOwner c, [OwnershipTransferred (owner (escrow c)) newOwner]).

Definition renounceOwnership (msg : Msg) (c : Chain) : result (Chain * list Event) :=
  _ ← onlyOwner msg c;
  mret (set_owner 0 c, [OwnershipTransferred (owner (escrow c)) 0]).

(** The transactions the two contracts accept. *)
Inductive Call : Type :=
  | LockFunds (_serviceProvider _amount _deadline : N) (_taskDescription : string)
      (_autoRefund : bool)
  | ReleaseWithProof (_taskId _attestationUID : N) (_signature : list N)
  | Refund (_taskId : N)
  | Dispute (_taskId : N)
  | ResolveDispute (_taskId : N) (_releaseToProvider : bool)
  | UpdateAttestationProvider (_newProvider : N)
  | UpdateSchemaUID (_schemaUID : N)
  | EmergencyWithdraw
  | TransferOwnership (newOwner : N)
  | RenounceOwnership
  | TokenTransfer (to amount : N)
  | TokenApprove (spender amount : N)
  | TokenTransferFrom (from to amount : N)
  | TokenFaucet
  | TokenMintForDemo (to amount : N).

Record Tx : Type := {
  tx_msg : Msg;
  tx_call : Call
}.

Definition exec (P : Primitives) (tx : Tx) (c : Chain) : result (Chain * list Event) :=
  let msg := tx_msg tx in
  match tx_call tx with
  | LockFunds p a d s r =>
      '(_, c', ev) ← lockFunds P msg p a d s r c; mret (c', ev)
  | ReleaseWithProof id uid sig => releaseWithProof P msg id uid sig c
  | Refund id => refund msg id c
  | Dispute id => dispute msg id c
  | ResolveDispute id b => resolveDispute msg id b c
  | UpdateAttestationProvider p => updateAttestationProvider msg p c
  | UpdateSchemaUID u => updateSchemaUID msg u c
  | EmergencyWithdraw => emergencyWithdraw msg c
  | TransferOwnership o => transferOwnership msg o c
  | RenounceOwnership => renounceOwnership msg c
  | TokenTransfer to v => token_call (MockMNEE.transfer msg to v (mneeToken c)) c
  | TokenApprove sp v => token_call (MockMNEE.approve msg sp v (mneeToken c)) c
  | TokenTransferFrom from to v =>
      token_call (MockMNEE.transferFrom msg from to v (mneeToken c)) c
  | TokenFaucet => token_call (MockMNEE.faucet msg (mneeToken c)) c
  | TokenMintForDemo to v => token_call (MockMNEE.mintForDemo msg to v (mneeToken c)) c
  end.

(** A reverted transaction leaves the chain as it was. The history lists the
    transactions, oldest first, each with its events or its revert reason. *)
Fixpoint run (P : Primitives) (txs : list Tx) (c : Chain)
    : Chain * list (Tx * result (list Event)) :=
  match txs with
  | [] => (c, [])
  | tx :: rest =>
      match exec P tx c with
      | Ok (c1, ev) => let '(c2, h) := run P rest c1 in (c2, (tx, Ok ev) :: h)
      | Revert reason => let '(c2, h) := run P rest c in (c2, (tx, Revert reason) :: h)
      end
  end.

(** The task a transaction settles, and what the escrow paid out for a task:
    the token transfers out of the escrow made by the transactions that
    settle it. *)
Definition settles (call : Call) : option N :=
  match call with
  | ReleaseWithProof id _ _ | Refund id | ResolveDispute id _ => Some id
  | _ => None
  end.

Definition transfer_from (a : N) (e : Event) : option (N * N) :=
  match e with
  | Token (MockMNEE.Transfer from to v) => if (from =? a)%N then Some (to, v) else None
  | _ => None
  end.

Definition paid_by (a id : N) (entry : Tx * result (list Event)) : list (N * N) :=
  match settles (tx_call entry.1), entry.2 with
  | Some id', Ok ev => if (id' =? id)%N then omap (transfer_from a) ev else []
  | _, _ => []
  end.

Definition payouts (a id : N) (history : list (Tx * result (list Event))) : list (N * N) :=
  concat (paid_by a id <$> history).

(** What a task in a given state has been paid: nothing while it is open,
    its amount to the provider once completed, to the agent once refunded. *)
Definition settled_payout (t : option EscrowTask) : list (N * N) :=
  match t with
  | Some t =>
      match status t with
      | Completed => [(serviceProvider t, amount t)]
      | Refunded => [(agent t, amount t)]
      | Active | Disputed => []
      end
  | None => []
  end.

(** The views [getTask], [getAgentTasks] and [getProviderTasks]. *)
Definition getTask (c : Chain) (_taskId : N) : EscrowTask := task_at (escrow c) _taskId.

Definition getAgentTasks (c : Chain) (_agent : N) : list N :=
  default [] (agentTasks (escrow c) !! _agent).

Definition getProviderTasks (c : Chain) (_provider : N) : list N :=
  default [] (providerTasks (escrow c) !! _provider).

End MneeEscrow.

(** ** The escrow release and refund route (app/api/escrow/release/route.ts)

    The handlers keep the off-chain record of a task. A handler is written
    as the source has it, cut at its [await]s: run without another request
    in between it is [POST] or [PUT]; [run_schedule] lets requests overlap.
    An [await] of the [try] block may reject; the [create] of the [catch]
    block is taken to succeed. *)
Module EscrowRoute.

Inductive EscrowStatus : Type := ACTIVE | COMPLETED | REFUNDED | DISPUTED.

(** [status.toLowerCase()]. *)
Definition lower (s : EscrowStatus) : string :=
  match s with
  | ACTIVE => "active"
  | COMPLETED => "completed"
  | REFUNDED => "refunded"
  | DISPUTED => "disputed"
  end.

Definition is_ACTIVE (s : EscrowStatus) : bool :=
  match s with ACTIVE => true | _ => false end.

(** A row of [escrowTransaction]; dates are milliseconds since the epoch. *)
Record EscrowTransaction : Type := {
  taskId : string;
  agentAddress : string;
  providerAddress : string;
  amountFormatted : string;
  deadline : Z;
  autoRefund : bool;
  status : EscrowStatus;
  attestationUID : option string;
  completedAt : option Z;
  refundedAt : option Z
}.

(** What the [catch] block receives: the error an [await] rejected with,
    given by its [String(error)], or the error of an [update] that finds no
    record. *)
Inductive Error : Type :=
  | Rejected (text : string)
  | RecordNotFound.

Inductive WebhookEvent : Type :=
  | escrow_released (taskId providerAddress amount attestationUID : string)
  | escrow_refunded (taskId agentAddress amount : string)
  | escrow_release_failed (error : Error)
  | escrow_refund_failed (error : Error).

Record Db : Type := {
  escrowTransaction : gmap string EscrowTransaction;
  webhookEvent : list WebhookEvent
}.

Inductive Response : Type :=
  | Failure (code : nat) (error : string)
  | Success (escrow : EscrowTransaction) (message : string).

(** [!value] for an optional string: [undefined] and the empty string are
    falsy. *)
Definition falsy (v : option string) : bool :=
  match v with
  | None => true
  | Some s => String.eqb s ""
  end.

(** The awaited calls of a [try] block. *)
Inductive Await : Type := req_json | findUnique | update | create.

#[global] Instance Await_eq_dec : EqDecision Await.
Proof. solve_decision. Defined.

(** What one request brings and what its handler reads from the
    environment: the fields of the body (absent, or a string), the two
    readings of [new Date()], and the [await] of the [try] block that
    rejects, if one does, with its [String(error)]. When [req.json()] rejects
    (the body is not JSON) no field is read. *)
Record Request : Type := {
  body_taskId : option string;
  body_attestationUID : option string;
  body_signature : option string;
  checked_at : Z;
  written_at : Z;
  thrown : option (Await * string)
}.

(** A handler body, cut at its [await]s: what is awaited, and how the body
    goes on with the result. *)
Inductive Handler : Type :=
  | Return (response : Response)
  | AwaitJson (next : Handler)
  | AwaitFindUnique (taskId : string) (next : option EscrowTransaction -> Handler)
  | AwaitUpdate (taskId : string) (data : EscrowTransaction -> EscrowTransaction)
      (next : EscrowTransaction -> Handler)
  | AwaitCreate (event : WebhookEvent) (next : Handler).

(** [try { body } catch (error) { await create(failed error); return failure }]. *)
Record Route : Type := {
  try_body : Handler;
  catch_event : Error -> WebhookEvent;
  catch_response : Response
}.

Definition POST_handler (req : Request) : Route :=
  {| try_body :=
       AwaitJson
         (if falsy (body_taskId req) || falsy (body_attestationUID req) then
            Return (Failure 400 "Missing taskId or attestationUID")
          else
            let id := default ""%string (body_taskId req) in
            let uid := default ""%string (body_attestationUID req) in
            AwaitFindUnique id (fun found =>
              match found with
              | None => Return (Failure 404 "Task not found")
              | Some escrow =>
                  if negb (is_ACTIVE (status escrow)) then
                    Return (Failure 400
                              ("Task is " ++ lower (status escrow) ++ ", cannot release"))
                  else if (deadline escrow <? checked_at req)%Z then
                    Return (Failure 400 "Task deadline has passed")
                  else
                    AwaitUpdate id
                      (fun row =>
                         {| taskId := taskId row; agentAddress := agentAddress row;
                            providerAddress := providerAddress row;
                            amountFormatted := amountFormatted row;
                            deadline := deadline row; autoRefund := autoRefund row;
                            status := COMPLETED; attestationUID := Some uid;
                            completedAt := Some (written_at req);
                            refundedAt := refundedAt row |})
                      (fun updatedEscrow =>
                         AwaitCreate
                           (escrow_released id (providerAddress updatedEscrow)
                              (amountFormatted updatedEscrow) uid)
                           (Return (Success updatedEscrow
                                      "Escrow funds released to provider")))
              end));
     catch_event := escrow_release_failed;
     catch_response := Failure 500 "Failed to release escrow funds" |}.

Definition PUT_handler (req : Request) : Route :=
  {| try_body :=
       AwaitJson
         (if falsy (body_taskId req) then
            Return (Failure 400 "Missing taskId")
          else
            let id := default ""%string (body_taskId req) in
            AwaitFindUnique id (fun found =>
              match found with
              | None => Return (Failure 404 "Task not found")
              | Some escrow =>
                  if negb (is_ACTIVE (status escrow)) then
                    Return (Failure 400
                              ("Task is " ++ lower (status escrow) ++ ", cannot refund"))
                  else if (checked_at req <=? deadline escrow)%Z then
                    Return (Failure 400 "Deadline has not passed yet")
                  else
                    AwaitUpdate id
                      (fun row =>
                         {| taskId := taskId row; agentAddress := agentAddress row;
                            providerAddress := providerAddress row;
                            amountFormatted := amountFormatted row;
                            deadline := deadline row; autoRefund := autoRefund row;
                            status := REFUNDED; attestationUID := attestationUID row;
                            completedAt := completedAt row;
                            refundedAt := Some (written_at req) |})
                      (fun updatedEscrow =>
                         AwaitCreate
                           (escrow_refunded id (agentAddress updatedEscrow)
                              (amountFormatted updatedEscrow))
                           (Return (Success updatedEscrow
                                      "Escrow funds refunded to agent")))
              end));
     catch_event := escrow_refund_failed;
     catch_response := Failure 500 "Failed to refund escrow funds" |}.

(** The database calls. *)
Definition set_row (id : string) (row : EscrowTransaction) (db : Db) : Db :=
  {| escrowTransaction := <[id := row]> (escrowTransaction db);
     webhookEvent := webhookEvent db |}.

Definition log (event : WebhookEvent) (db : Db) : Db :=
  {| escrowTransaction := escrowTransaction db;
     webhookEvent := webhookEvent db ++ [event] |}.

Definition rejects (thrown : option (Await * string)) (a : Await) : option Error :=
  match thrown with
  | Some (a', text) => if decide (a = a') then Some (Rejected text) else None
  | None => None
  end.

(** One awaited call settles: the handler goes on up to its next [await], or
    the call rejects. *)
Definition resume (thrown : option (Await * string)) (h : Handler) (db : Db)
    : Db * (Handler + Error) :=
  match h with
  | Return response => (db, inl h)
  | AwaitJson next =>
      match rejects thrown req_json with
      | Some e => (db, inr e)
      | None => (db, inl next)
      end
  | AwaitFindUnique id next =>
      match rejects thrown findUnique with
      | Some e => (db, inr e)
      | None => (db, inl (next (escrowTransaction db !! id)))
      end
  | AwaitUpdate id data next =>
      match rejects thrown update with
      | Some e => (db, inr e)
      | None =>
          match escrowTransaction db !! id with
          | Some row => (set_row id (data row) db, inl (next (data row)))
          | None => (db, inr RecordNotFound)
          end
      end
  | AwaitCreate event next =>
      match rejects thrown create with
      | Some e => (db, inr e)
      | None => (log event db, inl next)
      end
  end.

(** A [try] block run to its end without another request in between. *)
Fixpoint run (thrown : option (Await * string)) (h : Handler) (db : Db)
    : Db * (Response + Error) :=
  match h with
  | Return response => (db, inl response)
  | AwaitJson next =>
      match rejects thrown req_json with
      | Some e => (db, inr e)
      | None => run thrown next db
      end
  | AwaitFindUnique id next =>
      match rejects thrown findUnique with
      | Some e => (db, inr e)
      | None => run thrown (next (escrowTransaction db !! id)) db
      end
  | AwaitUpdate id data next =>
      match rejects thrown update with
      | Some e => (db, inr e)
      | None =>
          match escrowTransaction db !! id with
          | Some row => run thrown (next (data row)) (set_row id (data row) db)
          | None => (db, inr RecordNotFound)
          end
      end
  | AwaitCreate event next =>
      match rejects thrown create with
      | Some e => (db, inr e)
      | None => run thrown next (log event db)
      end
  end.

Definition respond (thrown : option (Await * string)) (route : Route) (db : Db)
    : Db * Response :=
  match run thrown (try_body route) db with
  | (db1, inl response) => (db1, response)
  | (db1, inr error) => (log (catch_event route error) db1, catch_response route)
  end.

(** The exported handlers, each serving one request alone. *)
Definition POST (req : Request) (db : Db) : Db * Response :=
  respond (thrown req) (POST_handler req) db.

Definition PUT (req : Request) (db : Db) : Db * Response :=
  respond (thrown req) (PUT_handler req) db.

(** Requests in flight: each is suspended at an [await] of its [try] block
    or at the [create] of its [catch] block, or has responded. *)
Inductive Method : Type := post | put.

Definition handler (m : Method) : Request -> Route :=
  match m with post => POST_handler | put => PUT_handler end.

Inductive Pending : Type :=
  | InTry (route : Route) (thrown : option (Await * string)) (h : Handler)
  | InCatch (event : WebhookEvent) (response : Response)
  | Responded (response : Response).

Definition arrives (call : Method * Request) : Pending :=
  InTry (handler call.1 call.2) (thrown call.2) (try_body (handler call.1 call.2)).

Definition resume_pending (p : Pending) (db : Db) : Db * Pending :=
  match p with
  | InTry route thrown h =>
      match resume thrown h db with
      | (db1, inl (Return response)) => (db1, Responded response)
      | (db1, inl h') => (db1, InTry route thrown h')
      | (db1, inr error) => (db1, InCatch (catch_event route error) (catch_response route))
      end
  | InCatch event response => (log event db, Responded response)
  | Responded _ => (db, p)
  end.

(** A schedule names the request whose awaited call settles next. *)
Fixpoint run_schedule (steps : list nat) (pool : list Pending) (db : Db)
    : Db * list Pending :=
  match steps with
  | [] => (db, pool)
  | i :: rest =>
      match pool !! i with
      | None => run_schedule rest pool db
      | Some p =>
          let '(db1, p1) := resume_pending p db in
          run_schedule rest (<[i := p1]> pool) db1
      end
  end.

End EscrowRoute.

(** ** The session-key and paymaster routes (app/api/session-keys/route.ts)

    The handlers that revoke a stored session key and that record a request
    for gas sponsorship. Body fields are strings; [Date] values are
    milliseconds since the epoch. *)
Module SessionKeysRoute.
Import Js.

Record SessionKey : Type := {
  id : string;
  label : option string;
  privateKey : string;
  address : string;
  ownerAddress : string;
  spendLimit : string;
  remainingLimit : string;
  expiresAt : Z;
  createdAt : Z;
  isActive : bool;
  revokedAt : option Z
}.

Inductive PaymasterStatus : Type := PENDING.

Record PaymasterTransaction : Type := {
  tx_id : string;
  userOpHash : string;
  agentAddress : string;
  recipientAddress : string;
  amount : string;
  amountFormatted : string;
  gasCostInWei : string;
  gasCostInMnee : string;
  sessionKeyId : option string;
  paymasterAddress : string;
  status : PaymasterStatus
}.

Inductive WebhookEvent : Type :=
  | sponsor_requested (paymasterTxId agentAddress recipientAddress amount : string)
  | sponsor_failed.

Record Db : Type := {
  sessionKey : gmap string SessionKey;
  paymasterTransaction : list PaymasterTransaction;
  webhookEvent : list WebhookEvent
}.

Inductive Response : Type :=
  | Failure (code : nat) (error : string)
  | Revoked (sessionKey : SessionKey) (message : string)
  | Sponsored (paymasterTxId userOpHash message : string).

Definition falsy (v : option string) : bool :=
  match v with
  | None => true
  | Some s => String.eqb s ""
  end.

(** [DELETE ?id=...]: [prisma.sessionKey.update] rejects when no row has the
    id, which the handler answers with status 500. *)
Definition DELETE (query_id : option string) (now : Z) (db : Db) : Db * Response :=
  if falsy query_id then (db, Failure 400 "Session key ID required")
  else
    let sessionKeyId := default ""%string query_id in
    match sessionKey db !! sessionKeyId with
    | None => (db, Failure 500 "Failed to revoke session key")
    | Some row =>
        let updated :=
          {| id := id row; label := label row; privateKey := privateKey row;
             address := address row; ownerAddress := ownerAddress row;
             spendLimit := spendLimit row; remainingLimit := remainingLimit row;
             expiresAt := expiresAt row; createdAt := createdAt row;
             isActive := false; revokedAt := Some now |} in
        ({| sessionKey := <[sessionKeyId := updated]> (sessionKey db);
            paymasterTransaction := paymasterTransaction db;
            webhookEvent := webhookEvent db |},
         Revoked updated "Session key revoked")
    end.

(** The body of a sponsorship request, the two readings of the clock, and
    the identifier the database gives the new row. *)
Record SponsorRequest : Type := {
  body_agentAddress : option string;
  body_recipientAddress : option string;
  body_amount : option string;
  body_sessionKeyId : option string;
  body_maxGasCostInMnee : option string;
  checked_at : Z;
  created_at : Z;
  new_id : string
}.

(** What the [catch] block does: the failure is logged (with the text of
    the error, left out here) and answered with status 500. *)
Definition failed (db : Db) : Db * Response :=
  ({| sessionKey := sessionKey db; paymasterTransaction := paymasterTransaction db;
      webhookEvent := webhookEvent db ++ [sponsor_failed] |},
   Failure 500 "Failed to process paymaster request").

Definition POST (req : SponsorRequest) (db : Db) : Db * Response :=
  if falsy (body_agentAddress req) || falsy (body_recipientAddress req)
     || falsy (body_amount req) then
    (db, Failure 400 "Missing required fields")
  else
    let agent := default ""%string (body_agentAddress req) in
    let recipient := default ""%string (body_recipientAddress req) in
    let value := default ""%string (body_amount req) in
    let refused :=
      if falsy (body_sessionKeyId req) then None
      else
        match sessionKey db !! default ""%string (body_sessionKeyId req) with
        | None => Some "Invalid or inactive session key"%string
        | Some key =>
            if negb (isActive key) then Some "Invalid or inactive session key"%string
            else if (expiresAt key <? checked_at req)%Z then
              Some "Session key has expired"%string
            else None
        end in
    match refused with
    | Some error => (db, Failure 403 error)
    | None =>
        let hash :=
          string_of_list_ascii
            (list_ascii_of_string "0x" ++ BigInt_toString16 (created_at req)) in
        (* [userOpHash] and [id] are unique columns: [create] rejects a
           duplicate *)
        if existsb (fun t => String.eqb (userOpHash t) hash || String.eqb (tx_id t) (new_id req))
             (paymasterTransaction db) then
          failed db
        else
          let paymasterTx :=
            {| tx_id := new_id req; userOpHash := hash; agentAddress := agent;
               recipientAddress := recipient; amount := value; amountFormatted := value;
               gasCostInWei := "0"; gasCostInMnee := "0";
               sessionKeyId := body_sessionKeyId req;
               paymasterAddress := "0x0000000000000000000000000000000000000000";
               status := PENDING |} in
          ({| sessionKey := sessionKey db;
              paymasterTransaction := paymasterTransaction db ++ [paymasterTx];
              webhookEvent := webhookEvent db ++
                [sponsor_requested (tx_id paymasterTx) agent recipient value] |},
           Sponsored (tx_id paymasterTx) (userOpHash paymasterTx)
             "Paymaster sponsorship requested")
    end.

Inductive Call : Type :=
  | Revoke (query_id : option string) (now : Z)
  | Sponsor (req : SponsorRequest).

Definition handle (call : Call) (db : Db) : Db * Response :=
  match call with
  | Revoke query_id now => DELETE query_id now db
  | Sponsor req => POST req db
  end.

Fixpoint serve (calls : list Call) (db : Db) : Db * list Response :=
  match calls with
  | [] => (db, [])
  | call :: rest =>
      let '(db1, response) := handle call db in
      let '(db2, responses) := serve rest db1 in
      (db2, response :: responses)
  end.

End SessionKeysRoute.

(** ** The client's calls of the backend routes (MneeClient.ts)

    [fetch] is the route handler run on the database; a failing transport
    or database call is left out. *)
Module MneeClientBackend.
Import MneeClient.

(** [value || fallback] on strings. *)
Definition or_else (value fallback : string) : string :=
  if String.eqb value "" then fallback else value.



Record EscrowResult : Type := {
  escrow_success : bool;
  escrow_record : option EscrowRoute.EscrowTransaction;
  escrow_error : option string
}.

Definition escrow_result (response : EscrowRoute.Response) : EscrowResult :=
  match response with
  | EscrowRoute.Failure _ error =>
      {| escrow_success := false; escrow_record := None;
         escrow_error := Some (or_else error "Unknown error") |}
  | EscrowRoute.Success escrow _ =>
      {| escrow_success := true; escrow_record := Some escrow; escrow_error := None |}
  end.

(** [releaseEscrow({taskId, attestationUID, signature})] and
    [refundEscrow(taskId)]; [checked] and [written] are the route's two
    readings of the clock. *)
Definition releaseEscrow (taskId attestationUID : string) (signature : option string)
    (checked written : Z) (db : EscrowRoute.Db) : EscrowRoute.Db * EscrowResult :=
  let '(db', response) :=
    EscrowRoute.POST
      {| EscrowRoute.body_taskId := Some taskId;
         EscrowRoute.body_attestationUID := Some attestationUID;
         EscrowRoute.body_signature := signature;
         EscrowRoute.checked_at := checked; EscrowRoute.written_at := written;
         EscrowRoute.thrown := None |} db in
  (db', escrow_result response).

Definition refundEscrow (taskId : string) (checked written : Z) (db : EscrowRoute.Db)
    : EscrowRoute.Db * EscrowResult :=
  let '(db', response) :=
    EscrowRoute.PUT
      {| EscrowRoute.body_taskId := Some taskId; EscrowRoute.body_attestationUID := None;
         EscrowRoute.body_signature := None;
         EscrowRoute.checked_at := checked; EscrowRoute.written_at := written;
         EscrowRoute.thrown := None |} db in
  (db', escrow_result response).

End MneeClientBackend.

(** ** Facts about the text helpers *)
Section JsFacts.
Import Js.

Lemma code_chr (n : N) : (n < 256)%N -> code (chr n) = n.
Proof. apply N_ascii_embedding. Qed.

Lemma is_digit_chr (d : N) : (d < 10)%N -> is_digit (chr (48 + d)) = true.
Proof.
  intros Hd. unfold is_digit. rewrite code_chr by lia.
  apply andb_true_iff. split; apply N.leb_le; lia.
Qed.

Lemma is_digit_range (c : ascii) :
  is_digit c = true <-> (48 <= code c <= 57)%N.
Proof.
  unfold is_digit. rewrite andb_true_iff, !N.leb_le. tauto.
Qed.

Lemma digit_in_decimal (c : ascii) :
  is_digit c = true -> digit_in 10 c = Some (code c - 48)%N.
Proof.
  intros Hc. unfold digit_in, digit_value. cbv zeta.
  unfold is_digit in Hc. rewrite Hc.
  apply is_digit_range in Hc.
  destruct (N.ltb_spec (code c - 48) 10); [reflexivity | lia].
Qed.

(** The value of a run of decimal digits, read left to right. *)
Definition value10 (s : list ascii) (acc : N) : N :=
  fold_left (fun a c => (10 * a + (code c - 48))%N) s acc.

Lemma parse_radix_digits (s : list ascii) (acc : N) :
  Forall (fun c => is_digit c = true) s ->
  parse_radix 10 s acc = Some (value10 s acc).
Proof.
  intros Hs. revert acc.
  induction Hs as [| c r Hc _ IH]; intros acc; simpl; [reflexivity |].
  rewrite (digit_in_decimal c Hc). apply IH.
Qed.

Lemma value10_app (s t : list ascii) (acc : N) :
  value10 (s ++ t) acc = value10 t (value10 s acc).
Proof. unfold value10. apply fold_left_app. Qed.

Lemma value10_zeros (k : nat) : value10 (replicate k "0"%char) 0 = 0%N.
Proof. induction k as [| k IH]; simpl; [reflexivity | exact IH]. Qed.

Lemma digits_from_spec (fuel : nat) :
  forall (n : N) (acc : list ascii),
    (n < 2 ^ N.of_nat (S fuel))%N ->
    exists l,
      digits_from (S fuel) n acc = l ++ acc /\
      l <> [] /\
      Forall (fun c => is_digit c = true) l /\
      value10 l 0 = n.
Proof.
  induction fuel as [| fuel IH]; intros n acc Hn;
    assert (Hmod : (n mod 10 < 10)%N) by (apply N.mod_lt; lia);
    cbn [digits_from]; cbv zeta;
    destruct (N.ltb_spec n 10) as [Hlt | Hge].
  1, 3: exists [chr (48 + n mod 10)]; repeat split;
    [ discriminate
    | constructor; [apply is_digit_chr; exact Hmod | constructor]
    | unfold value10; cbn [fold_left]; rewrite code_chr by lia;
      rewrite N.mod_small by exact Hlt; lia ].
  - change (2 ^ N.of_nat 1)%N with 2%N in Hn. lia.
  - assert (Hdiv : (n / 10 < 2 ^ N.of_nat (S fuel))%N).
    { apply N.Div0.div_lt_upper_bound.
      rewrite (Nat2N.inj_succ (S fuel)), N.pow_succ_r' in Hn. lia. }
    destruct (IH (n / 10)%N (chr (48 + n mod 10) :: acc) Hdiv)
      as (l & Heq & Hne & Hall & Hval).
    exists (l ++ [chr (48 + n mod 10)]). repeat split.
    + cbn [digits_from] in Heq. cbv zeta in Heq. rewrite Heq, <- app_assoc. reflexivity.
    + intros Hnil. apply app_eq_nil in Hnil. destruct Hnil; discriminate.
    + apply Forall_app. split; [exact Hall |].
      constructor; [apply is_digit_chr; exact Hmod | constructor].
    + rewrite value10_app, Hval. unfold value10. cbn [fold_left].
      rewrite code_chr by lia.
      pose proof (N.div_mod n 10 ltac:(discriminate)) as Hdm.
      revert Hdm. generalize (n / 10)%N (n mod 10)%N. intros q r Hdm. lia.
Qed.

Lemma decimal_digits_spec (n : N) :
  decimal_digits n <> [] /\
  Forall (fun c => is_digit c = true) (decimal_digits n) /\
  value10 (decimal_digits n) 0 = n.
Proof.
  unfold decimal_digits.
  assert (Hn : (n < 2 ^ N.of_nat (S (N.to_nat (N.log2 n))))%N).
  { rewrite Nat2N.inj_succ, N2Nat.id.
    destruct (N.eq_dec n 0%N) as [-> | Hpos]; [reflexivity |].
    apply N.log2_spec. lia. }
  destruct (digits_from_spec _ n [] Hn) as (l & Heq & Hne & Hall & Hval).
  rewrite Heq, app_nil_r. auto.
Qed.

Lemma drop_ws_digit (c : ascii) (r : list ascii) :
  is_digit c = true -> drop_ws (c :: r) = c :: r.
Proof.
  intros Hc. apply is_digit_range in Hc. simpl.
  unfold is_ws. cbv zeta.
  destruct (N.leb_spec 9 (code c)), (N.leb_spec (code c) 13),
    (N.eqb_spec (code c) 32), (N.eqb_spec (code c) 160); simpl; try reflexivity; lia.
Qed.

Lemma trim_digits (s : list ascii) :
  Forall (fun c => is_digit c = true) s -> trim s = s.
Proof.
  intros Hs. unfold trim.
  assert (Hdrop : forall t, Forall (fun c => is_digit c = true) t -> drop_ws t = t).
  { intros t Ht. destruct Ht as [| c r Hc _]; [reflexivity |].
    apply drop_ws_digit. exact Hc. }
  rewrite (Hdrop s Hs).
  rewrite Hdrop by (apply Forall_rev; exact Hs).
  apply rev_involutive.
Qed.

Lemma radix_of_prefix_digit (c : ascii) :
  is_digit c = true -> radix_of_prefix c = None.
Proof.
  intros Hc. apply is_digit_range in Hc. unfold radix_of_prefix. cbv zeta.
  repeat match goal with
         | |- context [N.eqb ?a ?b] => destruct (N.eqb_spec a b); [lia |]
         end.
  reflexivity.
Qed.

(** [BigInt] of a non-empty run of decimal digits is its value, leading
    zeros included. *)
Lemma StringToBigInt_digits (s : list ascii) :
  s <> [] ->
  Forall (fun c => is_digit c = true) s ->
  StringToBigInt s = Some (Z.of_N (value10 s 0)).
Proof.
  intros Hne Hs. unfold StringToBigInt. rewrite (trim_digits s Hs).
  destruct s as [| c r]; [congruence |].
  pose proof (Forall_inv Hs) as Hc.
  assert (H43 : is_char 43 c = false).
  { apply is_digit_range in Hc. unfold is_char. apply N.eqb_neq. lia. }
  assert (H45 : is_char 45 c = false).
  { apply is_digit_range in Hc. unfold is_char. apply N.eqb_neq. lia. }
  rewrite H43, H45.
  assert (Hparse : Z.of_N <$> parse_digits 10 (c :: r) = Some (Z.of_N (value10 (c :: r) 0))).
  { unfold parse_digits. rewrite (parse_radix_digits _ 0%N Hs). reflexivity. }
  destruct r as [| p r']; [exact Hparse |].
  assert (Hp : is_digit p = true) by (exact (Forall_inv (Forall_inv_tail Hs))).
  rewrite (radix_of_prefix_digit p Hp).
  destruct (is_char 48 c); exact Hparse.
Qed.

Lemma strip_trailing_zeros_spec (s : list ascii) :
  exists k, s = strip_trailing_zeros s ++ replicate k "0"%char.
Proof.
  induction s as [| c r [k IH]]; [exists 0%nat; reflexivity |].
  simpl. destruct (strip_trailing_zeros r) as [| d r'] eqn:Hr.
  - destruct (is_char 48 c) eqn:Hc.
    + exists (S k). simpl. simpl in IH. rewrite <- IH. f_equal.
      unfold is_char in Hc. apply N.eqb_eq in Hc.
      rewrite <- (ascii_N_embedding c). unfold code in Hc. rewrite Hc. reflexivity.
    + exists k. simpl. simpl in IH. rewrite <- IH. reflexivity.
  - exists k. rewrite IH at 1. reflexivity.
Qed.

Lemma strip_trailing_zeros_digits (s : list ascii) :
  Forall (fun c => is_digit c = true) s ->
  Forall (fun c => is_digit c = true) (strip_trailing_zeros s).
Proof.
  intros Hs. destruct (strip_trailing_zeros_spec s) as [k Hk].
  rewrite Hk in Hs. apply Forall_app in Hs. tauto.
Qed.

Lemma split_on_digits (sep : N) (s : list ascii) :
  Forall (fun c => is_char sep c = false) s -> split_on sep s = [s].
Proof.
  induction 1 as [| c r Hc _ IH]; simpl; [reflexivity |].
  rewrite Hc, IH. reflexivity.
Qed.

Lemma split_on_once (sep : N) (s t : list ascii) (c : ascii) :
  Forall (fun c => is_char sep c = false) s ->
  is_char sep c = true ->
  split_on sep (s ++ c :: t) = s :: split_on sep t.
Proof.
  intros Hs Hc. induction Hs as [| d r Hd _ IH]; simpl.
  - rewrite Hc. reflexivity.
  - rewrite Hd, IH. reflexivity.
Qed.

Lemma digit_not_dot (c : ascii) : is_digit c = true -> is_char 46 c = false.
Proof.
  intros Hc. apply is_digit_range in Hc. unfold is_char. apply N.eqb_neq. lia.
Qed.

End JsFacts.

(** ** Round trip of the minor-unit conversion *)
Section Conversion.
Import Js Utils.

Local Abbreviation digits s := (Forall (fun c => is_digit c = true) s).

Lemma digits_zeros (k : nat) : digits (replicate k "0"%char).
Proof. apply Forall_replicate. reflexivity. Qed.

(** What [fromWei] prints for a non-negative amount: the digits before the
    last six, and the last six without their trailing zeros. *)
Lemma fromWei_shape (w : Z) :
  (0 <= w)%Z ->
  exists (whole trimmed : list ascii) (k : nat),
    list_ascii_of_string (fromWei w) =
      match trimmed with
      | [] => whole
      | _ => whole ++ "."%char :: trimmed
      end /\
    whole <> [] /\ digits whole /\ digits trimmed /\
    (length trimmed + k = decimals)%nat /\
    value10 (whole ++ trimmed ++ replicate k "0"%char) 0 = Z.to_N w.
Proof.
  intros Hw. unfold fromWei. rewrite list_ascii_of_string_of_list_ascii.
  unfold BigInt_toString. destruct (Z.ltb_spec w 0) as [Hneg | _]; [lia |].
  destruct (decimal_digits_spec (Z.to_N w)) as (Hne & Hds & Hval).
  set (ds := decimal_digits (Z.to_N w)) in *.
  set (weiStr := padStart (decimals + 1) "0" ds).
  assert (Hall : digits weiStr).
  { apply Forall_app. split; [apply digits_zeros | exact Hds]. }
  assert (Hlen : (decimals + 1 <= length weiStr)%nat).
  { unfold weiStr, padStart. rewrite length_app, length_replicate. lia. }
  assert (Hvalue : value10 weiStr 0 = Z.to_N w).
  { unfold weiStr, padStart. rewrite value10_app, value10_zeros. exact Hval. }
  set (pos := (length weiStr - decimals)%nat).
  assert (Hsplit : weiStr = take pos weiStr ++ drop pos weiStr)
    by (symmetry; apply take_drop).
  assert (Hwhole : slice 0 pos weiStr = take pos weiStr).
  { unfold slice. rewrite Nat.sub_0_r. reflexivity. }
  rewrite Hwhole.
  assert (Hwlen : length (take pos weiStr) = pos).
  { rewrite length_take. unfold pos. lia. }
  assert (Hdlen : length (drop pos weiStr) = decimals).
  { rewrite length_drop. unfold pos. lia. }
  assert (Hwne : take pos weiStr <> []).
  { intros Hnil. rewrite Hnil in Hwlen. simpl in Hwlen. unfold pos in Hwlen. lia. }
  destruct (strip_trailing_zeros_spec (drop pos weiStr)) as [k Hk].
  exists (take pos weiStr), (strip_trailing_zeros (drop pos weiStr)), k.
  rewrite Hsplit in Hall. apply Forall_app in Hall. destruct Hall as [Hw1 Hd1].
  repeat split.
  - destruct (take pos weiStr) as [| c r] eqn:Ht; [congruence | reflexivity].
  - exact Hwne.
  - exact Hw1.
  - apply strip_trailing_zeros_digits. exact Hd1.
  - rewrite Hk in Hdlen at 1. rewrite length_app, length_replicate in Hdlen.
    exact Hdlen.
  - rewrite <- Hk, <- Hsplit. exact Hvalue.
Qed.

(** C10. The conversion helpers form a right-inverse pair on the non-negative
    amounts: printing a non-negative number of minor units with [fromWei]
    (six decimals, trailing zeros removed) and parsing the text back with
    [toWei] (fraction padded or cut to six digits) returns the number. *)
Theorem toWei_fromWei (w : Z) :
  (0 <= w)%Z -> toWei (fromWei w) = Some w.
Proof.
  intros Hw.
  destruct (fromWei_shape w Hw)
    as (whole & trimmed & k & Hout & Hne & Hwd & Htd & Hlen & Hval).
  unfold toWei, toWei_text. rewrite Hout.
  assert (Hnodot : forall s, digits s -> Forall (fun c => is_char 46 c = false) s).
  { intros s Hs. eapply Forall_impl; [exact Hs |]. intros c. apply digit_not_dot. }
  assert (Hparts :
    split_on 46 match trimmed with [] => whole | _ => whole ++ "."%char :: trimmed end
    = match trimmed with [] => [whole] | _ => [whole; trimmed] end).
  { destruct trimmed as [| c r].
    - apply split_on_digits, Hnodot, Hwd.
    - rewrite split_on_once by (auto using Hnodot).
      rewrite split_on_digits by (apply Hnodot, Htd). reflexivity. }
  rewrite Hparts.
  assert (Hfrac :
    slice 0 decimals
      (padEnd decimals "0" (nth 1 match trimmed with [] => [whole] | _ => [whole; trimmed] end []))
    = trimmed ++ replicate k "0"%char).
  { assert (Hnth : nth 1 match trimmed with [] => [whole] | _ => [whole; trimmed] end []
                   = trimmed) by (destruct trimmed; reflexivity).
    rewrite Hnth. unfold slice, padEnd. rewrite Nat.sub_0_r.
    replace (decimals - length trimmed)%nat with k by lia.
    cbn [drop]. apply take_ge. rewrite length_app, length_replicate. lia. }
  rewrite Hfrac.
  assert (Hfirst : nth 0 match trimmed with [] => [whole] | _ => [whole; trimmed] end []
                   = whole) by (destruct trimmed; reflexivity).
  rewrite Hfirst.
  rewrite StringToBigInt_digits.
  - rewrite Hval. f_equal. lia.
  - intros Hnil. apply app_eq_nil in Hnil. tauto.
  - apply Forall_app. split; [exact Hwd |].
    apply Forall_app. split; [exact Htd | apply digits_zeros].
Qed.

Lemma toWei_fromWei_witness :
  (0 <= 100500000)%Z /\ toWei (fromWei 100500000) = Some 100500000%Z.
Proof. split; [lia | apply (toWei_fromWei 100500000); lia]. Defined.

(** The restriction to non-negative amounts is needed: the text of a
    negative amount is padded in front of its sign and no longer parses. *)
Example fromWei_negative :
  fromWei (-5) = "0.0000-5"%string /\ toWei (fromWei (-5)) = None.
Proof. split; reflexivity. Qed.

End Conversion.

(** ** Spend limit of a session key *)
Section SpendLimit.
Import Utils MneeClient.

Lemma debited_app (key : string) (l1 l2 : list Submission) :
  debited key (l1 ++ l2) = (debited key l1 + debited key l2)%Z.
Proof.
  unfold debited. induction l1 as [| s l1 IH]; simpl; [reflexivity |].
  rewrite IH. lia.
Qed.

Lemma debited_snoc (key : string) (l : list Submission) (s : Submission) :
  debited key (l ++ [s]) = (debited key l + debit_of key s)%Z.
Proof. rewrite debited_app. unfold debited. simpl. lia. Qed.

Lemma debit_of_own (key : string) (main recipient : Address) (v : Z) (h : Hash) :
  debit_of key {| signer := SessionAccount key;
                  call := TransferFrom main recipient v;
                  answer := Returned h |} = v.
Proof. unfold debit_of. simpl. rewrite String.eqb_refl. reflexivity. Qed.

Lemma debit_of_rejected (key : string) (who : Signer) (c : ContractCall) (m : string) :
  debit_of key {| signer := who; call := c; answer := Threw m |} = 0%Z.
Proof. unfold debit_of. simpl. destruct who, c; reflexivity. Qed.

(** The books of a session key agree with what it has submitted. *)
Definition in_budget (key : ref) (w : World) : Prop :=
  exists k,
    heap w !! key = Some k /\
    remainingLimit k = (spendLimit k - debited (privateKey k) (submitted w))%Z /\
    (0 <= remainingLimit k <= spendLimit k)%Z.

(** One payment: the log grows by at most one submission, the key is debited
    by [d], which is the amount when the call got a hash and zero otherwise. *)
Lemma payment_step (env : PayEnv) (recipient : Address) (v : Z) (key : ref)
    (w w' : World) (res : outcome TransactionReceipt) (k : SessionKey) :
  heap w !! key = Some k ->
  _sendPaymentWithSessionKey env recipient v key w = (w', res) ->
  exists (k' : SessionKey) (d : Z) (news : list Submission),
    heap w' !! key = Some k' /\
    privateKey k' = privateKey k /\
    spendLimit k' = spendLimit k /\
    remainingLimit k' = (remainingLimit k - d)%Z /\
    submitted w' = submitted w ++ news /\
    debited (privateKey k) news = d /\
    (d <= remainingLimit k \/ d = 0)%Z /\
    (Forall uint256_accepted news -> 0 <= d)%Z /\
    (confirmed_amount res = d \/ confirmed_amount res = 0%Z).
Proof.
  intros Hk Hrun. unfold _sendPaymentWithSessionKey in Hrun. rewrite Hk in Hrun.
  assert (Hsame : exists (k' : SessionKey) (d : Z) (news : list Submission),
    heap w !! key = Some k' /\ privateKey k' = privateKey k /\
    spendLimit k' = spendLimit k /\ remainingLimit k' = (remainingLimit k - d)%Z /\
    submitted w = submitted w ++ news /\ debited (privateKey k) news = d /\
    (d <= remainingLimit k \/ d = 0)%Z /\
    (Forall uint256_accepted news -> 0 <= d)%Z /\
    (0 = d \/ 0 = 0)%Z).
  { exists k, 0%Z, []. rewrite app_nil_r, Z.sub_0_r.
    repeat split; auto. intros _. lia. }
  destruct (isExpired (pay_now env) (expiresAt k)).
  { inversion Hrun; subst. exact Hsame. }
  destruct (Z.ltb_spec (remainingLimit k) v) as [Hlt | Hle].
  { inversion Hrun; subst. exact Hsame. }
  destruct (account w) as [main |] eqn:Hacc.
  2: { inversion Hrun; subst. exact Hsame. }
  clear Hsame.
  destruct (pay_submit env) as [h | m] eqn:Hsub.
  - set (sub := {| signer := SessionAccount (privateKey k);
                   call := TransferFrom main recipient v;
                   answer := Returned h |}) in *.
    assert (Hheap : heap (debit key v (writeContract (SessionAccount (privateKey k))
              (TransferFrom main recipient v) (Returned h) w)) !! key
            = Some {| privateKey := privateKey k; address := address k;
                      spendLimit := spendLimit k;
                      remainingLimit := (remainingLimit k - v)%Z;
                      expiresAt := expiresAt k; createdAt := createdAt k |}).
    { unfold debit, set_heap, writeContract. cbn [heap].
      rewrite list_lookup_alter, Hk. case_decide; [reflexivity | congruence]. }
    assert (Hres : confirmed_amount res = v \/ confirmed_amount res = 0%Z).
    { destruct (pay_receipt env) as [rc | m]; inversion Hrun; subst; simpl; auto.
      destruct (receipt_success rc); auto. }
    assert (Hw' : w' = debit key v (writeContract (SessionAccount (privateKey k))
              (TransferFrom main recipient v) (Returned h) w)).
    { destruct (pay_receipt env); inversion Hrun; reflexivity. }
    subst w'. eexists _, v, [sub]. split; [exact Hheap |].
    simpl. repeat split; auto.
    + unfold debited. simpl. unfold sub. rewrite debit_of_own. lia.
    + intros Hall. apply Forall_inv in Hall. unfold uint256_accepted in Hall.
      simpl in Hall. lia.
  - inversion Hrun; subst.
    exists k, 0%Z, [{| signer := SessionAccount (privateKey k);
                       call := TransferFrom main recipient v;
                       answer := Threw m |}]. simpl.
    rewrite Z.sub_0_r. repeat split; auto.
    + intros _. lia.
Qed.

Lemma payment_log_grows (env : PayEnv) (recipient : Address) (v : Z) (key : ref)
    (w : World) :
  exists news, submitted (_sendPaymentWithSessionKey env recipient v key w).1
               = submitted w ++ news.
Proof.
  destruct (heap w !! key) as [k |] eqn:Hk.
  - destruct (_sendPaymentWithSessionKey env recipient v key w) as [w' res] eqn:Hrun.
    destruct (payment_step _ _ _ _ _ _ _ _ Hk Hrun) as (? & ? & news & H).
    exists news. simpl. tauto.
  - unfold _sendPaymentWithSessionKey. rewrite Hk. exists []. simpl.
    symmetry. apply app_nil_r.
Qed.

Lemma run_payments_log_grows (calls : list PayCall) :
  forall (key : ref) (w w' : World) (results : list (outcome TransactionReceipt)),
    run_payments calls key w = (w', results) ->
    exists more, submitted w' = submitted w ++ more.
Proof.
  induction calls as [| c rest IH]; intros key w w' results Hrun.
  - simpl in Hrun. inversion Hrun; subst. exists []. symmetry. apply app_nil_r.
  - simpl in Hrun.
    destruct (payment_log_grows (call_env c) (call_to c) (call_amount c) key w)
      as [n1 Hn1].
    destruct (_sendPaymentWithSessionKey (call_env c) (call_to c) (call_amount c) key w)
      as [wa ra].
    destruct (run_payments rest key wa) as [wb rb] eqn:Hb.
    inversion Hrun; subst. destruct (IH _ _ _ _ Hb) as [n2 Hn2].
    exists (n1 ++ n2). rewrite Hn2. simpl in Hn1. rewrite Hn1.
    symmetry. apply app_assoc.
Qed.

Lemma payments_keep_budget (calls : list PayCall) :
  forall (key : ref) (w w' : World) (results : list (outcome TransactionReceipt)),
    in_budget key w ->
    run_payments calls key w = (w', results) ->
    Forall uint256_accepted (submitted w') ->
    in_budget key w' /\
    (forall k k', heap w !! key = Some k -> heap w' !! key = Some k' ->
       privateKey k' = privateKey k /\ spendLimit k' = spendLimit k /\
       (debited (privateKey k) (submitted w) + confirmed_total results
          <= debited (privateKey k) (submitted w'))%Z).
Proof.
  induction calls as [| c rest IH]; intros key w w' results Hin Hrun Habi.
  - simpl in Hrun. inversion Hrun; subst. split; [exact Hin |].
    intros k k' Hk Hk'. rewrite Hk in Hk'. inversion Hk'; subst.
    unfold confirmed_total. simpl. repeat split; lia.
  - simpl in Hrun.
    destruct (_sendPaymentWithSessionKey (call_env c) (call_to c) (call_amount c) key w)
      as [w1 res] eqn:Hstep.
    destruct (run_payments rest key w1) as [w2 ress] eqn:Hrest.
    inversion Hrun; subst w' results. clear Hrun.
    destruct Hin as (k & Hk & Hrem & Hrange).
    destruct (payment_step _ _ _ _ _ _ _ _ Hk Hstep)
      as (k1 & d & news & Hk1 & Hpk & Hsl & Hrem1 & Hlog & Hd & Hdle & Hdpos & Hconf).
    destruct (run_payments_log_grows _ _ _ _ _ Hrest) as [more Hmore].
    assert (Hnews : Forall uint256_accepted news).
    { rewrite Hmore, Hlog in Habi. apply Forall_app in Habi. destruct Habi as [Habi _].
      apply Forall_app in Habi. tauto. }
    specialize (Hdpos Hnews).
    assert (Hin1 : in_budget key w1).
    { exists k1. split; [exact Hk1 |]. rewrite Hpk, Hsl, Hrem1, Hlog, debited_app, Hd.
      split; lia. }
    destruct (IH key w1 w2 ress Hin1 Hrest Habi) as [Hin2 Hmono].
    split; [exact Hin2 |].
    intros k0 k' Hk0 Hk'. rewrite Hk in Hk0. inversion Hk0; subst k0.
    destruct (Hmono k1 k' Hk1 Hk') as (Hpk' & Hsl' & Hle).
    rewrite Hpk in Hpk', Hle. rewrite Hsl in Hsl'.
    repeat split; [exact Hpk' | exact Hsl' |].
    rewrite Hlog, debited_app, Hd in Hle.
    unfold confirmed_total in *. simpl. lia.
Qed.

(** Authorization creates the key with its full limit and records it. *)
Lemma authorizeAgent_returned (env : AuthorizeEnv) (options : AuthorizeAgentOptions)
    (w w' : World) (key : ref) :
  authorizeAgent env options w = (w', Returned key) ->
  exists (limit : Z) (main : Address) (h : Hash),
    toWei (opt_spendLimit options) = Some limit /\
    account w = Some main /\
    auth_approve env = Returned h /\
    key = length (heap w) /\
    heap w' = heap w ++
      [{| privateKey := auth_privateKey env; address := auth_address env;
          spendLimit := limit; remainingLimit := limit;
          expiresAt := getExpirationTimestamp (auth_now env) (opt_duration options);
          createdAt := (auth_created env / 1000)%Z |}] /\
    sessionKeys w' =
      <[keyId_of (opt_label options) (auth_address env) := key]> (sessionKeys w) /\
    submitted w' = submitted w ++
      [{| signer := MainAccount main; call := Approve (auth_address env) limit;
          answer := Returned h |}].
Proof.
  unfold authorizeAgent, approve. intros H.
  destruct (account w) as [main |] eqn:Hacc; [| discriminate].
  destruct (toWei (opt_spendLimit options)) as [limit |] eqn:Hlim; [| discriminate].
  cbn [account set_sessionKeys set_heap] in H. rewrite Hacc in H.
  destruct (auth_approve env) as [h | m] eqn:Hans; inversion H; subst.
  exists limit, main, h. cbn. repeat split; reflexivity.
Qed.

(** Payments in turn keep the key within its limit. For every sequence of
    session-key payments against one session key, each run to its end before
    the next one starts: the amounts of its successful debits (the transfers
    the key got submitted) never add up to more than [spendLimit];
    [remainingLimit] is [spendLimit] minus that sum; and [0 <= remainingLimit
    <= spendLimit] after every such sequence, starting from [remainingLimit =
    spendLimit] at authorization. The confirmed payments are among those
    debits. The wallet client is taken to return a hash only for [uint256]
    amounts, and the new key to have signed nothing before. Payments that
    overlap break the bound: [spend_limit_overdrawn] below. *)
Theorem spend_limit_bound (aenv : AuthorizeEnv) (options : AuthorizeAgentOptions)
    (w0 w1 w2 : World) (key : ref) (calls : list PayCall)
    (results : list (outcome TransactionReceipt)) :
  authorizeAgent aenv options w0 = (w1, Returned key) ->
  debited (auth_privateKey aenv) (submitted w0) = 0%Z ->
  run_payments calls key w1 = (w2, results) ->
  Forall uint256_accepted (submitted w2) ->
  exists k1 k2,
    heap w1 !! key = Some k1 /\
    toWei (opt_spendLimit options) = Some (spendLimit k1) /\
    remainingLimit k1 = spendLimit k1 /\
    heap w2 !! key = Some k2 /\
    spendLimit k2 = spendLimit k1 /\
    (debited (privateKey k2) (submitted w2) <= spendLimit k2)%Z /\
    remainingLimit k2 = (spendLimit k2 - debited (privateKey k2) (submitted w2))%Z /\
    (0 <= remainingLimit k2 <= spendLimit k2)%Z /\
    (confirmed_total results <= debited (privateKey k2) (submitted w2))%Z.
Proof.
  intros Hauth Hfresh Hrun Habi.
  destruct (authorizeAgent_returned _ _ _ _ _ Hauth)
    as (limit & main & h & Hlim & Hacc & Hans & Hkey & Hheap & Hmap & Hlog).
  set (k1 := {| privateKey := auth_privateKey aenv; address := auth_address aenv;
                spendLimit := limit; remainingLimit := limit;
                expiresAt := getExpirationTimestamp (auth_now aenv) (opt_duration options);
                createdAt := (auth_created aenv / 1000)%Z |}) in *.
  assert (Hk1 : heap w1 !! key = Some k1).
  { rewrite Hheap, Hkey. apply list_lookup_middle. reflexivity. }
  destruct (run_payments_log_grows _ _ _ _ _ Hrun) as [more Hmore].
  assert (Hlimit : (0 <= limit)%Z).
  { rewrite Hmore, Hlog in Habi. apply Forall_app in Habi. destruct Habi as [Habi _].
    apply Forall_app in Habi. destruct Habi as [_ Habi]. apply Forall_inv in Habi.
    unfold uint256_accepted in Habi. simpl in Habi. lia. }
  assert (Hspent1 : debited (privateKey k1) (submitted w1) = 0%Z).
  { rewrite Hlog, debited_snoc. simpl. rewrite Hfresh. reflexivity. }
  assert (Hin1 : in_budget key w1).
  { exists k1. split; [exact Hk1 |]. rewrite Hspent1. simpl. lia. }
  destruct (payments_keep_budget calls key w1 w2 results Hin1 Hrun Habi)
    as [(k2 & Hk2 & Hrem2 & Hrange2) Hmono].
  destruct (Hmono k1 k2 Hk1 Hk2) as (Hpk & Hsl & Hconf).
  exists k1, k2. rewrite Hpk. rewrite Hpk in Hrem2.
  rewrite Hspent1 in Hconf.
  repeat split; try assumption; try reflexivity; lia.
Qed.

(** A client that authorizes one agent key with a limit of 1000 MNEE for one
    hour, and three payments against that key: 400 MNEE, confirmed; 700 MNEE,
    over the limit; 600 MNEE, submitted and reverted on chain. *)
Definition ex_client : World :=
  {| account := Some "0xOwner"%string; sessionKeys := ∅; heap := []; submitted := [] |}.

Definition ex_authorize : AuthorizeEnv :=
  {| auth_privateKey := "0xSessionSecret"; auth_address := "0xSession";
     auth_now := 5000; auth_created := 5001; auth_approve := Returned "0xa1"%string |}.

Definition ex_options : AuthorizeAgentOptions :=
  {| opt_spendLimit := "1000"; opt_duration := 3600; opt_label := Some "agent"%string |}.

Definition ex_pay (mined : bool) : PayEnv :=
  {| pay_now := 60000; pay_submit := Returned "0xb2"%string;
     pay_receipt := Returned {| receipt_success := mined; receipt_blockNumber := 7 |};
     pay_done := 90000 |}.

Definition ex_calls : list PayCall :=
  [ {| call_env := ex_pay true; call_to := "0xShop"; call_amount := 400000000 |};
    {| call_env := ex_pay true; call_to := "0xShop"; call_amount := 700000000 |};
    {| call_env := ex_pay false; call_to := "0xShop"; call_amount := 600000000 |} ].

Definition ex_authorized : World := (authorizeAgent ex_authorize ex_options ex_client).1.

Example scenario_A :
  let '(w1, r1) := _sendPaymentWithSessionKey (ex_pay true) "0xShop" 400000000 0%nat ex_authorized in
  let '(w2, r2) := _sendPaymentWithSessionKey (ex_pay true) "0xShop" 700000000 0%nat w1 in
  remainingLimit <$> heap w1 !! 0%nat = Some 600000000%Z /\
  r2 = Threw "Amount exceeds session key limit. Remaining: 600 MNEE" /\
  w2 = w1.
Proof. vm_compute. repeat split; reflexivity. Qed.

Lemma spend_limit_bound_witness :
  authorizeAgent ex_authorize ex_options ex_client = (ex_authorized, Returned 0%nat) /\
  debited (auth_privateKey ex_authorize) (submitted ex_client) = 0%Z /\
  run_payments ex_calls 0%nat ex_authorized
    = ((run_payments ex_calls 0%nat ex_authorized).1,
       (run_payments ex_calls 0%nat ex_authorized).2) /\
  Forall uint256_accepted (submitted (run_payments ex_calls 0%nat ex_authorized).1) /\
  exists k1 k2,
    heap ex_authorized !! 0%nat = Some k1 /\
    toWei (opt_spendLimit ex_options) = Some (spendLimit k1) /\
    remainingLimit k1 = spendLimit k1 /\
    heap (run_payments ex_calls 0%nat ex_authorized).1 !! 0%nat = Some k2 /\
    spendLimit k2 = spendLimit k1 /\
    (debited (privateKey k2) (submitted (run_payments ex_calls 0%nat ex_authorized).1)
       <= spendLimit k2)%Z /\
    remainingLimit k2 =
      (spendLimit k2
       - debited (privateKey k2) (submitted (run_payments ex_calls 0%nat ex_authorized).1))%Z /\
    (0 <= remainingLimit k2 <= spendLimit k2)%Z /\
    (confirmed_total (run_payments ex_calls 0%nat ex_authorized).2
       <= debited (privateKey k2) (submitted (run_payments ex_calls 0%nat ex_authorized).1))%Z.
Proof.
  assert (Hauth : authorizeAgent ex_authorize ex_options ex_client
                  = (ex_authorized, Returned 0%nat)) by reflexivity.
  assert (Hfresh : debited (auth_privateKey ex_authorize) (submitted ex_client) = 0%Z)
    by reflexivity.
  assert (Hrun : run_payments ex_calls 0%nat ex_authorized
                 = ((run_payments ex_calls 0%nat ex_authorized).1,
                    (run_payments ex_calls 0%nat ex_authorized).2))
    by (destruct (run_payments ex_calls 0%nat ex_authorized); reflexivity).
  assert (Habi : Forall uint256_accepted
                   (submitted (run_payments ex_calls 0%nat ex_authorized).1)).
  { set (log := submitted _). vm_compute in log. subst log.
    repeat constructor; cbn; lia. }
  repeat (split; [assumption |]).
  exact (spend_limit_bound _ _ _ _ _ _ _ _ Hauth Hfresh Hrun Habi).
Defined.

End SpendLimit.

(** ** Validation, debit and revocation of a session key *)
Section SessionKeys.
Import Utils MneeClient.

Definition debited_key (v : Z) (k : SessionKey) : SessionKey :=
  {| privateKey := privateKey k; address := address k; spendLimit := spendLimit k;
     remainingLimit := (remainingLimit k - v)%Z;
     expiresAt := expiresAt k; createdAt := createdAt k |}.

(** The payment reaches the chain: the key has not expired, the amount is
    within the remaining limit, the client has an account, and the wallet
    client returned a hash. *)
Definition submits (env : PayEnv) (v : Z) (w : World) (k : SessionKey) : bool :=
  negb (isExpired (pay_now env) (expiresAt k))
  && (v <=? remainingLimit k)%Z
  && match account w with Some _ => true | None => false end
  && match pay_submit env with Returned _ => true | Threw _ => false end.

Lemma isExpired_spec (nowMs e : Z) :
  isExpired nowMs e = true <-> (e <= nowMs / 1000)%Z.
Proof. unfold isExpired. apply Z.leb_le. Qed.

Lemma payment_heap (env : PayEnv) (recipient : Address) (v : Z) (key : ref)
    (w : World) (k : SessionKey) :
  heap w !! key = Some k ->
  heap (_sendPaymentWithSessionKey env recipient v key w).1 !! key
  = Some (if submits env v w k then debited_key v k else k).
Proof.
  intros Hk. unfold _sendPaymentWithSessionKey, submits. rewrite Hk.
  destruct (isExpired (pay_now env) (expiresAt k)); [exact Hk |].
  rewrite Z.leb_antisym.
  destruct (remainingLimit k <? v)%Z; [exact Hk |].
  destruct (account w) as [main |]; [| exact Hk].
  destruct (pay_submit env) as [h | m]; [| exact Hk].
  assert (Hd : heap (debit key v (writeContract (SessionAccount (privateKey k))
      (TransferFrom main recipient v) (Returned h) w)) !! key = Some (debited_key v k)).
  { unfold debit, set_heap, writeContract. cbn [heap].
    rewrite list_lookup_alter, Hk. case_decide; [reflexivity | congruence]. }
  destruct (pay_receipt env); exact Hd.
Qed.

Lemma payment_returned (env : PayEnv) (recipient : Address) (v : Z) (key : ref)
    (w : World) (k : SessionKey) (rc : TransactionReceipt) :
  heap w !! key = Some k ->
  (_sendPaymentWithSessionKey env recipient v key w).2 = Returned rc ->
  submits env v w k = true /\
  exists main h cr,
    account w = Some main /\ pay_submit env = Returned h /\
    pay_receipt env = Returned cr /\
    rc = receipt_of h main recipient v cr (pay_done env).
Proof.
  intros Hk. unfold _sendPaymentWithSessionKey, submits. rewrite Hk.
  destruct (isExpired (pay_now env) (expiresAt k)); [discriminate |].
  rewrite Z.leb_antisym.
  destruct (remainingLimit k <? v)%Z; [discriminate |].
  destruct (account w) as [main |]; [| discriminate].
  destruct (pay_submit env) as [h | m]; [| discriminate].
  destruct (pay_receipt env) as [cr | m]; [| discriminate].
  simpl. intros H. inversion H; subst. split; [reflexivity |].
  exists main, h, cr. auto.
Qed.

(** The client does not look at its key map when it pays. *)
Lemma payment_ignores_key_map (env : PayEnv) (recipient : Address) (v : Z) (key : ref)
    (w : World) (m : gmap string ref) :
  _sendPaymentWithSessionKey env recipient v key (set_sessionKeys m w)
  = (set_sessionKeys m (_sendPaymentWithSessionKey env recipient v key w).1,
     (_sendPaymentWithSessionKey env recipient v key w).2).
Proof.
  unfold _sendPaymentWithSessionKey. cbn [heap account set_sessionKeys].
  destruct (heap w !! key) as [k |]; [| reflexivity].
  destruct (isExpired (pay_now env) (expiresAt k)); [reflexivity |].
  destruct (remainingLimit k <? v)%Z; [reflexivity |].
  destruct (account w) as [main |]; [| reflexivity].
  destruct (pay_submit env) as [h | msg]; [| reflexivity].
  destruct (pay_receipt env); reflexivity.
Qed.

(** The three segments of the asynchronous method, resumed one after the
    other with nothing in between, are the method. *)
Lemma resume_in_sequence (env : PayEnv) (recipient : Address) (v : Z) (key : ref)
    (w : World) :
  let '(w1, p1) := resume (Enter (pay_now env)) (Called recipient v key) w in
  let '(w2, p2) := resume (Submitted (pay_submit env)) p1 w1 in
  let '(w3, p3) := resume (Mined (pay_receipt env) (pay_done env)) p2 w2 in
  (w3, p3) = ((_sendPaymentWithSessionKey env recipient v key w).1,
              Settled (_sendPaymentWithSessionKey env recipient v key w).2).
Proof.
  unfold _sendPaymentWithSessionKey. cbn [resume].
  destruct (heap w !! key) as [k |]; [| reflexivity].
  destruct (isExpired (pay_now env) (expiresAt k)); [reflexivity |].
  destruct (remainingLimit k <? v)%Z; [reflexivity |].
  destruct (account w) as [main |]; [| reflexivity].
  cbn [resume].
  destruct (pay_submit env) as [h | msg]; [| reflexivity].
  cbn [resume].
  destruct (pay_receipt env); reflexivity.
Qed.

Lemma toWei_zero : toWei "0" = Some 0%Z.
Proof. reflexivity. Qed.

(** *** The debit guard *)

(** A key is active while the client's map still refers to it:
    [revokeSessionKey] removes the entry. *)
Definition active (w : World) (key : ref) : Prop :=
  exists keyId, sessionKeys w !! keyId = Some key.

(** The rule in the specification's words: a payment goes through exactly
    when the key is active, has not expired and covers the amount. *)
Definition debit_rule_as_specified (env : PayEnv) (recipient : Address) (v : Z)
    (key : ref) (w : World) : Prop :=
  (exists rc, (_sendPaymentWithSessionKey env recipient v key w).2 = Returned rc) <->
  (active w key /\
   exists k, heap w !! key = Some k /\
     (pay_now env / 1000 < expiresAt k)%Z /\ (v <= remainingLimit k)%Z).

Definition ex_revoked : World :=
  (revokeSessionKey (Returned "0xc3"%string) "agent" ex_authorized).1.

(** C3, as stated, fails: the key of [ex_authorized] is revoked, and a payment
    of 400 MNEE with it is still validated, submitted and returned. *)
Lemma revoked_key_still_pays :
  ~ debit_rule_as_specified (ex_pay true) "0xShop" 400000000 0%nat ex_revoked.
Proof.
  intros [Hpaid _].
  destruct Hpaid as [[keyId Hid] _].
  - eexists. vm_compute. reflexivity.
  - assert (Hmap : sessionKeys ex_revoked = ∅) by reflexivity.
    rewrite Hmap, lookup_empty in Hid. discriminate.
Qed.

(** C3, amended. The client validates a session-key payment by expiry and
    remaining limit only, in this order: at or after [expiresAt] it throws
    "Session key has expired"; otherwise, for an amount above
    [remainingLimit], it throws the limit message, which carries
    [fromWei remainingLimit]; nothing is changed in either case. The payment
    returns exactly when it passes both checks, the client has an account,
    and the transfer is accepted and mined; the key is debited when it is
    accepted. The client's key map is not consulted, so revocation is
    enforced by the zeroed allowance alone. An amount of exactly
    [remainingLimit] passes and leaves zero; one minor unit more fails with
    the limit message. *)
Theorem session_payment_guard (env : PayEnv) (recipient : Address) (v : Z)
    (key : ref) (w : World) (k : SessionKey) :
  heap w !! key = Some k ->
  let now := (pay_now env / 1000)%Z in
  let pay := fun x => _sendPaymentWithSessionKey env recipient x key w in
  ((expiresAt k <= now)%Z -> pay v = (w, Threw "Session key has expired")) /\
  ((now < expiresAt k)%Z -> (remainingLimit k < v)%Z ->
     pay v = (w, Threw (limit_message k))) /\
  ((exists rc, (pay v).2 = Returned rc) <->
     (now < expiresAt k)%Z /\ (v <= remainingLimit k)%Z /\ is_Some (account w) /\
     (exists h, pay_submit env = Returned h) /\
     (exists cr, pay_receipt env = Returned cr)) /\
  heap (pay v).1 !! key = Some (if submits env v w k then debited_key v k else k) /\
  (forall m, _sendPaymentWithSessionKey env recipient v key (set_sessionKeys m w)
             = (set_sessionKeys m (pay v).1, (pay v).2)) /\
  ((now < expiresAt k)%Z ->
     pay (remainingLimit k + 1)%Z = (w, Threw (limit_message k))) /\
  ((now < expiresAt k)%Z ->
     forall main h cr,
       account w = Some main -> pay_submit env = Returned h ->
       pay_receipt env = Returned cr ->
       (pay (remainingLimit k)).2
         = Returned (receipt_of h main recipient (remainingLimit k) cr (pay_done env)) /\
       remainingLimit <$> heap (pay (remainingLimit k)).1 !! key = Some 0%Z).
Proof.
  intros Hk now pay.
  assert (Hexp : (expiresAt k <= now)%Z ->
                 forall x, pay x = (w, Threw "Session key has expired")).
  { intros He x. unfold pay, _sendPaymentWithSessionKey. rewrite Hk.
    apply isExpired_spec in He. rewrite He. reflexivity. }
  assert (Hlive : (now < expiresAt k)%Z -> isExpired (pay_now env) (expiresAt k) = false).
  { intros Hn. destruct (isExpired (pay_now env) (expiresAt k)) eqn:He; [| reflexivity].
    apply isExpired_spec in He. unfold now in Hn. lia. }
  assert (Hlim : (now < expiresAt k)%Z -> forall x, (remainingLimit k < x)%Z ->
                 pay x = (w, Threw (limit_message k))).
  { intros Hn x Hx. unfold pay, _sendPaymentWithSessionKey. rewrite Hk, (Hlive Hn).
    apply Z.ltb_lt in Hx. rewrite Hx. reflexivity. }
  split; [intros He; apply Hexp; exact He |].
  split; [intros Hn Hx; apply Hlim; assumption |].
  split.
  { split.
    - intros [rc Hrc].
      destruct (payment_returned _ _ _ _ _ _ _ Hk Hrc)
        as (Hs & main & h & cr & Hacc & Hsub & Hrec & _).
      unfold submits in Hs. rewrite !andb_true_iff in Hs.
      destruct Hs as [[[He Hv] _] _].
      apply negb_true_iff in He. apply Z.leb_le in Hv.
      repeat split; eauto.
      destruct (Z.lt_ge_cases now (expiresAt k)) as [Hn | Hn]; [exact Hn |].
      apply isExpired_spec in Hn. congruence.
    - intros (Hn & Hv & [main Hacc] & [h Hsub] & [cr Hrec]).
      unfold pay, _sendPaymentWithSessionKey. rewrite Hk, (Hlive Hn).
      destruct (Z.ltb_spec (remainingLimit k) v); [lia |].
      rewrite Hacc, Hsub, Hrec. eexists. reflexivity. }
  split; [apply payment_heap; exact Hk |].
  split; [intros m; apply payment_ignores_key_map |].
  split; [intros Hn; apply Hlim; [exact Hn | lia] |].
  intros Hn main h cr Hacc Hsub Hrec.
  assert (Hs : submits env (remainingLimit k) w k = true).
  { unfold submits. rewrite (Hlive Hn), Hacc, Hsub, Z.leb_refl. reflexivity. }
  split.
  - unfold pay, _sendPaymentWithSessionKey. rewrite Hk, (Hlive Hn), Z.ltb_irrefl.
    rewrite Hacc, Hsub, Hrec. reflexivity.
  - unfold pay. rewrite (payment_heap _ _ _ _ _ _ Hk), Hs. simpl.
    rewrite Z.sub_diag. reflexivity.
Qed.

Lemma session_payment_guard_witness :
  heap ex_revoked !! 0%nat
    = Some {| privateKey := "0xSessionSecret"; address := "0xSession";
              spendLimit := 1000000000; remainingLimit := 1000000000;
              expiresAt := 3605; createdAt := 5 |} /\
  (_sendPaymentWithSessionKey (ex_pay true) "0xShop" 1000000001 0%nat ex_revoked
   = (ex_revoked, Threw "Amount exceeds session key limit. Remaining: 1000 MNEE")) /\
  (remainingLimit <$>
     heap (_sendPaymentWithSessionKey (ex_pay true) "0xShop" 1000000000 0%nat ex_revoked).1
       !! 0%nat) = Some 0%Z.
Proof.
  assert (Hk : heap ex_revoked !! 0%nat
    = Some {| privateKey := "0xSessionSecret"; address := "0xSession";
              spendLimit := 1000000000; remainingLimit := 1000000000;
              expiresAt := 3605; createdAt := 5 |}) by reflexivity.
  split; [exact Hk |].
  pose proof (session_payment_guard (ex_pay true) "0xShop" 400000000 0%nat ex_revoked _ Hk)
    as (_ & _ & _ & _ & _ & Hover & Hexact).
  split.
  - apply Hover. reflexivity.
  - eapply Hexact; reflexivity.
Defined.

(** *** Debit and outcome *)

(** The rule in the specification's words: the key is debited when, and only
    when, the payment is confirmed; a failed payment leaves the limit as it
    was. *)
Definition debit_follows_outcome (env : PayEnv) (recipient : Address) (v : Z)
    (key : ref) (w : World) : Prop :=
  forall k k' rc,
    heap w !! key = Some k ->
    (_sendPaymentWithSessionKey env recipient v key w).2 = Returned rc ->
    heap (_sendPaymentWithSessionKey env recipient v key w).1 !! key = Some k' ->
    (status rc = CONFIRMED -> remainingLimit k' = (remainingLimit k - v)%Z) /\
    (status rc = FAILED -> remainingLimit k' = remainingLimit k).

(** C4, as stated, fails: a payment of 400 MNEE that reverts on chain returns
    a FAILED receipt, and the key is left with 600 MNEE. *)
Lemma failed_payment_keeps_debit :
  ~ debit_follows_outcome (ex_pay false) "0xShop" 400000000 0%nat ex_authorized.
Proof.
  intros H.
  destruct (H _ _ _ eq_refl eq_refl eq_refl) as [_ Hfailed].
  specialize (Hfailed eq_refl). vm_compute in Hfailed. discriminate.
Qed.

(** C4, amended. The key is debited by the principal amount as soon as, and
    exactly when, the transfer is submitted (the wallet client returns a
    hash), before the receipt is awaited. Every payment that returns a
    receipt, CONFIRMED or FAILED, has been debited; a FAILED outcome does not
    restore [remainingLimit], and neither does a receipt that never comes. *)
Theorem debit_at_submission (env : PayEnv) (recipient : Address) (v : Z)
    (key : ref) (w : World) (k : SessionKey) :
  heap w !! key = Some k ->
  let out := _sendPaymentWithSessionKey env recipient v key w in
  heap out.1 !! key = Some (if submits env v w k then debited_key v k else k) /\
  (forall rc, out.2 = Returned rc ->
     (status rc = CONFIRMED \/ status rc = FAILED) /\
     amount rc = v /\
     remainingLimit <$> heap out.1 !! key = Some (remainingLimit k - v)%Z) /\
  (forall m, submits env v w k = true -> pay_receipt env = Threw m ->
     out.2 = Threw m /\
     remainingLimit <$> heap out.1 !! key = Some (remainingLimit k - v)%Z).
Proof.
  intros Hk out.
  pose proof (payment_heap env recipient v key w k Hk) as Hheap.
  split; [exact Hheap |].
  split.
  - intros rc Hrc.
    destruct (payment_returned _ _ _ _ _ _ _ Hk Hrc)
      as (Hs & main & h & cr & _ & _ & _ & ->).
    unfold out. rewrite Hheap, Hs. simpl.
    destruct (receipt_success cr); auto.
  - intros m Hs Hrec. unfold out. rewrite Hheap, Hs. split; [| reflexivity].
    unfold submits in Hs. rewrite !andb_true_iff in Hs.
    destruct Hs as [[[He Hv] Hacc] Hsub].
    unfold _sendPaymentWithSessionKey. rewrite Hk.
    apply negb_true_iff in He. rewrite He.
    rewrite Z.leb_antisym in Hv. apply negb_true_iff in Hv. rewrite Hv.
    destruct (account w); [| discriminate].
    destruct (pay_submit env); [| discriminate].
    rewrite Hrec. reflexivity.
Qed.

Lemma debit_at_submission_witness :
  heap ex_authorized !! 0%nat
    = Some {| privateKey := "0xSessionSecret"; address := "0xSession";
              spendLimit := 1000000000; remainingLimit := 1000000000;
              expiresAt := 3605; createdAt := 5 |} /\
  remainingLimit <$>
    heap (_sendPaymentWithSessionKey (ex_pay false) "0xShop" 400000000 0%nat ex_authorized).1
      !! 0%nat = Some 600000000%Z.
Proof.
  assert (Hk : heap ex_authorized !! 0%nat
    = Some {| privateKey := "0xSessionSecret"; address := "0xSession";
              spendLimit := 1000000000; remainingLimit := 1000000000;
              expiresAt := 3605; createdAt := 5 |}) by reflexivity.
  split; [exact Hk |].
  pose proof (debit_at_submission (ex_pay false) "0xShop" 400000000 0%nat ex_authorized _ Hk)
    as (_ & Hret & _).
  destruct (Hret _ eq_refl) as (_ & _ & Hrem). exact Hrem.
Defined.

(** *** Revocation *)

(** The rule in the specification's words: a second revocation of the same
    key returns without error and changes nothing. *)
Definition revoke_is_idempotent (ans1 ans2 : outcome Hash) (keyId : string)
    (w : World) : Prop :=
  let w1 := (revokeSessionKey ans1 keyId w).1 in
  (exists h, (revokeSessionKey ans2 keyId w1).2 = Returned h) /\
  (revokeSessionKey ans2 keyId w1).1 = w1.

(** C7, as stated, fails: the second revocation of the key "agent" throws. *)
Lemma second_revocation_throws :
  (revokeSessionKey (Returned "0xc4"%string) "agent" ex_revoked).2
    = Threw "Session key not found" /\
  ~ revoke_is_idempotent (Returned "0xc3"%string) (Returned "0xc4"%string) "agent" ex_authorized.
Proof.
  split; [reflexivity |].
  intros [[h Hh] _]. vm_compute in Hh. discriminate.
Qed.

(** C7, amended. A first revocation, when its approval is accepted, submits
    one [approve(sessionKey.address, 0)] from the main account and removes
    the key from the client's map; the key object itself is untouched.
    Revoking the same key again submits nothing and changes nothing, but it
    is an error: it throws "Session key not found". *)
Theorem revoke_then_not_found (keyId : string) (w : World) (key : ref)
    (k : SessionKey) (main : Address) (h : Hash) :
  sessionKeys w !! keyId = Some key ->
  heap w !! key = Some k ->
  account w = Some main ->
  let w1 := (revokeSessionKey (Returned h) keyId w).1 in
  (revokeSessionKey (Returned h) keyId w).2 = Returned h /\
  sessionKeys w1 = delete keyId (sessionKeys w) /\
  submitted w1 = submitted w ++
    [{| signer := MainAccount main; call := Approve (address k) 0; answer := Returned h |}] /\
  heap w1 = heap w /\
  forall ans, revokeSessionKey ans keyId w1 = (w1, Threw "Session key not found").
Proof.
  intros Hid Hk Hacc w1.
  assert (Hrun : revokeSessionKey (Returned h) keyId w
    = (set_sessionKeys (delete keyId (sessionKeys w))
         (writeContract (MainAccount main) (Approve (address k) 0) (Returned h) w),
       Returned h)).
  { unfold revokeSessionKey, approve. rewrite Hid, Hk, Hacc, toWei_zero. reflexivity. }
  unfold w1. rewrite Hrun. cbn [fst snd].
  repeat split.
  intros ans. unfold revokeSessionKey. cbn [sessionKeys set_sessionKeys].
  rewrite lookup_delete_eq. reflexivity.
Qed.

Lemma revoke_then_not_found_witness :
  sessionKeys ex_authorized !! "agent"%string = Some 0%nat /\
  (revokeSessionKey (Returned "0xc3"%string) "agent" ex_authorized).2 = Returned "0xc3"%string /\
  revokeSessionKey (Threw "unused"%string) "agent" ex_revoked
    = (ex_revoked, Threw "Session key not found").
Proof.
  assert (Hid : sessionKeys ex_authorized !! "agent"%string = Some 0%nat) by reflexivity.
  split; [exact Hid |].
  pose proof (revoke_then_not_found "agent" ex_authorized 0%nat _ "0xOwner" "0xc3"
                Hid eq_refl eq_refl) as (Hret & _ & _ & _ & Hagain).
  split; [exact Hret | apply Hagain].
Defined.

(** A revocation whose approval is refused leaves the key in the map. *)
Lemma revoke_refused (keyId : string) (w : World) (key : ref) (k : SessionKey)
    (main : Address) (m : string) :
  sessionKeys w !! keyId = Some key ->
  heap w !! key = Some k ->
  account w = Some main ->
  (revokeSessionKey (Threw m) keyId w).2 = Threw m /\
  sessionKeys (revokeSessionKey (Threw m) keyId w).1 = sessionKeys w.
Proof.
  intros Hid Hk Hacc. unfold revokeSessionKey, approve.
  rewrite Hid, Hk, Hacc, toWei_zero. split; reflexivity.
Qed.

(** *** Overlapping payments *)

(** A key with 100 minor units left, and two payments of 80 with it. *)
Definition ex_tight : World :=
  (authorizeAgent ex_authorize
     {| opt_spendLimit := "0.0001"; opt_duration := 3600; opt_label := Some "agent"%string |}
     ex_client).1.

Definition ex_two_calls : list Payment :=
  [Called "0xShop" 80 0%nat; Called "0xMarket" 80 0%nat].

Definition ex_mined : outcome ChainReceipt :=
  Returned {| receipt_success := true; receipt_blockNumber := 7 |}.

(** The second call enters while the first awaits its hash. *)
Definition ex_overlapping : list (nat * Resume) :=
  [ (0%nat, Enter 60000); (1%nat, Enter 60001);
    (0%nat, Submitted (Returned "0xd1"%string)); (1%nat, Submitted (Returned "0xd2"%string));
    (0%nat, Mined ex_mined 90000); (1%nat, Mined ex_mined 90001) ].

(** The second call enters after the first has returned. *)
Definition ex_in_turn : list (nat * Resume) :=
  [ (0%nat, Enter 60000); (0%nat, Submitted (Returned "0xd1"%string));
    (0%nat, Mined ex_mined 90000);
    (1%nat, Enter 90001); (1%nat, Submitted (Returned "0xd2"%string));
    (1%nat, Mined ex_mined 90002) ].

Definition settled_status (p : Payment) : option PaymentStatus :=
  match p with
  | Settled (Returned rc) => Some (status rc)
  | _ => None
  end.

(** C9: what the client does with two overlapping payments of 80 against a
    remaining limit of 100. Both pass the limit check, both are submitted
    and returned as confirmed, and the key is left with [-60]. *)
Theorem overlapping_payments_overdraw :
  remainingLimit <$> heap ex_tight !! 0%nat = Some 100%Z /\
  settled_status <$> (run_schedule ex_overlapping ex_two_calls ex_tight).2
    = [Some CONFIRMED; Some CONFIRMED] /\
  remainingLimit <$> heap (run_schedule ex_overlapping ex_two_calls ex_tight).1 !! 0%nat
    = Some (-60)%Z /\
  debited "0xSessionSecret" (submitted (run_schedule ex_overlapping ex_two_calls ex_tight).1)
    = 160%Z.
Proof. vm_compute. repeat split; reflexivity. Qed.

(** C2: the invariant of the spend limit on the client as the event loop
    runs it. The key of [ex_tight] is authorized with [spendLimit =
    remainingLimit = 100] and has submitted nothing. After the two payments
    of 80 that overlap at [await writeContract], each for a [uint256] amount,
    its successful debits add up to 160, more than [spendLimit];
    [remainingLimit] still is [spendLimit] minus that sum, and so it is -60,
    below zero. *)
Theorem spend_limit_overdrawn :
  let w := (run_schedule ex_overlapping ex_two_calls ex_tight).1 in
  exists k0 k,
    heap ex_tight !! 0%nat = Some k0 /\
    spendLimit k0 = 100%Z /\ remainingLimit k0 = spendLimit k0 /\
    debited (privateKey k0) (submitted ex_tight) = 0%Z /\
    heap w !! 0%nat = Some k /\
    privateKey k = privateKey k0 /\ spendLimit k = spendLimit k0 /\
    Forall uint256_accepted (submitted w) /\
    debited (privateKey k) (submitted w) = 160%Z /\
    (spendLimit k < debited (privateKey k) (submitted w))%Z /\
    remainingLimit k = (spendLimit k - debited (privateKey k) (submitted w))%Z /\
    remainingLimit k = (-60)%Z /\
    (remainingLimit k < 0)%Z.
Proof.
  cbv zeta.
  exists {| privateKey := "0xSessionSecret"; address := "0xSession"; spendLimit := 100;
            remainingLimit := 100; expiresAt := 3605; createdAt := 5 |},
         {| privateKey := "0xSessionSecret"; address := "0xSession"; spendLimit := 100;
            remainingLimit := -60; expiresAt := 3605; createdAt := 5 |}.
  cbn [privateKey spendLimit remainingLimit].
  assert (Hlog : debited "0xSessionSecret"
                   (submitted (run_schedule ex_overlapping ex_two_calls ex_tight).1) = 160%Z)
    by (vm_compute; reflexivity).
  rewrite Hlog.
  split; [vm_compute; reflexivity |]. split; [reflexivity |]. split; [reflexivity |].
  split; [vm_compute; reflexivity |]. split; [vm_compute; reflexivity |].
  split; [reflexivity |]. split; [reflexivity |].
  split.
  { set (log := submitted _). vm_compute in log. subst log.
    repeat constructor; cbn; lia. }
  repeat split; lia.
Qed.

(** The same two payments, one after the other: the second is refused. *)
Example payments_in_turn :
  (run_schedule ex_in_turn ex_two_calls ex_tight).2
    = [ Settled (Returned (receipt_of "0xd1" "0xOwner" "0xShop" 80
                             {| receipt_success := true; receipt_blockNumber := 7 |} 90000));
        Settled (Threw "Amount exceeds session key limit. Remaining: 0.00002 MNEE") ] /\
  remainingLimit <$> heap (run_schedule ex_in_turn ex_two_calls ex_tight).1 !! 0%nat
    = Some 20%Z.
Proof. vm_compute. split; reflexivity. Qed.

End SessionKeys.

(** ** The token ledger *)
Section TokenFacts.
Import Evm MockMNEE.

Lemma bind_Ok {A B : Type} (r : result A) (f : A -> result B) (b : B) :
  r ≫= f = Ok b -> exists a, r = Ok a /\ f a = Ok b.
Proof. destruct r as [a | m]; [intros H; exists a; auto | discriminate]. Qed.

Lemma require_Ok (b : bool) (m : string) (u : unit) : require b m = Ok u -> b = true.
Proof. destruct b; [reflexivity | discriminate]. Qed.

Lemma require_true (m : string) : require true m = Ok tt.
Proof. reflexivity. Qed.

Lemma _transfer_Ok (from to v : N) (st st' : State) (ev : list Event) :
  _transfer from to v st = Ok (st', ev) ->
  from <> 0%N /\ to <> 0%N /\ (v <= balanceOf st from)%N /\
  ev = [Transfer from to v] /\
  st' = set_balance to
          (wrap (balanceOf (set_balance from (balanceOf st from - v)%N st) to + v))
          (set_balance from (balanceOf st from - v)%N st).
Proof.
  unfold _transfer. intros H.
  apply bind_Ok in H. destruct H as (? & H1 & H).
  apply bind_Ok in H. destruct H as (? & H2 & H).
  apply bind_Ok in H. destruct H as (? & H3 & H).
  apply require_Ok in H1, H2, H3.
  apply negb_true_iff, N.eqb_neq in H1. apply negb_true_iff, N.eqb_neq in H2.
  apply N.leb_le in H3. inversion H; subst. auto.
Qed.

Lemma _transfer_succeeds (from to v : N) (st : State) :
  from <> 0%N -> to <> 0%N -> (v <= balanceOf st from)%N ->
  _transfer from to v st
  = Ok (set_balance to
          (wrap (balanceOf (set_balance from (balanceOf st from - v)%N st) to + v))
          (set_balance from (balanceOf st from - v)%N st),
        [Transfer from to v]).
Proof.
  intros Hf Ht Hv. unfold _transfer.
  apply N.eqb_neq in Hf, Ht. apply N.leb_le in Hv.
  rewrite Hf, Ht, Hv. reflexivity.
Qed.

Lemma balanceOf_set_balance (a b v : N) (st : State) :
  balanceOf (set_balance a v st) b = if decide (a = b) then v else balanceOf st b.
Proof.
  unfold balanceOf, set_balance. cbn [_balances].
  rewrite lookup_insert. destruct (decide (a = b)); reflexivity.
Qed.

(** A transfer between two accounts takes the amount from one and gives it
    to the other; every other balance stays. *)
Lemma _transfer_balances (from to v : N) (st st' : State) (ev : list Event) :
  _transfer from to v st = Ok (st', ev) ->
  from <> to ->
  balanceOf st' from = (balanceOf st from - v)%N /\
  balanceOf st' to = wrap (balanceOf st to + v) /\
  forall a, a <> from -> a <> to -> balanceOf st' a = balanceOf st a.
Proof.
  intros H Hne. apply _transfer_Ok in H. destruct H as (_ & _ & _ & _ & ->).
  rewrite !balanceOf_set_balance.
  repeat split.
  - destruct (decide (to = from)); [congruence |].
    destruct (decide (from = from)); [reflexivity | congruence].
  - destruct (decide (to = to)); [| congruence].
    destruct (decide (from = to)); [congruence | reflexivity].
  - intros a Ha1 Ha2. rewrite !balanceOf_set_balance.
    destruct (decide (to = a)); [congruence |].
    destruct (decide (from = a)); [congruence | reflexivity].
Qed.

Lemma transferFrom_Ok (msg : Msg) (from to v : N) (st st' : State) (ev : list Event) :
  transferFrom msg from to v st = Ok (st', ev) -> from <> 0%N.
Proof.
  unfold transferFrom. intros H.
  apply bind_Ok in H. destruct H as (? & _ & H).
  apply bind_Ok in H. destruct H as ([st1 ev1] & _ & H).
  apply bind_Ok in H. destruct H as ([st2 ev2] & H2 & _).
  apply _transfer_Ok in H2. tauto.
Qed.

End TokenFacts.

(** ** The escrow: what each entry point does *)
Section EscrowCalls.
Import Evm MneeEscrow.
Variable P : Primitives.

(** Peel one [require] or one call off a sequence that returned. *)
Ltac peel H :=
  let a := fresh "x" in
  let Ha := fresh "Hx" in
  apply bind_Ok in H; destruct H as (a & Ha & H).

Lemma status_eqb_eq (a b : TaskStatus) : status_eqb a b = true <-> a = b.
Proof. destruct a, b; simpl; split; intros H; congruence. Qed.

Lemma task_at_agent (st : Storage) (id : N) :
  agent (task_at st id) <> 0%N -> tasks st !! id = Some (task_at st id).
Proof.
  unfold task_at. destruct (tasks st !! id); simpl; [reflexivity | congruence].
Qed.

Lemma task_at_disputed (st : Storage) (id : N) :
  status (task_at st id) = Disputed -> tasks st !! id = Some (task_at st id).
Proof.
  unfold task_at. destruct (tasks st !! id); simpl; [reflexivity | discriminate].
Qed.

Lemma task_at_Some (st : Storage) (id : N) (t : EscrowTask) :
  tasks st !! id = Some t -> task_at st id = t.
Proof. unfold task_at. intros ->. reflexivity. Qed.

Lemma token_call_Ok (r : result (MockMNEE.State * list MockMNEE.Event)) (c c' : Chain)
    (ev : list Event) :
  token_call r c = Ok (c', ev) ->
  exists tok tev, r = Ok (tok, tev) /\
    c' = {| this := this c; escrow := escrow c; mneeToken := tok |} /\
    ev = Token <$> tev.
Proof.
  unfold token_call. destruct r as [[tok tev] | m]; [| discriminate].
  intros H. inversion H; subst. eauto.
Qed.

(** The common end of the three settling entry points: the status is
    written, then the token is called; the call pays the recipient out of
    the escrow's balance or reverts everything. *)
Definition pays (c : Chain) (id : N) (s : TaskStatus) (recipient v : N) (marker : Event)
    (c' : Chain) (ev : list Event) : Prop :=
  exists tok,
    MockMNEE._transfer (this c) recipient v (mneeToken c)
      = Ok (tok, [MockMNEE.Transfer (this c) recipient v]) /\
    c' = {| this := this c; escrow := escrow (set_status id s c); mneeToken := tok |} /\
    ev = [Token (MockMNEE.Transfer (this c) recipient v); marker].

Lemma settle_Ok (msg : Msg) (c : Chain) (id : N) (s : TaskStatus) (recipient v : N)
    (marker : Event) (c' : Chain) (ev : list Event) :
  (token_call
     (MockMNEE.transfer (as_escrow c msg) recipient v (mneeToken (set_status id s c)))
     (set_status id s c)
   ≫= fun '(c2, ev2) => mret (c2, ev2 ++ [marker])) = Ok (c', ev) ->
  pays c id s recipient v marker c' ev.
Proof.
  intros H. peel H. destruct x as [c2 ev2].
  apply token_call_Ok in Hx. destruct Hx as (tok & tev & Htr & -> & ->).
  unfold MockMNEE.transfer in Htr. cbn [as_escrow sender set_status mneeToken] in Htr.
  pose proof (_transfer_Ok _ _ _ _ _ _ Htr) as (_ & _ & _ & -> & _).
  inversion H; subst. exists tok. auto.
Qed.

Lemma settle_succeeds (msg : Msg) (c : Chain) (id : N) (s : TaskStatus) (recipient v : N)
    (marker : Event) :
  this c <> 0%N -> recipient <> 0%N ->
  (v <= MockMNEE.balanceOf (mneeToken c) (this c))%N ->
  exists c' ev,
    (token_call
       (MockMNEE.transfer (as_escrow c msg) recipient v (mneeToken (set_status id s c)))
       (set_status id s c)
     ≫= fun '(c2, ev2) => mret (c2, ev2 ++ [marker])) = Ok (c', ev) /\
    pays c id s recipient v marker c' ev.
Proof.
  intros Hthis Hrec Hbal.
  pose proof (_transfer_succeeds (this c) recipient v (mneeToken c) Hthis Hrec Hbal) as Htr.
  eexists _, _. split.
  - unfold MockMNEE.transfer. cbn [as_escrow sender set_status mneeToken].
    rewrite Htr. reflexivity.
  - eexists. split; [exact Htr |]. split; reflexivity.
Qed.

Lemma releaseWithProof_Ok (msg : Msg) (id uid : N) (sig : list N) (c c' : Chain)
    (ev : list Event) :
  releaseWithProof P msg id uid sig c = Ok (c', ev) ->
  let t := task_at (escrow c) id in
  tasks (escrow c) !! id = Some t /\ agent t <> 0%N /\ status t = Active /\
  (timestamp msg <= deadline t)%N /\
  _verifyAttestation P (escrow c) id uid sig (serviceProvider t) = Ok true /\
  pays c id Completed (serviceProvider t) (amount t)
    (TaskCompleted id (serviceProvider t) uid) c' ev.
Proof.
  intros H. unfold releaseWithProof in H. cbv zeta in *.
  set (t := task_at (escrow c) id) in *.
  peel H. peel H. peel H. peel H. peel H.
  apply require_Ok in Hx, Hx0, Hx1, Hx3. subst x2.
  apply negb_true_iff, N.eqb_neq in Hx. apply status_eqb_eq in Hx0. apply N.leb_le in Hx1.
  apply settle_Ok in H.
  repeat split; auto. apply task_at_agent. exact Hx.
Qed.

Lemma refund_Ok (msg : Msg) (id : N) (c c' : Chain) (ev : list Event) :
  refund msg id c = Ok (c', ev) ->
  let t := task_at (escrow c) id in
  tasks (escrow c) !! id = Some t /\ agent t <> 0%N /\ status t = Active /\
  (sender msg = agent t \/ autoRefund t = true) /\
  (deadline t < timestamp msg)%N /\
  pays c id Refunded (agent t) (amount t) (TaskRefunded id (agent t) (amount t)) c' ev.
Proof.
  intros H. unfold refund in H. cbv zeta in *.
  set (t := task_at (escrow c) id) in *.
  peel H. peel H. peel H. peel H.
  apply require_Ok in Hx, Hx0, Hx1, Hx2.
  apply negb_true_iff, N.eqb_neq in Hx. apply status_eqb_eq in Hx0.
  apply orb_true_iff in Hx1. rewrite N.eqb_eq in Hx1. apply N.ltb_lt in Hx2.
  apply settle_Ok in H.
  repeat split; auto. apply task_at_agent. exact Hx.
Qed.

Lemma resolveDispute_Ok (msg : Msg) (id : N) (b : bool) (c c' : Chain) (ev : list Event) :
  resolveDispute msg id b c = Ok (c', ev) ->
  let t := task_at (escrow c) id in
  tasks (escrow c) !! id = Some t /\ sender msg = owner (escrow c) /\ status t = Disputed /\
  pays c id (if b then Completed else Refunded)
    (if b then serviceProvider t else agent t) (amount t)
    (if b then TaskCompleted id (serviceProvider t) 0 else TaskRefunded id (agent t) (amount t))
    c' ev.
Proof.
  intros H. unfold resolveDispute, onlyOwner in H. cbv zeta in *.
  set (t := task_at (escrow c) id) in *.
  peel H. peel H.
  apply require_Ok in Hx, Hx0. apply N.eqb_eq in Hx. apply status_eqb_eq in Hx0.
  apply settle_Ok in H.
  repeat split; auto. apply task_at_disputed. exact Hx0.
Qed.

Lemma dispute_Ok (msg : Msg) (id : N) (c c' : Chain) (ev : list Event) :
  dispute msg id c = Ok (c', ev) ->
  let t := task_at (escrow c) id in
  tasks (escrow c) !! id = Some t /\ agent t <> 0%N /\ status t = Active /\
  (sender msg = agent t \/ sender msg = serviceProvider t) /\
  c' = set_status id Disputed c /\ ev = [TaskDisputed id (sender msg)].
Proof.
  intros H. unfold dispute in H. cbv zeta in *.
  set (t := task_at (escrow c) id) in *.
  peel H. peel H. peel H.
  apply require_Ok in Hx, Hx0, Hx1.
  apply negb_true_iff, N.eqb_neq in Hx. apply status_eqb_eq in Hx0.
  apply orb_true_iff in Hx1. rewrite !N.eqb_eq in Hx1.
  inversion H; subst.
  repeat split; auto. apply task_at_agent. exact Hx.
Qed.

Lemma lockFunds_Ok (msg : Msg) (p a d : N) (descr : string) (r : bool) (c c' : Chain)
    (id : N) (ev : list Event) :
  lockFunds P msg p a d descr r c = Ok (id, c', ev) ->
  id = task_hash P (sender msg) p a (timestamp msg) descr /\
  agent (task_at (escrow c) id) = 0%N /\
  sender msg <> 0%N /\ p <> 0%N /\ (0 < a)%N /\ (timestamp msg < d)%N /\
  this c' = this c /\
  tasks (escrow c') =
    <[id := {| agent := sender msg; serviceProvider := p; amount := a; deadline := d;
               status := Active; taskId := id; taskDescription := descr;
               autoRefund := r |}]> (tasks (escrow c)) /\
  exists tok tev,
    MockMNEE.transferFrom (as_escrow c msg) (sender msg) (this c) a (mneeToken c)
      = Ok (tok, tev) /\
    mneeToken c' = tok /\
    ev = (Token <$> tev) ++ [TaskCreated id (sender msg) p a d].
Proof.
  unfold lockFunds. intros H.
  peel H. peel H. peel H. peel H. peel H. peel H. destruct x4 as [c1 ev1].
  apply require_Ok in Hx, Hx0, Hx1, Hx3.
  apply negb_true_iff, N.eqb_neq in Hx. apply N.ltb_lt in Hx0, Hx1. apply N.eqb_eq in Hx3.
  apply token_call_Ok in Hx4. destruct Hx4 as (tok & tev & Htr & -> & ->).
  inversion H; subst. cbn.
  pose proof (transferFrom_Ok _ _ _ _ _ _ _ Htr) as Hsender.
  repeat split; eauto.
Qed.

(** *** One transaction, seen from the tasks *)

(** The status a task must have for a call to go through. *)
Definition guard_state (call : Call) : option TaskStatus :=
  match call with
  | ReleaseWithProof _ _ _ | Refund _ | Dispute _ => Some Active
  | ResolveDispute _ _ => Some Disputed
  | _ => None
  end.

Definition recipient_of (s : TaskStatus) (t : EscrowTask) : N :=
  match s with
  | Completed => serviceProvider t
  | _ => agent t
  end.

(** What a transaction that went through did to the tasks: nothing; or it
    created one, Active, under an unused id; or it moved an Active task to
    Disputed; or it settled one task, from its guard state to Completed or
    Refunded, with one transfer of the task's amount to the provider or to
    the agent. *)
Inductive effect (c : Chain) (tx : Tx) (c' : Chain) (ev : list Event) : Prop :=
  | no_task_touched :
      tasks (escrow c') = tasks (escrow c) ->
      settles (tx_call tx) = None ->
      effect c tx c' ev
  | task_created (id : N) (t : EscrowTask) :
      settles (tx_call tx) = None ->
      agent (task_at (escrow c) id) = 0%N ->
      agent t <> 0%N -> status t = Active ->
      tasks (escrow c') = <[id := t]> (tasks (escrow c)) ->
      effect c tx c' ev
  | task_disputed (id : N) (t : EscrowTask) :
      settles (tx_call tx) = None ->
      tasks (escrow c) !! id = Some t -> status t = Active ->
      tasks (escrow c') = <[id := with_status Disputed t]> (tasks (escrow c)) ->
      effect c tx c' ev
  | task_settled (id : N) (t : EscrowTask) (s : TaskStatus) (marker : Event) :
      settles (tx_call tx) = Some id ->
      tasks (escrow c) !! id = Some t ->
      guard_state (tx_call tx) = Some (status t) ->
      s = Completed \/ s = Refunded ->
      transfer_from (this c) marker = None ->
      pays c id s (recipient_of s t) (amount t) marker c' ev ->
      effect c tx c' ev.

Lemma pays_this (c : Chain) (id : N) (s : TaskStatus) (r v : N) (m : Event) (c' : Chain)
    (ev : list Event) :
  pays c id s r v m c' ev -> this c' = this c.
Proof. intros (tok & _ & -> & _). reflexivity. Qed.

Lemma exec_effect (tx : Tx) (c c' : Chain) (ev : list Event) :
  exec P tx c = Ok (c', ev) -> this c' = this c /\ effect c tx c' ev.
Proof.
  unfold exec. destruct tx as [msg call]. cbn [tx_msg tx_call].
  destruct call; intros H.
  - peel H. destruct x as [[id c1] ev1]. inversion H; subst.
    apply lockFunds_Ok in Hx.
    destruct Hx as (_ & Hfree & Hs & _ & _ & _ & Hthis & Htasks & _).
    split; [exact Hthis |].
    eapply task_created; [reflexivity | exact Hfree | | | exact Htasks]; [exact Hs | reflexivity].
  - apply releaseWithProof_Ok in H. cbv zeta in H.
    destruct H as (Ht & _ & Hst & _ & _ & Hpay).
    split; [eapply pays_this; exact Hpay |].
    eapply (task_settled _ _ _ _ _ _ Completed); eauto;
      [cbn; rewrite Hst; reflexivity | reflexivity].
  - apply refund_Ok in H. cbv zeta in H.
    destruct H as (Ht & _ & Hst & _ & _ & Hpay).
    split; [eapply pays_this; exact Hpay |].
    eapply (task_settled _ _ _ _ _ _ Refunded); eauto;
      [cbn; rewrite Hst; reflexivity | reflexivity].
  - apply dispute_Ok in H. cbv zeta in H.
    destruct H as (Ht & _ & Hst & _ & -> & _).
    split; [reflexivity |].
    eapply task_disputed; eauto.
  - apply resolveDispute_Ok in H. cbv zeta in H.
    destruct H as (Ht & _ & Hst & Hpay).
    split; [eapply pays_this; exact Hpay |].
    destruct _releaseToProvider.
    + eapply (task_settled _ _ _ _ _ _ Completed); eauto;
        [cbn; rewrite Hst; reflexivity | reflexivity].
    + eapply (task_settled _ _ _ _ _ _ Refunded); eauto;
        [cbn; rewrite Hst; reflexivity | reflexivity].
  - unfold updateAttestationProvider in H. peel H. peel H. inversion H; subst.
    split; [reflexivity | apply no_task_touched; reflexivity].
  - unfold updateSchemaUID in H. peel H. inversion H; subst.
    split; [reflexivity | apply no_task_touched; reflexivity].
  - unfold emergencyWithdraw in H. peel H. peel H.
    apply token_call_Ok in H. destruct H as (tok & tev & _ & -> & _).
    split; [reflexivity | apply no_task_touched; reflexivity].
  - unfold transferOwnership in H. peel H. peel H. inversion H; subst.
    split; [reflexivity | apply no_task_touched; reflexivity].
  - unfold renounceOwnership in H. peel H. inversion H; subst.
    split; [reflexivity | apply no_task_touched; reflexivity].
  - apply token_call_Ok in H. destruct H as (tok & tev & _ & -> & _).
    split; [reflexivity | apply no_task_touched; reflexivity].
  - apply token_call_Ok in H. destruct H as (tok & tev & _ & -> & _).
    split; [reflexivity | apply no_task_touched; reflexivity].
  - apply token_call_Ok in H. destruct H as (tok & tev & _ & -> & _).
    split; [reflexivity | apply no_task_touched; reflexivity].
  - apply token_call_Ok in H. destruct H as (tok & tev & _ & -> & _).
    split; [reflexivity | apply no_task_touched; reflexivity].
  - apply token_call_Ok in H. destruct H as (tok & tev & _ & -> & _).
    split; [reflexivity | apply no_task_touched; reflexivity].
Qed.

(** *** Sequences of transactions *)

(** Every stored task has an agent: [lockFunds] is the only writer. *)
Definition tasks_wf (c : Chain) : Prop :=
  forall id t, tasks (escrow c) !! id = Some t -> agent t <> 0%N.

Definition terminal (t : EscrowTask) : Prop :=
  status t = Completed \/ status t = Refunded.

Lemma guard_state_open (call : Call) (s : TaskStatus) :
  guard_state call = Some s -> s = Active \/ s = Disputed.
Proof. destruct call; simpl; intros H; inversion H; auto. Qed.

Lemma settlement_transfers (a r v : N) (marker : Event) :
  transfer_from a marker = None ->
  omap (transfer_from a) [Token (MockMNEE.Transfer a r v); marker] = [(r, v)].
Proof.
  intros Hmark. unfold omap, list_omap. rewrite Hmark.
  cbn [transfer_from]. rewrite N.eqb_refl. reflexivity.
Qed.

Lemma effect_step (c : Chain) (tx : Tx) (c' : Chain) (ev : list Event) :
  effect c tx c' ev -> tasks_wf c ->
  tasks_wf c' /\
  forall id,
    settled_payout (tasks (escrow c') !! id)
      = settled_payout (tasks (escrow c) !! id) ++ paid_by (this c) id (tx, Ok ev) /\
    (forall t, tasks (escrow c) !! id = Some t -> terminal t ->
       tasks (escrow c') !! id = Some t).
Proof.
  intros Heff Hwf. destruct Heff as
    [Hsame Hnone | id0 t0 Hnone Hfree Hagent Hact Htasks
     | id0 t0 Hnone Hold Hact Htasks
     | id0 t0 s marker Hsome Hold Hguard Hs Hmark Hpay].
  - split; [intros id t; rewrite Hsame; apply Hwf |].
    intros id. rewrite Hsame. unfold paid_by. cbn [fst snd]. rewrite Hnone, app_nil_r.
    auto.
  - assert (Hnew : tasks (escrow c) !! id0 = None).
    { destruct (tasks (escrow c) !! id0) as [t |] eqn:Ht; [| reflexivity].
      exfalso. apply (Hwf id0 t Ht). rewrite <- (task_at_Some _ _ _ Ht). exact Hfree. }
    split.
    + intros id t. rewrite Htasks, lookup_insert.
      destruct (decide (id0 = id)); [intros [= <-]; exact Hagent | apply Hwf].
    + intros id. rewrite Htasks, lookup_insert. unfold paid_by. cbn [fst snd].
      rewrite Hnone, app_nil_r.
      destruct (decide (id0 = id)) as [<- |]; [| auto].
      rewrite Hnew. simpl. rewrite Hact. split; [reflexivity | discriminate].
  - split.
    + intros id t. rewrite Htasks, lookup_insert.
      destruct (decide (id0 = id)); [intros [= <-]; exact (Hwf _ _ Hold) | apply Hwf].
    + intros id. rewrite Htasks, lookup_insert. unfold paid_by. cbn [fst snd].
      rewrite Hnone, app_nil_r.
      destruct (decide (id0 = id)) as [<- |]; [| auto].
      rewrite Hold. simpl. rewrite Hact. split; [reflexivity |].
      intros t [= <-] [Ht | Ht]; congruence.
  - destruct Hpay as (tok & _ & -> & ->).
    unfold tasks_wf. cbn [escrow set_status set_tasks tasks].
    rewrite (task_at_Some _ _ _ Hold).
    apply guard_state_open in Hguard.
    split.
    + intros id t. rewrite lookup_insert.
      destruct (decide (id0 = id)); [intros [= <-]; exact (Hwf _ _ Hold) | apply Hwf].
    + intros id. rewrite lookup_insert. unfold paid_by. cbn [fst snd]. rewrite Hsome.
      destruct (decide (id0 = id)) as [<- | Hne].
      * rewrite N.eqb_refl, Hold, (settlement_transfers _ _ _ _ Hmark).
        split.
        -- destruct Hguard as [Hg | Hg], Hs as [-> | ->]; simpl; rewrite Hg; reflexivity.
        -- intros t [= <-] [Ht | Ht]; destruct Hguard; congruence.
      * apply N.eqb_neq in Hne. rewrite Hne, app_nil_r. auto.
Qed.

Lemma payouts_cons (a id : N) (entry : Tx * result (list Event))
    (h : list (Tx * result (list Event))) :
  payouts a id (entry :: h) = paid_by a id entry ++ payouts a id h.
Proof. reflexivity. Qed.

Lemma paid_by_reverted (a id : N) (tx : Tx) (reason : string) :
  paid_by a id (tx, Revert reason) = [].
Proof. unfold paid_by. cbn [fst snd]. destruct (settles (tx_call tx)); reflexivity. Qed.

Lemma run_settles (txs : list Tx) :
  forall c, tasks_wf c ->
    this (run P txs c).1 = this c /\
    tasks_wf (run P txs c).1 /\
    forall id,
      settled_payout (tasks (escrow (run P txs c).1) !! id)
        = settled_payout (tasks (escrow c) !! id) ++ payouts (this c) id (run P txs c).2 /\
      (forall t, tasks (escrow c) !! id = Some t -> terminal t ->
         tasks (escrow (run P txs c).1) !! id = Some t).
Proof.
  induction txs as [| tx rest IH]; intros c Hwf.
  - simpl. repeat split; auto. unfold payouts. simpl. rewrite app_nil_r. reflexivity.
  - simpl. destruct (exec P tx c) as [[c1 ev] | reason] eqn:Hexec.
    + destruct (exec_effect _ _ _ _ Hexec) as [Hthis Heff].
      destruct (effect_step _ _ _ _ Heff Hwf) as [Hwf1 Hstep].
      destruct (IH c1 Hwf1) as (Hthis2 & Hwf2 & Hrest).
      destruct (run P rest c1) as [c2 h]. cbn [fst snd] in *.
      split; [congruence |]. split; [exact Hwf2 |].
      intros id. destruct (Hstep id) as [Hpay Hkeep]. destruct (Hrest id) as [Hpay2 Hkeep2].
      split.
      * rewrite Hpay2, Hpay, payouts_cons, Hthis, <- app_assoc. reflexivity.
      * intros t Ht Hterm. apply Hkeep2; [apply Hkeep |]; assumption.
    + destruct (IH c Hwf) as (Hthis2 & Hwf2 & Hrest).
      destruct (run P rest c) as [c2 h]. cbn [fst snd] in *.
      split; [exact Hthis2 |]. split; [exact Hwf2 |].
      intros id. destruct (Hrest id) as [Hpay2 Hkeep2].
      split; [| exact Hkeep2].
      rewrite payouts_cons, paid_by_reverted. exact Hpay2.
Qed.

Lemma settling_call (tx : Tx) (c c' : Chain) (ev : list Event) (id : N) :
  settles (tx_call tx) = Some id ->
  exec P tx c = Ok (c', ev) ->
  exists t s marker,
    tasks (escrow c) !! id = Some t /\
    guard_state (tx_call tx) = Some (status t) /\
    (s = Completed \/ s = Refunded) /\
    tasks (escrow c') !! id = Some (with_status s t) /\
    transfer_from (this c) marker = None /\
    ev = [Token (MockMNEE.Transfer (this c) (recipient_of s t) (amount t)); marker] /\
    MockMNEE._transfer (this c) (recipient_of s t) (amount t) (mneeToken c)
      = Ok (mneeToken c', [MockMNEE.Transfer (this c) (recipient_of s t) (amount t)]).
Proof.
  intros Hid Hexec. destruct (exec_effect _ _ _ _ Hexec) as [_ Heff].
  destruct Heff as [_ Hnone | ? ? Hnone | ? ? Hnone
                    | id0 t s marker Hsome Hold Hguard Hs Hmark Hpay]; try congruence.
  rewrite Hid in Hsome. inversion Hsome; subst id0.
  destruct Hpay as (tok & Htr & -> & ->).
  exists t, s, marker. cbn [escrow set_status set_tasks tasks mneeToken].
  rewrite (task_at_Some _ _ _ Hold), lookup_insert_eq. auto 10.
Qed.

(** C1. For every escrow task and every sequence of transactions from a chain
    without tasks: what the escrow has paid out for the task is nothing
    while the task is Active or Disputed, exactly one transfer of its amount
    to the provider once it is Completed, and exactly one to the agent once
    it is Refunded, never both; a Completed or Refunded task is never changed
    again by any later transaction; a transaction that settles the task goes
    through only from its guard state (Active for release and refund,
    Disputed for the arbiter), writes the new status and makes the one
    transfer in the same transaction; and from any other state it reverts and
    leaves the chain as it was. *)
Theorem escrow_settles_once (c0 : Chain) (txs more : list Tx) (id : N) :
  tasks (escrow c0) = ∅ ->
  let c := (run P txs c0).1 in
  payouts (this c0) id (run P txs c0).2 = settled_payout (tasks (escrow c) !! id) /\
  (forall t, tasks (escrow c) !! id = Some t -> terminal t ->
     tasks (escrow (run P more c).1) !! id = Some t) /\
  (forall tx c' ev,
     settles (tx_call tx) = Some id -> exec P tx c = Ok (c', ev) ->
     exists t s marker,
       tasks (escrow c) !! id = Some t /\
       guard_state (tx_call tx) = Some (status t) /\
       (s = Completed \/ s = Refunded) /\
       tasks (escrow c') !! id = Some (with_status s t) /\
       transfer_from (this c) marker = None /\
       ev = [Token (MockMNEE.Transfer (this c) (recipient_of s t) (amount t)); marker] /\
       MockMNEE._transfer (this c) (recipient_of s t) (amount t) (mneeToken c)
         = Ok (mneeToken c', [MockMNEE.Transfer (this c) (recipient_of s t) (amount t)])) /\
  (forall tx,
     settles (tx_call tx) = Some id ->
     guard_state (tx_call tx) <> Some (status (task_at (escrow c) id)) ->
     exists reason,
       exec P tx c = Revert reason /\ run P [tx] c = (c, [(tx, Revert reason)])).
Proof.
  intros Hempty c.
  assert (Hwf0 : tasks_wf c0).
  { intros i t. rewrite Hempty, lookup_empty. discriminate. }
  destruct (run_settles txs c0 Hwf0) as (_ & Hwf & Hall).
  destruct (Hall id) as [Hpaid _].
  rewrite Hempty, lookup_empty in Hpaid. simpl in Hpaid.
  split; [symmetry; exact Hpaid |].
  split.
  { intros t Ht Hterm. destruct (run_settles more c Hwf) as (_ & _ & Hmore).
    apply (Hmore id); assumption. }
  split; [intros tx c' ev; apply settling_call |].
  intros tx Hid Hguard.
  destruct (exec P tx c) as [[c' ev] | reason] eqn:Hexec.
  - exfalso. destruct (settling_call _ _ _ _ _ Hid Hexec) as (t & s & m & Ht & Hg & _).
    rewrite (task_at_Some _ _ _ Ht) in Hguard. contradiction.
  - exists reason. split; [reflexivity |]. simpl. rewrite Hexec. reflexivity.
Qed.

(** *** Refund, release and the deadline *)

(** The task the single-call statements are about: stored by [lockFunds],
    still Active, its amount in the escrow's custody. *)
Definition held (c : Chain) (id : N) (t : EscrowTask) : Prop :=
  tasks (escrow c) !! id = Some t /\
  agent t <> 0%N /\ serviceProvider t <> 0%N /\ status t = Active /\
  this c <> 0%N /\
  (amount t <= MockMNEE.balanceOf (mneeToken c) (this c))%N.

Definition may_refund (msg : Msg) (t : EscrowTask) : bool :=
  (sender msg =? agent t)%N || autoRefund t.

Lemma refund_held (c : Chain) (msg : Msg) (id : N) (t : EscrowTask) :
  held c id t ->
  refund msg id c =
    if may_refund msg t then
      if (deadline t <? timestamp msg)%N then
        token_call
          (MockMNEE.transfer (as_escrow c msg) (agent t) (amount t)
             (mneeToken (set_status id Refunded c)))
          (set_status id Refunded c)
        ≫= fun '(c2, ev2) => mret (c2, ev2 ++ [TaskRefunded id (agent t) (amount t)])
      else Revert "Deadline not passed"
    else Revert "Not authorized or auto-refund disabled".
Proof.
  intros (Ht & Hagent & _ & Hact & _). unfold refund, may_refund.
  rewrite (task_at_Some _ _ _ Ht), Hact.
  apply N.eqb_neq in Hagent. rewrite Hagent. cbn [negb status_eqb require mbind result_bind].
  destruct ((sender msg =? agent t)%N || autoRefund t); [| reflexivity].
  cbn [require mbind result_bind].
  destruct (deadline t <? timestamp msg)%N; reflexivity.
Qed.

Lemma releaseWithProof_held (c : Chain) (msg : Msg) (id uid : N) (sig : list N)
    (t : EscrowTask) :
  held c id t ->
  releaseWithProof P msg id uid sig c =
    if (timestamp msg <=? deadline t)%N then
      match _verifyAttestation P (escrow c) id uid sig (serviceProvider t) with
      | Ok true =>
          token_call
            (MockMNEE.transfer (as_escrow c msg) (serviceProvider t) (amount t)
               (mneeToken (set_status id Completed c)))
            (set_status id Completed c)
          ≫= fun '(c2, ev2) =>
               mret (c2, ev2 ++ [TaskCompleted id (serviceProvider t) uid])
      | Ok false => Revert "Invalid attestation"
      | Revert reason => Revert reason
      end
    else Revert "Task deadline passed".
Proof.
  intros (Ht & Hagent & _ & Hact & _). unfold releaseWithProof.
  rewrite (task_at_Some _ _ _ Ht), Hact.
  apply N.eqb_neq in Hagent. rewrite Hagent. cbn [negb status_eqb require mbind result_bind].
  destruct (timestamp msg <=? deadline t)%N; [| reflexivity].
  cbn [require mbind result_bind].
  destruct (_verifyAttestation P (escrow c) id uid sig (serviceProvider t)) as [[|] | m];
    reflexivity.
Qed.

Lemma pays_result (c : Chain) (id : N) (s : TaskStatus) (recipient v : N) (marker : Event)
    (c' : Chain) (ev : list Event) (t : EscrowTask) :
  tasks (escrow c) !! id = Some t ->
  pays c id s recipient v marker c' ev ->
  tasks (escrow c') !! id = Some (with_status s t) /\
  (forall j, j <> id -> tasks (escrow c') !! j = tasks (escrow c) !! j) /\
  ev = [Token (MockMNEE.Transfer (this c) recipient v); marker] /\
  (recipient <> this c ->
     MockMNEE.balanceOf (mneeToken c') (this c)
       = (MockMNEE.balanceOf (mneeToken c) (this c) - v)%N /\
     MockMNEE.balanceOf (mneeToken c') recipient
       = wrap (MockMNEE.balanceOf (mneeToken c) recipient + v)).
Proof.
  intros Ht (tok & Htr & -> & ->). cbn [escrow set_status set_tasks tasks mneeToken].
  rewrite (task_at_Some _ _ _ Ht), lookup_insert_eq.
  repeat split.
  - intros j Hj. apply lookup_insert_ne. congruence.
  - apply (_transfer_balances _ _ _ _ _ _ Htr). congruence.
  - apply (_transfer_balances _ _ _ _ _ _ Htr). congruence.
Qed.

Lemma may_refund_spec (msg : Msg) (t : EscrowTask) :
  may_refund msg t = true <-> sender msg = agent t \/ autoRefund t = true.
Proof. unfold may_refund. rewrite orb_true_iff, N.eqb_eq. tauto. Qed.

Lemma refund_early (c : Chain) (msg : Msg) (id : N) (t : EscrowTask) :
  held c id t ->
  sender msg = agent t \/ autoRefund t = true ->
  (timestamp msg <= deadline t)%N ->
  refund msg id c = Revert "Deadline not passed".
Proof.
  intros Hheld Ha Hd. rewrite (refund_held c msg id t Hheld).
  apply may_refund_spec in Ha. rewrite Ha.
  destruct (N.ltb_spec (deadline t) (timestamp msg)); [lia | reflexivity].
Qed.

Lemma refund_late (c : Chain) (msg : Msg) (id : N) (t : EscrowTask) :
  held c id t ->
  sender msg = agent t \/ autoRefund t = true ->
  (deadline t < timestamp msg)%N ->
  exists c' ev, refund msg id c = Ok (c', ev).
Proof.
  intros Hheld Ha Hd. rewrite (refund_held c msg id t Hheld).
  apply may_refund_spec in Ha. rewrite Ha. apply N.ltb_lt in Hd. rewrite Hd.
  destruct Hheld as (Ht & Hagent & Hprov & Hact & Hthis & Hbal).
  destruct (settle_succeeds msg c id Refunded (agent t) (amount t)
              (TaskRefunded id (agent t) (amount t)) Hthis Hagent Hbal)
    as (c' & ev & Hok & _).
  exists c', ev. exact Hok.
Qed.

Lemma refund_needs (c : Chain) (msg : Msg) (id : N) (t : EscrowTask) (c' : Chain)
    (ev : list Event) :
  tasks (escrow c) !! id = Some t ->
  refund msg id c = Ok (c', ev) ->
  (deadline t < timestamp msg)%N /\ (sender msg = agent t \/ autoRefund t = true) /\
  pays c id Refunded (agent t) (amount t) (TaskRefunded id (agent t) (amount t)) c' ev.
Proof.
  intros Ht Hok. apply refund_Ok in Hok. cbv zeta in Hok.
  rewrite (task_at_Some _ _ _ Ht) in Hok. tauto.
Qed.


Lemma release_succeeds (c : Chain) (msg : Msg) (id uid : N) (sig : list N)
    (t : EscrowTask) :
  held c id t ->
  (timestamp msg <= deadline t)%N ->
  _verifyAttestation P (escrow c) id uid sig (serviceProvider t) = Ok true ->
  exists c' ev,
    releaseWithProof P msg id uid sig c = Ok (c', ev) /\
    tasks (escrow c') !! id = Some (with_status Completed t) /\
    ev = [Token (MockMNEE.Transfer (this c) (serviceProvider t) (amount t));
          TaskCompleted id (serviceProvider t) uid].
Proof.
  intros Hheld Hd Hv. rewrite (releaseWithProof_held c msg id uid sig t Hheld), Hv.
  apply N.leb_le in Hd. rewrite Hd.
  destruct Hheld as (Ht & Hagent & Hprov & Hact & Hthis & Hbal).
  destruct (settle_succeeds msg c id Completed (serviceProvider t) (amount t)
              (TaskCompleted id (serviceProvider t) uid) Hthis Hprov Hbal)
    as (c' & ev & Hok & Hpay).
  exists c', ev. split; [exact Hok |].
  destruct (pays_result _ _ _ _ _ _ _ _ _ Ht Hpay) as (H1 & _ & H2 & _). auto.
Qed.

(** C6. At the deadline instant the two ways out split. On the contract, for
    an Active task in custody at [block.timestamp = deadline]: a release with
    a valid attestation goes through and completes the task (the bound is
    inclusive), while a refund by an authorised caller reverts with
    "Deadline not passed" and no refund by anyone goes through (the bound is
    strict); one second later it is the other way round. The route makes the
    same split on the off-chain record: at [now = deadline] POST completes an
    ACTIVE task and PUT answers "Deadline has not passed yet" (for a request
    none of whose awaited calls rejects). *)
Theorem deadline_boundary (c : Chain) (msg : Msg) (id uid : N) (sig : list N)
    (t : EscrowTask) :
  held c id t ->
  timestamp msg = deadline t ->
  (_verifyAttestation P (escrow c) id uid sig (serviceProvider t) = Ok true ->
     exists c' ev,
       releaseWithProof P msg id uid sig c = Ok (c', ev) /\
       tasks (escrow c') !! id = Some (with_status Completed t)) /\
  (sender msg = agent t \/ autoRefund t = true ->
     refund msg id c = Revert "Deadline not passed") /\
  (forall c' ev, refund msg id c <> Ok (c', ev)) /\
  (let later := {| sender := sender msg; timestamp := deadline t + 1 |} in
   releaseWithProof P later id uid sig c = Revert "Task deadline passed" /\
   (sender msg = agent t \/ autoRefund t = true ->
      exists c' ev, refund later id c = Ok (c', ev))) /\
  (forall (req : EscrowRoute.Request) (db : EscrowRoute.Db)
          (row : EscrowRoute.EscrowTransaction) (tid u : string),
     EscrowRoute.thrown req = None ->
     EscrowRoute.body_taskId req = Some tid -> tid <> ""%string ->
     EscrowRoute.escrowTransaction db !! tid = Some row ->
     EscrowRoute.status row = EscrowRoute.ACTIVE ->
     EscrowRoute.checked_at req = EscrowRoute.deadline row ->
     (EscrowRoute.PUT req db = (db, EscrowRoute.Failure 400 "Deadline has not passed yet")) /\
     (EscrowRoute.body_attestationUID req = Some u -> u <> ""%string ->
        exists row',
          (EscrowRoute.POST req db).2
            = EscrowRoute.Success row' "Escrow funds released to provider" /\
          EscrowRoute.status row' = EscrowRoute.COMPLETED /\
          EscrowRoute.escrowTransaction (EscrowRoute.POST req db).1 !! tid = Some row')).
Proof.
  intros Hheld Hnow.
  pose proof Hheld as (Ht & _).
  split.
  { intros Hv. destruct (release_succeeds c msg id uid sig t Hheld) as (c' & ev & H1 & H2 & _);
      [lia | exact Hv |]. eauto. }
  split; [intros Ha; apply (refund_early c msg id t Hheld Ha); lia |].
  split.
  { intros c' ev Hok. destruct (refund_needs _ _ _ _ _ _ Ht Hok) as (Hd & _). lia. }
  split.
  { cbv zeta. split.
    - rewrite (releaseWithProof_held c _ id uid sig t Hheld). cbn [timestamp].
      destruct (N.leb_spec (deadline t + 1) (deadline t)); [lia | reflexivity].
    - intros Ha. apply (refund_late c _ id t Hheld); cbn [timestamp sender]; [exact Ha | lia]. }
  intros req db row tid u Hthrown Hid Hne Hrow Hact Hat.
  assert (Hfalsy : EscrowRoute.falsy (Some tid) = false).
  { simpl. apply String.eqb_neq. exact Hne. }
  split.
  - unfold EscrowRoute.PUT, EscrowRoute.respond, EscrowRoute.PUT_handler.
    cbn [EscrowRoute.try_body EscrowRoute.catch_event EscrowRoute.catch_response].
    rewrite Hthrown, Hid, Hfalsy.
    cbn [from_option Datatypes.id EscrowRoute.run EscrowRoute.rejects].
    rewrite Hrow, Hact, Hat.
    cbn [EscrowRoute.is_ACTIVE negb]. rewrite Z.leb_refl. reflexivity.
  - intros Hu Hune.
    assert (Hfalsy' : EscrowRoute.falsy (Some u) = false).
    { simpl. apply String.eqb_neq. exact Hune. }
    unfold EscrowRoute.POST, EscrowRoute.respond, EscrowRoute.POST_handler.
    cbn [EscrowRoute.try_body EscrowRoute.catch_event EscrowRoute.catch_response].
    rewrite Hthrown, Hid, Hu, Hfalsy, Hfalsy'.
    cbn [from_option Datatypes.id orb EscrowRoute.run EscrowRoute.rejects].
    rewrite Hrow, Hact, Hat. cbn [EscrowRoute.is_ACTIVE negb]. rewrite Z.ltb_irrefl.
    cbn [EscrowRoute.run EscrowRoute.rejects]. rewrite Hrow.
    cbn [EscrowRoute.run EscrowRoute.rejects].
    eexists. cbn [fst snd EscrowRoute.escrowTransaction EscrowRoute.log EscrowRoute.set_row].
    rewrite lookup_insert_eq. repeat split.
Qed.

(** *** Attestations *)

(** C8. A release whose attestation does not verify changes nothing: the
    transaction reverts, so the task is still Active and its amount is still
    in the escrow's custody, and no transfer is made. For an Active task
    within its deadline the revert reason is "Invalid attestation" whenever
    the verification answers no. The empty attestation (no signature, zero
    identifier) does not verify, and neither does a 65-byte signature whose
    recovered signer is not the attestation provider; a signature of any
    other length is refused by the signature check itself. The route, which
    verifies nothing else, refuses an empty attestation identifier in a body
    that parses, and leaves the record as it was. *)
Theorem invalid_attestation_rejected (c : Chain) (msg : Msg) (id uid : N)
    (sig : list N) (t : EscrowTask) :
  held c id t ->
  (timestamp msg <= deadline t)%N ->
  _verifyAttestation P (escrow c) id uid sig (serviceProvider t) <> Ok true ->
  let tx := {| tx_msg := msg; tx_call := ReleaseWithProof id uid sig |} in
  (exists reason,
     releaseWithProof P msg id uid sig c = Revert reason /\
     run P [tx] c = (c, [(tx, Revert reason)]) /\
     (_verifyAttestation P (escrow c) id uid sig (serviceProvider t) = Ok false ->
        reason = "Invalid attestation"%string)) /\
  held (run P [tx] c).1 id t /\
  payouts (this c) id (run P [tx] c).2 = [] /\
  _verifyAttestation P (escrow c) id 0 [] (serviceProvider t) = Ok false /\
  (length sig = 65%nat ->
     ecrecover P (attestation_hash P id uid (serviceProvider t)) (nth 64 sig 0%N)
       (be_uint (take 32 sig)) (be_uint (take 32 (drop 32 sig)))
       <> attestationProvider (escrow c) ->
     _verifyAttestation P (escrow c) id uid sig (serviceProvider t) = Ok false) /\
  (length sig <> 0%nat -> length sig <> 65%nat ->
     releaseWithProof P msg id uid sig c = Revert "Invalid signature length") /\
  (forall (req : EscrowRoute.Request) (db : EscrowRoute.Db),
     (forall text, EscrowRoute.thrown req <> Some (EscrowRoute.req_json, text)) ->
     EscrowRoute.falsy (EscrowRoute.body_attestationUID req) = true ->
     EscrowRoute.POST req db
       = (db, EscrowRoute.Failure 400 "Missing taskId or attestationUID")).
Proof.
  intros Hheld Hd Hv tx.
  pose proof (releaseWithProof_held c msg id uid sig t Hheld) as Hrun.
  apply N.leb_le in Hd. rewrite Hd in Hrun.
  assert (Hrev : exists reason,
            releaseWithProof P msg id uid sig c = Revert reason /\
            (_verifyAttestation P (escrow c) id uid sig (serviceProvider t) = Ok false ->
               reason = "Invalid attestation"%string)).
  { destruct (_verifyAttestation P (escrow c) id uid sig (serviceProvider t))
      as [[|] | m] eqn:Hver.
    - congruence.
    - exists "Invalid attestation"%string. auto.
    - exists m. split; [exact Hrun | discriminate]. }
  destruct Hrev as (reason & Hrel & Hwhy).
  assert (Hone : run P [tx] c = (c, [(tx, Revert reason)])).
  { unfold tx. simpl. unfold exec. cbn [tx_msg tx_call]. rewrite Hrel. reflexivity. }
  split; [exists reason; auto |].
  rewrite Hone. cbn [fst snd].
  split; [exact Hheld |].
  split; [reflexivity |].
  split; [reflexivity |].
  split.
  { intros Hlen Hsigner. unfold _verifyAttestation, _recoverSigner. rewrite Hlen.
    cbn. apply N.eqb_neq in Hsigner. rewrite Hsigner. reflexivity. }
  split.
  { intros Hlen0 Hlen65. rewrite Hrun. unfold _verifyAttestation, _recoverSigner.
    destruct (Nat.ltb_spec 0 (length sig)); [| lia].
    destruct (Nat.eqb_spec (length sig) 65); [lia | reflexivity]. }
  intros req db Hjson Hf.
  unfold EscrowRoute.POST, EscrowRoute.respond, EscrowRoute.POST_handler.
  cbn [EscrowRoute.try_body EscrowRoute.run]. rewrite Hf, orb_true_r.
  assert (Hparsed : EscrowRoute.rejects (EscrowRoute.thrown req) EscrowRoute.req_json = None).
  { destruct (EscrowRoute.thrown req) as [[a text] |]; cbn; [| reflexivity].
    case_decide; [subst a; destruct (Hjson text); reflexivity | reflexivity]. }
  rewrite Hparsed. reflexivity.
Qed.

End EscrowCalls.

(** ** The escrow on a small chain *)
Section EscrowExamples.
Import Evm MneeEscrow.

(** Stand-ins for the hash functions and for signature recovery. *)
Definition ex_primitives : Primitives :=
  {| task_hash := fun _ _ _ _ _ => 7%N;
     attestation_hash := fun id uid provider => (id + uid + provider)%N;
     ecrecover := fun _ _ r _ => r |}.

(** The escrow lives at address 99 and is owned by 1; the attestation
    provider is 5; the agent 10 holds the initial supply; 20 is a provider
    and 30 a third party. *)
Definition ex_deployed : Chain :=
  {| this := 99;
     escrow := {| owner := 1; taskCompletionSchemaUID := 0; attestationProvider := 5;
                  tasks := ∅; agentTasks := ∅; providerTasks := ∅ |};
     mneeToken := {| MockMNEE._totalSupply := 1000000000000;
                     MockMNEE._balances := {[ 10%N := 1000000000000%N ]};
                     MockMNEE._allowances := ∅;
                     MockMNEE.lastFaucetTime := ∅ |} |}.

Definition ex_tx (who time : N) (call : Call) : Tx :=
  {| tx_msg := {| sender := who; timestamp := time |}; tx_call := call |}.

(** Scenario B: 500 tokens locked at time 1000 for 72 hours, with
    [autoRefund]. *)
Definition ex_lock : list Tx :=
  [ ex_tx 10 1000 (TokenApprove 99 500000000);
    ex_tx 10 1000 (LockFunds 20 500000000 260200 "Build landing page" true) ].

Definition ex_locked : Chain := (run ex_primitives ex_lock ex_deployed).1.

Definition ex_task : EscrowTask :=
  {| agent := 10; serviceProvider := 20; amount := 500000000; deadline := 260200;
     status := Active; taskId := 7; taskDescription := "Build landing page";
     autoRefund := true |}.

Lemma ex_locked_held : held ex_locked 7 ex_task.
Proof.
  unfold held. split; [reflexivity |].
  repeat split; discriminate.
Qed.

Example scenario_B :
  (run ex_primitives
     [ ex_tx 30 1000 (Refund 7); ex_tx 30 260201 (Refund 7); ex_tx 10 260202 (Refund 7) ]
     ex_locked).2
  = [ (ex_tx 30 1000 (Refund 7), Revert "Deadline not passed");
      (ex_tx 30 260201 (Refund 7),
       Ok [Token (MockMNEE.Transfer 99 10 500000000); TaskRefunded 7 10 500000000]);
      (ex_tx 10 260202 (Refund 7), Revert "Task not active") ].
Proof. vm_compute. reflexivity. Qed.

Example scenario_C :
  run ex_primitives [ex_tx 20 2000 (ReleaseWithProof 7 0 [])] ex_locked
  = (ex_locked, [(ex_tx 20 2000 (ReleaseWithProof 7 0 []), Revert "Invalid attestation")]).
Proof. vm_compute. reflexivity. Qed.

Lemma escrow_settles_once_witness :
  tasks (escrow ex_deployed) = ∅ /\
  payouts 99 7
    (run ex_primitives
       (ex_lock ++ [ ex_tx 20 2000 (ReleaseWithProof 7 1 []); ex_tx 10 260201 (Refund 7) ])
       ex_deployed).2
  = [(20%N, 500000000%N)].
Proof.
  assert (Hempty : tasks (escrow ex_deployed) = ∅) by reflexivity.
  split; [exact Hempty |].
  pose proof (escrow_settles_once ex_primitives ex_deployed
                (ex_lock ++ [ ex_tx 20 2000 (ReleaseWithProof 7 1 []);
                              ex_tx 10 260201 (Refund 7) ])
                [] 7 Hempty) as [Hpaid _].
  cbn [this ex_deployed] in Hpaid. rewrite Hpaid. reflexivity.
Defined.


Lemma deadline_boundary_witness :
  held ex_locked 7 ex_task /\
  timestamp {| sender := 30; timestamp := 260200 |} = deadline ex_task /\
  (exists c' ev,
     releaseWithProof ex_primitives {| sender := 30; timestamp := 260200 |} 7 1 [] ex_locked
       = Ok (c', ev) /\
     tasks (escrow c') !! 7%N = Some (with_status Completed ex_task)) /\
  refund {| sender := 30; timestamp := 260200 |} 7 ex_locked = Revert "Deadline not passed".
Proof.
  split; [exact ex_locked_held |].
  split; [reflexivity |].
  pose proof (deadline_boundary ex_primitives ex_locked {| sender := 30; timestamp := 260200 |}
                7 1 [] ex_task ex_locked_held eq_refl) as (Hrelease & Hrefund & _).
  split; [apply Hrelease; reflexivity | apply Hrefund; right; reflexivity].
Defined.

Lemma invalid_attestation_rejected_witness :
  held ex_locked 7 ex_task /\
  (timestamp {| sender := 20; timestamp := 2000 |} <= deadline ex_task)%N /\
  _verifyAttestation ex_primitives (escrow ex_locked) 7 0 [] (serviceProvider ex_task)
    <> Ok true /\
  run ex_primitives [ex_tx 20 2000 (ReleaseWithProof 7 0 [])] ex_locked
  = (ex_locked, [(ex_tx 20 2000 (ReleaseWithProof 7 0 []), Revert "Invalid attestation")]).
Proof.
  assert (Hd : (timestamp {| sender := 20; timestamp := 2000 |} <= deadline ex_task)%N)
    by discriminate.
  assert (Hv : _verifyAttestation ex_primitives (escrow ex_locked) 7 0 []
                 (serviceProvider ex_task) <> Ok true) by discriminate.
  split; [exact ex_locked_held |].
  split; [exact Hd |].
  split; [exact Hv |].
  pose proof (invalid_attestation_rejected ex_primitives ex_locked
                {| sender := 20; timestamp := 2000 |} 7 0 [] ex_task ex_locked_held Hd Hv)
    as ((reason & _ & Hrun & Hwhy) & _).
  rewrite (Hwhy eq_refl) in Hrun. exact Hrun.
Defined.

(** [emergencyWithdraw] asks for no task state: the owner can take the
    escrow's whole balance while task 7 is Active, and the task can then be
    neither refunded nor released until the escrow holds tokens again. *)
Example emergency_withdraw_while_active :
  (run ex_primitives
     [ ex_tx 1 3000 EmergencyWithdraw; ex_tx 10 260201 (Refund 7) ] ex_locked).2
  = [ (ex_tx 1 3000 EmergencyWithdraw, Ok [Token (MockMNEE.Transfer 99 1 500000000)]);
      (ex_tx 10 260201 (Refund 7), Revert "ERC20: insufficient balance") ] /\
  status <$> tasks (escrow (run ex_primitives
     [ ex_tx 1 3000 EmergencyWithdraw; ex_tx 10 260201 (Refund 7) ] ex_locked).1) !! 7%N
  = Some Active.
Proof. vm_compute. split; reflexivity. Qed.

End EscrowExamples.

(** ** The route's own guards *)
Section RouteFacts.
Import EscrowRoute.

(** X23. On a request none of whose awaited calls rejects, the refund
    handler closes a stored record exactly when the record is ACTIVE and its
    deadline is strictly in the past: the record is then stored as REFUNDED
    with [refundedAt] set and its other columns as they were, one
    [escrow.refunded] event is logged and the updated record is returned.
    Otherwise nothing is written and the answer is 400, with "Task is
    <status>, cannot refund" for a record that is not ACTIVE and "Deadline
    has not passed yet" for one whose deadline is not in the past. The
    handler reads neither the caller nor [autoRefund], and it moves no
    funds. *)
Lemma PUT_guard (req : Request) (db : Db) (tid : string) (row : EscrowTransaction) :
  thrown req = None ->
  body_taskId req = Some tid -> tid <> ""%string ->
  escrowTransaction db !! tid = Some row ->
  let refunded :=
    {| taskId := taskId row; agentAddress := agentAddress row;
       providerAddress := providerAddress row; amountFormatted := amountFormatted row;
       deadline := deadline row; autoRefund := autoRefund row;
       status := REFUNDED; attestationUID := attestationUID row;
       completedAt := completedAt row; refundedAt := Some (written_at req) |} in
  ((exists row', (PUT req db).2 = Success row' "Escrow funds refunded to agent") <->
   status row = ACTIVE /\ (deadline row < checked_at req)%Z) /\
  (status row = ACTIVE -> (deadline row < checked_at req)%Z ->
   PUT req db
   = ({| escrowTransaction := <[tid := refunded]> (escrowTransaction db);
         webhookEvent := webhookEvent db ++
           [escrow_refunded tid (agentAddress row) (amountFormatted row)] |},
      Success refunded "Escrow funds refunded to agent")) /\
  (status row <> ACTIVE ->
   PUT req db = (db, Failure 400 ("Task is " ++ lower (status row) ++ ", cannot refund"))) /\
  (status row = ACTIVE -> (checked_at req <= deadline row)%Z ->
   PUT req db = (db, Failure 400 "Deadline has not passed yet")).
Proof.
  intros Hthrown Hid Hne Hrow refunded.
  apply String.eqb_neq in Hne.
  assert (Hrun : PUT req db
    = if negb (is_ACTIVE (status row)) then
        (db, Failure 400 ("Task is " ++ lower (status row) ++ ", cannot refund"))
      else if (checked_at req <=? deadline row)%Z then
        (db, Failure 400 "Deadline has not passed yet")
      else
        ({| escrowTransaction := <[tid := refunded]> (escrowTransaction db);
            webhookEvent := webhookEvent db ++
              [escrow_refunded tid (agentAddress row) (amountFormatted row)] |},
         Success refunded "Escrow funds refunded to agent")).
  { unfold PUT, respond, PUT_handler. cbn [try_body catch_event catch_response].
    rewrite Hthrown, Hid. cbn [run rejects falsy]. rewrite Hne.
    cbn [from_option Datatypes.id run rejects]. rewrite Hrow.
    destruct (negb (is_ACTIVE (status row))); [reflexivity |].
    destruct (checked_at req <=? deadline row)%Z; [reflexivity |].
    cbn [run rejects]. rewrite Hrow. reflexivity. }
  rewrite Hrun. clear Hrun.
  destruct (status row) eqn:Hst; cbn [is_ACTIVE negb lower].
  2-4: (split; [split; [intros [row' H]; discriminate | intros [H _]; discriminate] |];
        split; [discriminate |]; split; [reflexivity | discriminate]).
  destruct (Z.leb_spec (checked_at req) (deadline row)) as [Hle | Hlt].
  - split; [split; [intros [row' H]; discriminate | intros [_ H]; lia] |].
    split; [intros _ H; lia |]. split; [congruence | reflexivity].
  - split; [split; [intros _; split; [reflexivity | lia] | intros _; eexists; reflexivity] |].
    split; [reflexivity |]. split; [congruence | intros _ H; lia].
Qed.

End RouteFacts.

Example toWei_doc : Utils.toWei "100.5" = Some 100500000%Z.
Proof. reflexivity. Qed.

Example fromWei_doc : Utils.fromWei 100500000 = "100.5"%string.
Proof. reflexivity. Qed.

(** [BigInt] trims white space, the no-break space included, and its
    SyntaxError quotes the text it refuses. *)
Example toWei_nbsp : Utils.toWei (String (Js.chr 160) "1") = Some 1000000%Z.
Proof. reflexivity. Qed.

Example toWei_refused :
  Utils.toWei "abc" = None /\
  MneeClient.SyntaxError "abc" = "Cannot convert abc000000 to a BigInt"%string.
Proof. split; reflexivity. Qed.

(** ** Sums over a mapping *)
Section Totals.
Context {K : Type} `{Countable K} {A : Type}.
Variable f : A -> N.

Definition total_of (m : gmap K A) : N :=
  map_fold (fun _ x acc => (f x + acc)%N) 0%N m.

Lemma total_of_empty : total_of ∅ = 0%N.
Proof. apply map_fold_empty. Qed.

Lemma total_of_fresh (m : gmap K A) (k : K) (x : A) :
  m !! k = None -> total_of (<[k := x]> m) = (f x + total_of m)%N.
Proof.
  intros Hk. unfold total_of.
  rewrite (map_fold_insert_L (fun _ y acc => (f y + acc)%N) 0%N k x m); [reflexivity | | exact Hk].
  intros. lia.
Qed.

Lemma total_of_delete (m : gmap K A) (k : K) (x : A) :
  m !! k = Some x -> total_of m = (f x + total_of (delete k m))%N.
Proof.
  intros Hk. unfold total_of.
  rewrite (map_fold_delete_L (fun _ y acc => (f y + acc)%N) 0%N k x m); [reflexivity | | exact Hk].
  intros. lia.
Qed.

Lemma total_of_insert (m : gmap K A) (k : K) (x : A) :
  (total_of (<[k := x]> m) + from_option f 0 (m !! k) = f x + total_of m)%N.
Proof.
  destruct (m !! k) as [y |] eqn:Hk; cbn [from_option].
  - rewrite <- insert_delete_eq, total_of_fresh by apply lookup_delete_eq.
    rewrite (total_of_delete m k y Hk). lia.
  - rewrite total_of_fresh by exact Hk. lia.
Qed.

Lemma total_of_lookup (m : gmap K A) (k : K) (x : A) :
  m !! k = Some x -> (f x <= total_of m)%N.
Proof. intros Hk. rewrite (total_of_delete m k x Hk). lia. Qed.

End Totals.

(** ** The token ledger: supply and balances *)
Section TokenLedger.
Import Evm MockMNEE.

Definition sum_balances (st : State) : N := total_of (fun v : N => v) (_balances st).

(** The balances add up to the total supply, which fits a [uint256]. *)
Definition supply_ok (st : State) : Prop :=
  sum_balances st = _totalSupply st /\ (_totalSupply st < 2 ^ 256)%N.

Lemma balance_le_sum (st : State) (a : N) : (balanceOf st a <= sum_balances st)%N.
Proof.
  unfold balanceOf, sum_balances. destruct (_balances st !! a) as [v |] eqn:Ha.
  - apply (total_of_lookup (fun v : N => v) _ _ _ Ha).
  - cbn. lia.
Qed.

Lemma sum_set_balance (a v : N) (st : State) :
  (sum_balances (set_balance a v st) + balanceOf st a = v + sum_balances st)%N.
Proof.
  unfold sum_balances, set_balance, balanceOf. cbn [_balances].
  pose proof (total_of_insert (fun v : N => v) (_balances st) a v) as Hins.
  destruct (_balances st !! a); exact Hins.
Qed.

Lemma wrap_small (n : N) : (n < 2 ^ 256)%N -> wrap n = n.
Proof. intros Hn. unfold wrap. apply N.mod_small. exact Hn. Qed.

Lemma _transfer_exact (from to v : N) (st st' : State) (ev : list Event) :
  supply_ok st -> _transfer from to v st = Ok (st', ev) ->
  supply_ok st' /\
  _totalSupply st' = _totalSupply st /\ _allowances st' = _allowances st /\
  lastFaucetTime st' = lastFaucetTime st /\
  forall a, balanceOf st' a =
    ((if decide (a = from) then balanceOf st a - v else balanceOf st a)
     + (if decide (a = to) then v else 0))%N.
Proof.
  intros [Hsum Hcap] Htr. apply _transfer_Ok in Htr.
  destruct Htr as (_ & _ & Hv & _ & ->).
  set (st1 := set_balance from (balanceOf st from - v)%N st).
  pose proof (sum_set_balance from (balanceOf st from - v)%N st) as H1. fold st1 in H1.
  pose proof (balance_le_sum st1 to) as Hto.
  pose proof (balance_le_sum st from) as Hfrom.
  assert (Hfit : (balanceOf st1 to + v < 2 ^ 256)%N) by lia.
  rewrite (wrap_small _ Hfit).
  pose proof (sum_set_balance to (balanceOf st1 to + v)%N st1) as H2.
  split; [split; [| exact Hcap] |].
  - change (_totalSupply (set_balance to (balanceOf st1 to + v)%N st1)) with (_totalSupply st).
    lia.
  - repeat split. intros a. rewrite balanceOf_set_balance. unfold st1.
    rewrite !balanceOf_set_balance.
    repeat case_decide; subst; try congruence; lia.
Qed.

Lemma _mint_exact (a v : N) (st st' : State) (ev : list Event) :
  supply_ok st -> _mint a v st = Ok (st', ev) ->
  supply_ok st' /\ a <> 0%N /\
  _totalSupply st' = (_totalSupply st + v)%N /\ _allowances st' = _allowances st /\
  lastFaucetTime st' = lastFaucetTime st /\
  forall b, balanceOf st' b = (balanceOf st b + (if decide (b = a) then v else 0))%N.
Proof.
  intros [Hsum Hcap] Hm. unfold _mint in Hm.
  apply bind_Ok in Hm. destruct Hm as (? & Hz & Hm).
  apply bind_Ok in Hm. destruct Hm as (supply & Hadd & Hm).
  apply require_Ok, negb_true_iff, N.eqb_neq in Hz.
  unfold checked_add in Hadd.
  destruct (N.ltb_spec (_totalSupply st + v) (2 ^ 256)) as [Hlt | Hge]; [| discriminate].
  inversion Hadd; subst supply. clear Hadd.
  inversion Hm; subst. clear Hm.
  set (st1 := {| _totalSupply := (_totalSupply st + v)%N; _balances := _balances st;
                 _allowances := _allowances st; lastFaucetTime := lastFaucetTime st |}).
  assert (Hbal : forall b, balanceOf st1 b = balanceOf st b) by reflexivity.
  assert (Hsum1 : sum_balances st1 = sum_balances st) by reflexivity.
  pose proof (balance_le_sum st a) as Hle.
  assert (Hfit : (balanceOf st1 a + v < 2 ^ 256)%N) by (rewrite Hbal; lia).
  rewrite (wrap_small _ Hfit).
  pose proof (sum_set_balance a (balanceOf st1 a + v)%N st1) as H2.
  rewrite Hbal, Hsum1 in H2.
  split; [split |].
  - change (_totalSupply (set_balance a (balanceOf st1 a + v)%N st1))
      with (_totalSupply st + v)%N.
    rewrite Hbal. lia.
  - exact Hlt.
  - repeat split; [exact Hz |]. intros b. rewrite balanceOf_set_balance, !Hbal.
    repeat case_decide; subst; try congruence; lia.
Qed.

Lemma _approve_exact (o s v : N) (st st' : State) (ev : list Event) :
  _approve o s v st = Ok (st', ev) ->
  o <> 0%N /\ s <> 0%N /\
  st' = {| _totalSupply := _totalSupply st; _balances := _balances st;
           _allowances := <[(o, s) := v]> (_allowances st);
           lastFaucetTime := lastFaucetTime st |}.
Proof.
  unfold _approve. intros H.
  apply bind_Ok in H. destruct H as (? & H1 & H).
  apply bind_Ok in H. destruct H as (? & H2 & H).
  apply require_Ok, negb_true_iff, N.eqb_neq in H1.
  apply require_Ok, negb_true_iff, N.eqb_neq in H2.
  inversion H; subst. auto.
Qed.

Lemma allowance_insert (o s v o' s' : N) (st : State) :
  allowance {| _totalSupply := _totalSupply st; _balances := _balances st;
               _allowances := <[(o, s) := v]> (_allowances st);
               lastFaucetTime := lastFaucetTime st |} o' s'
  = if decide ((o, s) = (o', s')) then v else allowance st o' s'.
Proof.
  unfold allowance. cbn [_allowances]. rewrite lookup_insert.
  destruct (decide ((o, s) = (o', s'))); reflexivity.
Qed.

Lemma transferFrom_exact (msg : Msg) (from to v : N) (st st' : State) (ev : list Event) :
  supply_ok st -> transferFrom msg from to v st = Ok (st', ev) ->
  supply_ok st' /\ (v <= allowance st from (sender msg))%N /\
  _totalSupply st' = _totalSupply st /\
  lastFaucetTime st' = lastFaucetTime st /\
  (forall o s, allowance st' o s =
     if decide ((from, sender msg) = (o, s)) then (allowance st from (sender msg) - v)%N
     else allowance st o s) /\
  forall a, balanceOf st' a =
    ((if decide (a = from) then balanceOf st a - v else balanceOf st a)
     + (if decide (a = to) then v else 0))%N.
Proof.
  intros Hok H. unfold transferFrom in H. cbv zeta in H.
  apply bind_Ok in H. destruct H as (? & Hal & H).
  apply bind_Ok in H. destruct H as ([st1 ev1] & Hap & H).
  apply bind_Ok in H. destruct H as ([st2 ev2] & Htr & H).
  apply require_Ok, N.leb_le in Hal.
  apply _approve_exact in Hap. destruct Hap as (_ & _ & ->).
  inversion H; subst. clear H.
  apply _transfer_exact in Htr; [| exact Hok].
  destruct Htr as (Hok' & Hts & Hall & Hlf & Hbal).
  split; [exact Hok' |]. split; [exact Hal |]. split; [exact Hts |]. split; [exact Hlf |].
  split; [| exact Hbal].
  intros o s. unfold allowance at 1. rewrite Hall. apply allowance_insert.
Qed.

Lemma faucet_exact (msg : Msg) (st st' : State) (ev : list Event) :
  supply_ok st -> faucet msg st = Ok (st', ev) ->
  supply_ok st' /\
  (default 0%N (lastFaucetTime st !! sender msg) + FAUCET_COOLDOWN <= timestamp msg)%N /\
  _totalSupply st' = (_totalSupply st + FAUCET_AMOUNT)%N /\
  _allowances st' = _allowances st /\
  lastFaucetTime st' = <[sender msg := timestamp msg]> (lastFaucetTime st) /\
  forall b, balanceOf st' b =
    (balanceOf st b + (if decide (b = sender msg) then FAUCET_AMOUNT else 0))%N.
Proof.
  intros Hok H. unfold faucet in H.
  apply bind_Ok in H. destruct H as (next & Hnext & H).
  apply bind_Ok in H. destruct H as (? & Hwait & H).
  apply bind_Ok in H. destruct H as ([st2 ev2] & Hm & H).
  inversion H; subst. clear H.
  unfold checked_add in Hnext.
  destruct (_ <? _)%N; [| discriminate]. inversion Hnext; subst next.
  apply require_Ok, N.leb_le in Hwait.
  apply _mint_exact in Hm; [| exact Hok].
  destruct Hm as (Hok' & _ & Hts & Hall & Hlf & Hbal). auto 10.
Qed.

End TokenLedger.

(** ** The two contracts, one transaction at a time *)
Section EscrowLedger.
Import Evm MneeEscrow.
Variable P : Primitives.

Ltac peel H :=
  let a := fresh "x" in
  let Ha := fresh "Hx" in
  apply bind_Ok in H; destruct H as (a & Ha & H).

Definition with_token (tok : MockMNEE.State) (c : Chain) : Chain :=
  {| this := this c; escrow := escrow c; mneeToken := tok |}.

(** The storage [lockFunds] leaves behind. *)
Definition locked (msg : Msg) (p a d : N) (descr : string) (r : bool) (id : N)
    (st : Storage) : Storage :=
  {| owner := owner st; taskCompletionSchemaUID := taskCompletionSchemaUID st;
     attestationProvider := attestationProvider st;
     tasks := <[id := {| agent := sender msg; serviceProvider := p; amount := a;
                         deadline := d; status := Active; taskId := id;
                         taskDescription := descr; autoRefund := r |}]> (tasks st);
     agentTasks := <[sender msg := default [] (agentTasks st !! sender msg) ++ [id]]>
                     (agentTasks st);
     providerTasks := <[p := default [] (providerTasks st !! p) ++ [id]]>
                        (providerTasks st) |}.

(** What a transaction that went through did, entry point by entry point. *)
Definition outcome_of (tx : Tx) (c c' : Chain) : Prop :=
  let msg := tx_msg tx in
  match tx_call tx with
  | LockFunds p a d descr r =>
      let id := task_hash P (sender msg) p a (timestamp msg) descr in
      agent (task_at (escrow c) id) = 0%N /\ sender msg <> 0%N /\ p <> 0%N /\
      (0 < a)%N /\ (timestamp msg < d)%N /\
      exists tok tev,
        MockMNEE.transferFrom (as_escrow c msg) (sender msg) (this c) a (mneeToken c)
          = Ok (tok, tev) /\
        c' = {| this := this c; escrow := locked msg p a d descr r id (escrow c);
                mneeToken := tok |}
  | ReleaseWithProof id _ _ | Refund id | ResolveDispute id _ =>
      exists t s tok,
        tasks (escrow c) !! id = Some t /\
        guard_state (tx_call tx) = Some (status t) /\
        (s = Completed \/ s = Refunded) /\
        MockMNEE._transfer (this c) (recipient_of s t) (amount t) (mneeToken c)
          = Ok (tok, [MockMNEE.Transfer (this c) (recipient_of s t) (amount t)]) /\
        c' = with_token tok (set_status id s c)
  | Dispute id =>
      exists t,
        tasks (escrow c) !! id = Some t /\ status t = Active /\
        (sender msg = agent t \/ sender msg = serviceProvider t) /\
        c' = set_status id Disputed c
  | UpdateAttestationProvider p =>
      sender msg = owner (escrow c) /\ p <> 0%N /\
      c' = set_escrow
             {| owner := owner (escrow c);
                taskCompletionSchemaUID := taskCompletionSchemaUID (escrow c);
                attestationProvider := p; tasks := tasks (escrow c);
                agentTasks := agentTasks (escrow c);
                providerTasks := providerTasks (escrow c) |} c
  | UpdateSchemaUID u =>
      sender msg = owner (escrow c) /\
      c' = set_escrow
             {| owner := owner (escrow c); taskCompletionSchemaUID := u;
                attestationProvider := attestationProvider (escrow c);
                tasks := tasks (escrow c); agentTasks := agentTasks (escrow c);
                providerTasks := providerTasks (escrow c) |} c
  | EmergencyWithdraw =>
      sender msg = owner (escrow c) /\
      (0 < MockMNEE.balanceOf (mneeToken c) (this c))%N /\
      exists tok tev,
        MockMNEE._transfer (this c) (owner (escrow c))
          (MockMNEE.balanceOf (mneeToken c) (this c)) (mneeToken c) = Ok (tok, tev) /\
        c' = with_token tok c
  | TransferOwnership o =>
      sender msg = owner (escrow c) /\ o <> 0%N /\ c' = set_owner o c
  | RenounceOwnership =>
      sender msg = owner (escrow c) /\ c' = set_owner 0 c
  | TokenTransfer to v =>
      exists tok tev,
        MockMNEE._transfer (sender msg) to v (mneeToken c) = Ok (tok, tev) /\
        c' = with_token tok c
  | TokenApprove sp v =>
      exists tok tev,
        MockMNEE._approve (sender msg) sp v (mneeToken c) = Ok (tok, tev) /\
        c' = with_token tok c
  | TokenTransferFrom from to v =>
      exists tok tev,
        MockMNEE.transferFrom msg from to v (mneeToken c) = Ok (tok, tev) /\
        c' = with_token tok c
  | TokenFaucet =>
      exists tok tev,
        MockMNEE.faucet msg (mneeToken c) = Ok (tok, tev) /\ c' = with_token tok c
  | TokenMintForDemo to v =>
      exists tok tev,
        MockMNEE._mint to v (mneeToken c) = Ok (tok, tev) /\ c' = with_token tok c
  end.

Lemma pays_outcome (c : Chain) (id : N) (s : TaskStatus) (r v : N) (m : Event) (c' : Chain)
    (ev : list Event) :
  pays c id s r v m c' ev ->
  exists tok,
    MockMNEE._transfer (this c) r v (mneeToken c) = Ok (tok, [MockMNEE.Transfer (this c) r v]) /\
    c' = with_token tok (set_status id s c).
Proof. intros (tok & Htr & -> & _). exists tok. split; [exact Htr | reflexivity]. Qed.

Lemma exec_outcome (tx : Tx) (c c' : Chain) (ev : list Event) :
  exec P tx c = Ok (c', ev) -> outcome_of tx c c'.
Proof.
  unfold exec, outcome_of. destruct tx as [msg call]. cbn [tx_msg tx_call].
  destruct call; intros H.
  - peel H. destruct x as [[id c1] ev1]. inversion H; subst. clear H.
    unfold lockFunds in Hx.
    peel Hx. peel Hx. peel Hx. peel Hx. peel Hx. peel Hx. destruct x4 as [c2 ev2].
    apply require_Ok in Hx0, Hx1, Hx2, Hx4.
    apply negb_true_iff, N.eqb_neq in Hx0. apply N.ltb_lt in Hx1, Hx2. apply N.eqb_eq in Hx4.
    apply token_call_Ok in Hx5. destruct Hx5 as (tok & tev & Htr & -> & ->).
    inversion Hx; subst. clear Hx.
    pose proof (transferFrom_Ok _ _ _ _ _ _ _ Htr) as Hsender.
    repeat split; auto. exists tok, tev. split; [exact Htr | reflexivity].
  - apply releaseWithProof_Ok in H. cbv zeta in H.
    destruct H as (Ht & _ & Hst & _ & _ & Hpay). apply pays_outcome in Hpay.
    destruct Hpay as (tok & Htr & ->).
    exists (task_at (escrow c) _taskId), Completed, tok.
    cbn [guard_state]. rewrite Hst. auto 10.
  - apply refund_Ok in H. cbv zeta in H.
    destruct H as (Ht & _ & Hst & _ & _ & Hpay). apply pays_outcome in Hpay.
    destruct Hpay as (tok & Htr & ->).
    exists (task_at (escrow c) _taskId), Refunded, tok.
    cbn [guard_state]. rewrite Hst. auto 10.
  - apply dispute_Ok in H. cbv zeta in H.
    destruct H as (Ht & _ & Hst & Hwho & -> & _).
    exists (task_at (escrow c) _taskId). auto.
  - apply resolveDispute_Ok in H. cbv zeta in H.
    destruct H as (Ht & _ & Hst & Hpay). apply pays_outcome in Hpay.
    destruct Hpay as (tok & Htr & ->).
    exists (task_at (escrow c) _taskId), (if _releaseToProvider then Completed else Refunded), tok.
    cbn [guard_state]. rewrite Hst.
    destruct _releaseToProvider; auto 10.
  - unfold updateAttestationProvider, onlyOwner in H. peel H. peel H. inversion H; subst.
    apply require_Ok, N.eqb_eq in Hx. apply require_Ok, negb_true_iff, N.eqb_neq in Hx0.
    auto.
  - unfold updateSchemaUID, onlyOwner in H. peel H. inversion H; subst.
    apply require_Ok, N.eqb_eq in Hx. auto.
  - unfold emergencyWithdraw, onlyOwner in H. peel H. peel H.
    apply require_Ok, N.eqb_eq in Hx. apply require_Ok, N.ltb_lt in Hx0.
    apply token_call_Ok in H. destruct H as (tok & tev & Htr & -> & _).
    split; [auto |]. split; [exact Hx0 |]. exists tok, tev. split; [exact Htr | reflexivity].
  - unfold transferOwnership, onlyOwner in H. peel H. peel H. inversion H; subst.
    apply require_Ok, N.eqb_eq in Hx. apply require_Ok, negb_true_iff, N.eqb_neq in Hx0.
    auto.
  - unfold renounceOwnership, onlyOwner in H. peel H. inversion H; subst.
    apply require_Ok, N.eqb_eq in Hx. auto.
  - apply token_call_Ok in H. destruct H as (tok & tev & Htr & -> & _).
    exists tok, tev. split; [exact Htr | reflexivity].
  - apply token_call_Ok in H. destruct H as (tok & tev & Htr & -> & _).
    exists tok, tev. split; [exact Htr | reflexivity].
  - apply token_call_Ok in H. destruct H as (tok & tev & Htr & -> & _).
    exists tok, tev. split; [exact Htr | reflexivity].
  - apply token_call_Ok in H. destruct H as (tok & tev & Htr & -> & _).
    exists tok, tev. split; [exact Htr | reflexivity].
  - apply token_call_Ok in H. destruct H as (tok & tev & Htr & -> & _).
    exists tok, tev. split; [exact Htr | reflexivity].
Qed.

(** An invariant of the transactions that satisfy [allowed] holds along every
    sequence of them; a reverted transaction changes nothing. *)
Lemma run_invariant (Inv : Chain -> Prop) (allowed : Tx -> Prop) :
  (forall tx c c' ev, allowed tx -> Inv c -> exec P tx c = Ok (c', ev) -> Inv c') ->
  forall txs c, Forall allowed txs -> Inv c -> Inv (run P txs c).1.
Proof.
  intros Hstep txs. induction txs as [| tx rest IH]; intros c Hall Hinv; [exact Hinv |].
  inversion Hall as [| ? ? Htx Hrest]; subst.
  simpl. destruct (exec P tx c) as [[c1 ev] | reason] eqn:Hexec.
  - specialize (IH c1 Hrest (Hstep _ _ _ _ Htx Hinv Hexec)).
    destruct (run P rest c1) as [c2 h]. exact IH.
  - specialize (IH c Hrest Hinv). destruct (run P rest c) as [c2 h]. exact IH.
Qed.


(** *** The token under the escrow's transactions *)

Lemma exec_supply (tx : Tx) (c c' : Chain) (ev : list Event) :
  supply_ok (mneeToken c) -> exec P tx c = Ok (c', ev) -> supply_ok (mneeToken c').
Proof.
  intros Hok H. apply exec_outcome in H. unfold outcome_of in H.
  destruct tx as [msg call]. cbn [tx_msg tx_call] in H.
  destruct call.
  - destruct H as (_ & _ & _ & _ & _ & tok & tev & Htr & ->).
    apply (transferFrom_exact _ _ _ _ _ _ _ Hok Htr).
  - destruct H as (t & s & tok & _ & _ & _ & Htr & ->).
    apply (_transfer_exact _ _ _ _ _ _ Hok Htr).
  - destruct H as (t & s & tok & _ & _ & _ & Htr & ->).
    apply (_transfer_exact _ _ _ _ _ _ Hok Htr).
  - destruct H as (t & _ & _ & _ & ->). exact Hok.
  - destruct H as (t & s & tok & _ & _ & _ & Htr & ->).
    apply (_transfer_exact _ _ _ _ _ _ Hok Htr).
  - destruct H as (_ & _ & ->). exact Hok.
  - destruct H as (_ & ->). exact Hok.
  - destruct H as (_ & _ & tok & tev & Htr & ->).
    apply (_transfer_exact _ _ _ _ _ _ Hok Htr).
  - destruct H as (_ & _ & ->). exact Hok.
  - destruct H as (_ & ->). exact Hok.
  - destruct H as (tok & tev & Htr & ->). apply (_transfer_exact _ _ _ _ _ _ Hok Htr).
  - destruct H as (tok & tev & Htr & ->). apply _approve_exact in Htr.
    destruct Htr as (_ & _ & ->). exact Hok.
  - destruct H as (tok & tev & Htr & ->). apply (transferFrom_exact _ _ _ _ _ _ _ Hok Htr).
  - destruct H as (tok & tev & Htr & ->). apply (faucet_exact _ _ _ _ Hok Htr).
  - destruct H as (tok & tev & Htr & ->). apply (_mint_exact _ _ _ _ _ Hok Htr).
Qed.

Lemma constructor_supply (deployer : N) (st : MockMNEE.State) (ev : list MockMNEE.Event) :
  MockMNEE.constructor deployer = Ok (st, ev) -> supply_ok st.
Proof.
  unfold MockMNEE.constructor. intros H. eapply _mint_exact; [| exact H].
  split; [apply total_of_empty | reflexivity].
Qed.

(** X1. From the token's constructor on, through every sequence of
    transactions of the token and of the escrow, the balances add up to the
    total supply and the total supply stays below [2^256]; no balance ever
    exceeds the total supply, so the [unchecked] additions of [_transfer]
    and [_mint] never wrap. *)
Theorem supply_is_conserved (deployer : N) (c0 : Chain) (ev0 : list MockMNEE.Event)
    (txs : list Tx) :
  MockMNEE.constructor deployer = Ok (mneeToken c0, ev0) ->
  let tok := mneeToken (run P txs c0).1 in
  sum_balances tok = MockMNEE.totalSupply tok /\
  (MockMNEE.totalSupply tok < 2 ^ 256)%N /\
  forall a, (MockMNEE.balanceOf tok a <= MockMNEE.totalSupply tok)%N.
Proof.
  intros Hdeploy tok.
  assert (Hok : supply_ok tok).
  { apply (run_invariant (fun c => supply_ok (mneeToken c)) (fun _ => True)).
    - intros tx c c' ev _. apply exec_supply.
    - apply Forall_forall. auto.
    - apply (constructor_supply _ _ _ Hdeploy). }
  destruct Hok as [Hsum Hcap]. split; [exact Hsum |]. split; [exact Hcap |].
  intros a. unfold MockMNEE.totalSupply. rewrite <- Hsum. apply balance_le_sum.
Qed.

End EscrowLedger.

(** ** Custody: the escrow holds what it owes *)
Section EscrowCustody.
Import Evm MneeEscrow.
Variable P : Primitives.

(** What the escrow owes: the amounts of the tasks that are still open. *)
Definition open_amount (t : EscrowTask) : N :=
  match status t with
  | Active | Disputed => amount t
  | Completed | Refunded => 0
  end.

Definition obligations (c : Chain) : N := total_of open_amount (tasks (escrow c)).

(** Every stored task names an agent and a provider. *)
Definition tasks_named (c : Chain) : Prop :=
  forall id t, tasks (escrow c) !! id = Some t -> agent t <> 0%N /\ serviceProvider t <> 0%N.

(** The escrow has approved no spender, and it holds what it owes. *)
Definition solvent (c : Chain) : Prop :=
  supply_ok (mneeToken c) /\ tasks_named c /\
  (forall x, MockMNEE.allowance (mneeToken c) (this c) x = 0%N) /\
  (obligations c <= MockMNEE.balanceOf (mneeToken c) (this c))%N.

(** A transaction sent by an account other than the escrow itself, and not
    the owner's [emergencyWithdraw]. *)
Definition ordinary (escrowAddress : N) (tx : Tx) : Prop :=
  sender (tx_msg tx) <> escrowAddress /\ tx_call tx <> EmergencyWithdraw.

Lemma obligations_set_status (c : Chain) (id : N) (s : TaskStatus) (t : EscrowTask) :
  tasks (escrow c) !! id = Some t ->
  (obligations (set_status id s c) + open_amount t
   = open_amount (with_status s t) + obligations c)%N.
Proof.
  intros Ht. unfold obligations, set_status. cbn [escrow set_tasks tasks].
  rewrite (task_at_Some _ _ _ Ht).
  pose proof (total_of_insert open_amount (tasks (escrow c)) id (with_status s t)) as Hins.
  rewrite Ht in Hins. exact Hins.
Qed.

Lemma tasks_named_set_status (c : Chain) (id : N) (s : TaskStatus) (t : EscrowTask)
    (tok : MockMNEE.State) :
  tasks (escrow c) !! id = Some t -> tasks_named c ->
  tasks_named (with_token tok (set_status id s c)).
Proof.
  intros Ht Hn j u. cbn [with_token set_status escrow set_tasks tasks].
  rewrite (task_at_Some _ _ _ Ht), lookup_insert.
  destruct (decide (id = j)); [intros [= <-]; apply (Hn _ _ Ht) | apply Hn].
Qed.

Lemma solvent_step (tx : Tx) (c c' : Chain) (ev : list Event) :
  ordinary (this c) tx -> solvent c -> exec P tx c = Ok (c', ev) -> solvent c'.
Proof.
  intros [Hsender Hcall] (Hok & Hnamed & Hnone & Hhold) Hexec.
  pose proof (exec_supply P _ _ _ _ Hok Hexec) as Hok'.
  apply exec_outcome in Hexec. unfold outcome_of in Hexec.
  destruct tx as [msg call]. cbn [tx_msg tx_call] in *.
  split; [exact Hok' |]. clear Hok'.
  destruct call.
  - (* lockFunds *)
    destruct Hexec as (Hfree & Hs & Hp & _ & _ & tok & tev & Htr & ->).
    apply (transferFrom_exact _ _ _ _ _ _ _ Hok) in Htr.
    destruct Htr as (_ & _ & _ & _ & Hall & Hbal).
    cbn [as_escrow sender] in Hall.
    cbn [this escrow mneeToken]. split; [| split].
    + unfold tasks_named, locked. cbn [escrow tasks]. intros j u. rewrite lookup_insert.
      destruct (decide (_ = j)); [intros [= <-]; cbn; auto | apply Hnamed].
    + intros x. rewrite Hall. case_decide as Heq; [| apply Hnone].
      inversion Heq. congruence.
    + rewrite Hbal. unfold obligations, locked. cbn [escrow tasks].
      match goal with |- context [total_of _ (<[?i := ?u]> _)] =>
        pose proof (total_of_insert open_amount (tasks (escrow c)) i u) as Hins end.
      cbn [open_amount status amount] in Hins.
      unfold obligations in Hhold.
      repeat case_decide; try congruence; lia.
  - (* releaseWithProof *)
    destruct Hexec as (t & s & tok & Ht & Hg & Hs & Htr & ->).
    pose proof (_transfer_Ok _ _ _ _ _ _ Htr) as (_ & _ & Hv & _).
    apply (_transfer_exact _ _ _ _ _ _ Hok) in Htr.
    destruct Htr as (_ & _ & Hall & _ & Hbal).
    split; [exact (tasks_named_set_status _ _ _ _ _ Ht Hnamed) |].
    cbn [with_token set_status this mneeToken]. split.
    + intros x. unfold MockMNEE.allowance. rewrite Hall. apply Hnone.
    + rewrite Hbal. pose proof (obligations_set_status c _taskId s t Ht) as Hob.
      change (obligations (with_token tok (set_status _taskId s c)))
        with (obligations (set_status _taskId s c)).
      apply guard_state_open in Hg.
      assert (Hopen : open_amount t = amount t)
        by (unfold open_amount; destruct Hg as [-> | ->]; reflexivity).
      assert (Hclosed : open_amount (with_status s t) = 0%N)
        by (unfold open_amount; destruct Hs as [-> | ->]; reflexivity).
      change (obligations c <= MockMNEE.balanceOf (mneeToken c) (this c))%N in Hhold.
      repeat case_decide; try congruence; lia.
  - (* refund *)
    destruct Hexec as (t & s & tok & Ht & Hg & Hs & Htr & ->).
    pose proof (_transfer_Ok _ _ _ _ _ _ Htr) as (_ & _ & Hv & _).
    apply (_transfer_exact _ _ _ _ _ _ Hok) in Htr.
    destruct Htr as (_ & _ & Hall & _ & Hbal).
    split; [exact (tasks_named_set_status _ _ _ _ _ Ht Hnamed) |].
    cbn [with_token set_status this mneeToken]. split.
    + intros x. unfold MockMNEE.allowance. rewrite Hall. apply Hnone.
    + rewrite Hbal. pose proof (obligations_set_status c _taskId s t Ht) as Hob.
      change (obligations (with_token tok (set_status _taskId s c)))
        with (obligations (set_status _taskId s c)).
      apply guard_state_open in Hg.
      assert (Hopen : open_amount t = amount t)
        by (unfold open_amount; destruct Hg as [-> | ->]; reflexivity).
      assert (Hclosed : open_amount (with_status s t) = 0%N)
        by (unfold open_amount; destruct Hs as [-> | ->]; reflexivity).
      repeat case_decide; try congruence; lia.
  - (* dispute *)
    destruct Hexec as (t & Ht & Hact & _ & ->).
    split; [exact (tasks_named_set_status _ _ _ _ (mneeToken c) Ht Hnamed) |].
    split; [exact Hnone |].
    pose proof (obligations_set_status c _taskId Disputed t Ht) as Hob.
    assert (Hsame : open_amount (with_status Disputed t) = open_amount t)
      by (unfold open_amount; cbn; rewrite Hact; reflexivity).
    change (MockMNEE.balanceOf (mneeToken (set_status _taskId Disputed c))
              (this (set_status _taskId Disputed c)))
      with (MockMNEE.balanceOf (mneeToken c) (this c)).
    lia.
  - (* resolveDispute *)
    destruct Hexec as (t & s & tok & Ht & Hg & Hs & Htr & ->).
    pose proof (_transfer_Ok _ _ _ _ _ _ Htr) as (_ & _ & Hv & _).
    apply (_transfer_exact _ _ _ _ _ _ Hok) in Htr.
    destruct Htr as (_ & _ & Hall & _ & Hbal).
    split; [exact (tasks_named_set_status _ _ _ _ _ Ht Hnamed) |].
    cbn [with_token set_status this mneeToken]. split.
    + intros x. unfold MockMNEE.allowance. rewrite Hall. apply Hnone.
    + rewrite Hbal. pose proof (obligations_set_status c _taskId s t Ht) as Hob.
      change (obligations (with_token tok (set_status _taskId s c)))
        with (obligations (set_status _taskId s c)).
      apply guard_state_open in Hg.
      assert (Hopen : open_amount t = amount t)
        by (unfold open_amount; destruct Hg as [-> | ->]; reflexivity).
      assert (Hclosed : open_amount (with_status s t) = 0%N)
        by (unfold open_amount; destruct Hs as [-> | ->]; reflexivity).
      repeat case_decide; try congruence; lia.
  - destruct Hexec as (_ & _ & ->). split; [exact Hnamed | split; [exact Hnone | exact Hhold]].
  - destruct Hexec as (_ & ->). split; [exact Hnamed | split; [exact Hnone | exact Hhold]].
  - congruence.
  - destruct Hexec as (_ & _ & ->). split; [exact Hnamed | split; [exact Hnone | exact Hhold]].
  - destruct Hexec as (_ & ->). split; [exact Hnamed | split; [exact Hnone | exact Hhold]].
  - (* token transfer *)
    destruct Hexec as (tok & tev & Htr & ->).
    apply (_transfer_exact _ _ _ _ _ _ Hok) in Htr.
    destruct Htr as (_ & _ & Hall & _ & Hbal).
    split; [exact Hnamed |]. cbn [with_token this mneeToken]. split.
    + intros x. unfold MockMNEE.allowance. rewrite Hall. apply Hnone.
    + rewrite Hbal. change (obligations (with_token tok c)) with (obligations c).
      repeat case_decide; try congruence; lia.
  - (* token approve *)
    destruct Hexec as (tok & tev & Htr & ->).
    apply _approve_exact in Htr. destruct Htr as (_ & _ & ->).
    split; [exact Hnamed |]. cbn [with_token this mneeToken]. split.
    + intros x. rewrite allowance_insert. case_decide as Heq; [| apply Hnone].
      inversion Heq. congruence.
    + exact Hhold.
  - (* token transferFrom *)
    destruct Hexec as (tok & tev & Htr & ->).
    apply (transferFrom_exact _ _ _ _ _ _ _ Hok) in Htr.
    destruct Htr as (_ & Hle & _ & _ & Hall & Hbal).
    split; [exact Hnamed |]. cbn [with_token this mneeToken]. split.
    + intros x. rewrite Hall. case_decide as Heq; [| apply Hnone].
      inversion Heq; subst. rewrite Hnone. reflexivity.
    + rewrite Hbal. change (obligations (with_token tok c)) with (obligations c).
      destruct (decide (this c = from)) as [Heq | Hne].
      * subst from. rewrite Hnone in Hle.
        repeat case_decide; try congruence; lia.
      * repeat case_decide; try congruence; lia.
  - (* faucet *)
    destruct Hexec as (tok & tev & Htr & ->).
    apply (faucet_exact _ _ _ _ Hok) in Htr.
    destruct Htr as (_ & _ & _ & Hall & _ & Hbal).
    split; [exact Hnamed |]. cbn [with_token this mneeToken]. split.
    + intros x. unfold MockMNEE.allowance. rewrite Hall. apply Hnone.
    + rewrite Hbal. change (obligations (with_token tok c)) with (obligations c). lia.
  - (* mintForDemo *)
    destruct Hexec as (tok & tev & Htr & ->).
    apply (_mint_exact _ _ _ _ _ Hok) in Htr.
    destruct Htr as (_ & _ & _ & Hall & _ & Hbal).
    split; [exact Hnamed |]. cbn [with_token this mneeToken]. split.
    + intros x. unfold MockMNEE.allowance. rewrite Hall. apply Hnone.
    + rewrite Hbal. change (obligations (with_token tok c)) with (obligations c). lia.
Qed.


Lemma exec_this (tx : Tx) (c c' : Chain) (ev : list Event) :
  exec P tx c = Ok (c', ev) -> this c' = this c.
Proof. intros H. apply exec_effect in H. tauto. Qed.

Lemma run_solvent (c0 : Chain) (txs : list Tx) :
  solvent c0 -> Forall (ordinary (this c0)) txs ->
  this (run P txs c0).1 = this c0 /\ solvent (run P txs c0).1.
Proof.
  intros Hsolv Hall.
  apply (run_invariant P (fun c => this c = this c0 /\ solvent c) (ordinary (this c0))).
  - intros tx c c' ev Htx [Hthis Hc] Hexec. split.
    + rewrite (exec_this _ _ _ _ Hexec). exact Hthis.
    + rewrite <- Hthis in Htx. exact (solvent_step _ _ _ _ Htx Hc Hexec).
  - exact Hall.
  - split; [reflexivity | exact Hsolv].
Qed.

Lemma fresh_escrow_solvent (c0 : Chain) :
  tasks (escrow c0) = ∅ -> supply_ok (mneeToken c0) ->
  (forall x, MockMNEE.allowance (mneeToken c0) (this c0) x = 0%N) ->
  solvent c0.
Proof.
  intros Hempty Hok Hnone. split; [exact Hok |]. split; [| split; [exact Hnone |]].
  - intros id t. rewrite Hempty, lookup_empty. discriminate.
  - unfold obligations. rewrite Hempty, total_of_empty. lia.
Qed.

Lemma open_amount_held (c : Chain) (id : N) (t : EscrowTask) :
  solvent c -> tasks (escrow c) !! id = Some t ->
  status t = Active \/ status t = Disputed ->
  (amount t <= MockMNEE.balanceOf (mneeToken c) (this c))%N.
Proof.
  intros (_ & _ & _ & Hhold) Ht Hopen.
  pose proof (total_of_lookup open_amount _ _ _ Ht) as Hle.
  unfold obligations in Hhold.
  assert (Hamount : open_amount t = amount t)
    by (unfold open_amount; destruct Hopen as [-> | ->]; reflexivity).
  lia.
Qed.

Lemma resolveDispute_succeeds (c : Chain) (msg : Msg) (id : N) (b : bool) (t : EscrowTask) :
  tasks (escrow c) !! id = Some t -> status t = Disputed ->
  sender msg = owner (escrow c) ->
  this c <> 0%N -> agent t <> 0%N -> serviceProvider t <> 0%N ->
  (amount t <= MockMNEE.balanceOf (mneeToken c) (this c))%N ->
  exists c' ev,
    resolveDispute msg id b c = Ok (c', ev) /\
    tasks (escrow c') !! id = Some (with_status (if b then Completed else Refunded) t) /\
    ev = [Token (MockMNEE.Transfer (this c) (if b then serviceProvider t else agent t)
                   (amount t));
          if b then TaskCompleted id (serviceProvider t) 0
          else TaskRefunded id (agent t) (amount t)].
Proof.
  intros Ht Hst Hown Hthis Hagent Hprov Hbal.
  unfold resolveDispute, onlyOwner. rewrite (task_at_Some _ _ _ Ht), Hst, Hown, N.eqb_refl.
  cbn [require mbind result_bind status_eqb].
  assert (Hrec : (if b then serviceProvider t else agent t) <> 0%N) by (destruct b; assumption).
  destruct (settle_succeeds msg c id (if b then Completed else Refunded)
              (if b then serviceProvider t else agent t) (amount t)
              (if b then TaskCompleted id (serviceProvider t) 0
               else TaskRefunded id (agent t) (amount t)) Hthis Hrec Hbal)
    as (c' & ev & Hok & Hpay).
  exists c', ev. split; [exact Hok |].
  destruct (pays_result _ _ _ _ _ _ _ _ _ Ht Hpay) as (H1 & _ & H2 & _). auto.
Qed.

(** X4. From an escrow without tasks that has approved no spender, along
    every sequence of transactions sent by accounts other than the escrow
    itself and without [emergencyWithdraw]: the escrow's token balance
    covers the amounts of all tasks that are Active or Disputed, taken
    together, and the escrow still has approved no spender. *)
Theorem escrow_stays_solvent (c0 : Chain) (txs : list Tx) :
  tasks (escrow c0) = ∅ -> supply_ok (mneeToken c0) ->
  (forall x, MockMNEE.allowance (mneeToken c0) (this c0) x = 0%N) ->
  Forall (ordinary (this c0)) txs ->
  let c := (run P txs c0).1 in
  (obligations c <= MockMNEE.balanceOf (mneeToken c) (this c))%N /\
  (forall x, MockMNEE.allowance (mneeToken c) (this c) x = 0%N) /\
  forall id t, tasks (escrow c) !! id = Some t ->
    status t = Active \/ status t = Disputed ->
    (amount t <= MockMNEE.balanceOf (mneeToken c) (this c))%N.
Proof.
  intros Hempty Hok Hnone Hall c.
  destruct (run_solvent c0 txs (fresh_escrow_solvent c0 Hempty Hok Hnone) Hall)
    as [_ Hsolv].
  split; [apply Hsolv |]. split; [apply Hsolv |].
  intros id t. apply open_amount_held. exact Hsolv.
Qed.

(** X5. From an escrow at a non-zero address, without tasks and with no
    spender approved, along every sequence of transactions sent by accounts
    other than the escrow itself and without [emergencyWithdraw], no open
    task is stuck for lack of funds: an Active task can be refunded after
    its deadline by an authorised caller and released up to its deadline
    with an attestation that verifies, and a Disputed task can be resolved
    by the owner, either way. *)
Theorem open_task_can_settle (c0 : Chain) (txs : list Tx) (id : N) (t : EscrowTask) :
  tasks (escrow c0) = ∅ -> supply_ok (mneeToken c0) ->
  (forall x, MockMNEE.allowance (mneeToken c0) (this c0) x = 0%N) ->
  this c0 <> 0%N ->
  Forall (ordinary (this c0)) txs ->
  let c := (run P txs c0).1 in
  tasks (escrow c) !! id = Some t ->
  (status t = Active ->
     (forall msg, sender msg = agent t \/ autoRefund t = true ->
        (deadline t < timestamp msg)%N ->
        exists c' ev, refund msg id c = Ok (c', ev)) /\
     (forall msg uid sig, (timestamp msg <= deadline t)%N ->
        _verifyAttestation P (escrow c) id uid sig (serviceProvider t) = Ok true ->
        exists c' ev, releaseWithProof P msg id uid sig c = Ok (c', ev))) /\
  (status t = Disputed ->
     forall msg b, sender msg = owner (escrow c) ->
       exists c' ev, resolveDispute msg id b c = Ok (c', ev)).
Proof.
  intros Hempty Hok Hnone Hthis0 Hall c Ht.
  destruct (run_solvent c0 txs (fresh_escrow_solvent c0 Hempty Hok Hnone) Hall)
    as [Hthis Hsolv].
  fold c in Hthis, Hsolv.
  pose proof Hsolv as (_ & Hnamed & _ & _).
  destruct (Hnamed id t Ht) as [Hagent Hprov].
  assert (Hthis' : this c <> 0%N) by congruence.
  split.
  - intros Hact.
    assert (Hheld : held c id t).
    { repeat split; auto. apply (open_amount_held c id t Hsolv Ht). auto. }
    split.
    + intros msg Hauth Hlate. apply (refund_late c msg id t Hheld Hauth Hlate).
    + intros msg uid sig Hd Hv.
      destruct (release_succeeds P c msg id uid sig t Hheld Hd Hv) as (c' & ev & H1 & _).
      eauto.
  - intros Hdis msg b Hown.
    destruct (resolveDispute_succeeds c msg id b t Ht Hdis Hown Hthis' Hagent Hprov)
      as (c' & ev & H1 & _); [| eauto].
    apply (open_amount_held c id t Hsolv Ht). auto.
Qed.

End EscrowCustody.

(** ** The task lists of agents and providers *)
Section EscrowIndex.
Import Evm MneeEscrow.
Variable P : Primitives.

(** The two lists of task identifiers agree with the stored tasks. *)
Definition indexed (c : Chain) : Prop :=
  (forall id t, tasks (escrow c) !! id = Some t ->
     agent t <> 0%N /\ serviceProvider t <> 0%N /\ taskId t = id) /\
  (forall a id, id ∈ getAgentTasks c a <->
     exists t, tasks (escrow c) !! id = Some t /\ agent t = a) /\
  (forall p id, id ∈ getProviderTasks c p <->
     exists t, tasks (escrow c) !! id = Some t /\ serviceProvider t = p) /\
  (forall a, NoDup (getAgentTasks c a)) /\
  (forall p, NoDup (getProviderTasks c p)).

Lemma indexed_set_status (c : Chain) (id : N) (s : TaskStatus) (t : EscrowTask)
    (tok : MockMNEE.State) :
  tasks (escrow c) !! id = Some t -> indexed c ->
  indexed (with_token tok (set_status id s c)).
Proof.
  intros Ht (Hnamed & Hag & Hpr & Hnd1 & Hnd2).
  unfold indexed, getAgentTasks, getProviderTasks in *.
  cbn [with_token set_status escrow set_tasks tasks agentTasks providerTasks].
  rewrite (task_at_Some _ _ _ Ht).
  split; [| split; [| split; [| split; [exact Hnd1 | exact Hnd2]]]].
  - intros j u. rewrite lookup_insert.
    destruct (decide (id = j)); [intros [= <-]; subst; apply (Hnamed _ _ Ht) | apply Hnamed].
  - intros a j. rewrite Hag. split; intros (u & Hu & Ha).
    + destruct (decide (id = j)) as [-> | Hne].
      * exists (with_status s t). rewrite lookup_insert_eq. split; [reflexivity |].
        rewrite Ht in Hu. inversion Hu; subst. reflexivity.
      * exists u. rewrite lookup_insert_ne by exact Hne. auto.
    + rewrite lookup_insert in Hu. destruct (decide (id = j)) as [-> | Hne].
      * inversion Hu; subst. exists t. auto.
      * exists u. auto.
  - intros p j. rewrite Hpr. split; intros (u & Hu & Hp).
    + destruct (decide (id = j)) as [-> | Hne].
      * exists (with_status s t). rewrite lookup_insert_eq. split; [reflexivity |].
        rewrite Ht in Hu. inversion Hu; subst. reflexivity.
      * exists u. rewrite lookup_insert_ne by exact Hne. auto.
    + rewrite lookup_insert in Hu. destruct (decide (id = j)) as [-> | Hne].
      * inversion Hu; subst. exists t. auto.
      * exists u. auto.
Qed.

Lemma list_at_insert (m : gmap N (list N)) (k : N) (l : list N) (a : N) :
  default [] (<[k := l]> m !! a) = if decide (k = a) then l else default [] (m !! a).
Proof. rewrite lookup_insert. destruct (decide (k = a)); reflexivity. Qed.

Lemma indexed_locked (c : Chain) (msg : Msg) (p a d : N) (descr : string) (r : bool)
    (id : N) (tok : MockMNEE.State) :
  agent (task_at (escrow c) id) = 0%N -> sender msg <> 0%N -> p <> 0%N ->
  indexed c ->
  indexed {| this := this c; escrow := locked msg p a d descr r id (escrow c);
             mneeToken := tok |}.
Proof.
  intros Hfree Hs Hp (Hnamed & Hag & Hpr & Hnd1 & Hnd2).
  assert (Hnew : tasks (escrow c) !! id = None).
  { destruct (tasks (escrow c) !! id) as [t |] eqn:Ht; [| reflexivity].
    exfalso. destruct (Hnamed id t Ht) as [Hagent _]. apply Hagent.
    rewrite <- (task_at_Some _ _ _ Ht). exact Hfree. }
  assert (Hnot1 : forall x, id ∉ getAgentTasks c x).
  { intros x Hin. apply Hag in Hin. destruct Hin as (t & Ht & _). congruence. }
  assert (Hnot2 : forall x, id ∉ getProviderTasks c x).
  { intros x Hin. apply Hpr in Hin. destruct Hin as (t & Ht & _). congruence. }
  unfold indexed, getAgentTasks, getProviderTasks in *.
  cbn [escrow locked tasks agentTasks providerTasks].
  split; [| split; [| split; [| split]]].
  - intros j u. rewrite lookup_insert.
    destruct (decide (id = j)); [intros [= <-]; cbn; auto | apply Hnamed].
  - intros x j. rewrite list_at_insert. destruct (decide (sender msg = x)) as [<- | Hne].
    + rewrite elem_of_app, list_elem_of_singleton, Hag. split.
      * intros [(u & Hu & Ha) | ->].
        -- exists u. rewrite lookup_insert_ne by congruence. auto.
        -- eexists. rewrite lookup_insert_eq. split; reflexivity.
      * intros (u & Hu & Ha). rewrite lookup_insert in Hu.
        destruct (decide (id = j)) as [-> | Hnj]; [right; reflexivity | left; eauto].
    + rewrite Hag. split; intros (u & Hu & Ha).
      * exists u. rewrite lookup_insert_ne by congruence. auto.
      * rewrite lookup_insert in Hu. destruct (decide (id = j)) as [-> | Hnj].
        -- inversion Hu; subst. cbn in Hne. congruence.
        -- eauto.
  - intros x j. rewrite list_at_insert. destruct (decide (p = x)) as [<- | Hne].
    + rewrite elem_of_app, list_elem_of_singleton, Hpr. split.
      * intros [(u & Hu & Ha) | ->].
        -- exists u. rewrite lookup_insert_ne by congruence. auto.
        -- eexists. rewrite lookup_insert_eq. split; reflexivity.
      * intros (u & Hu & Ha). rewrite lookup_insert in Hu.
        destruct (decide (id = j)) as [-> | Hnj]; [right; reflexivity | left; eauto].
    + rewrite Hpr. split; intros (u & Hu & Ha).
      * exists u. rewrite lookup_insert_ne by congruence. auto.
      * rewrite lookup_insert in Hu. destruct (decide (id = j)) as [-> | Hnj].
        -- inversion Hu; subst. cbn in Hne. congruence.
        -- eauto.
  - intros x. rewrite list_at_insert. destruct (decide (sender msg = x)); [| apply Hnd1].
    apply NoDup_app. split; [apply Hnd1 |]. split; [| apply NoDup_singleton].
    intros j Hj Hj'. apply list_elem_of_singleton in Hj'. subst j. exact (Hnot1 _ Hj).
  - intros x. rewrite list_at_insert. destruct (decide (p = x)); [| apply Hnd2].
    apply NoDup_app. split; [apply Hnd2 |]. split; [| apply NoDup_singleton].
    intros j Hj Hj'. apply list_elem_of_singleton in Hj'. subst j. exact (Hnot2 _ Hj).
Qed.

Lemma indexed_step (tx : Tx) (c c' : Chain) (ev : list Event) :
  indexed c -> exec P tx c = Ok (c', ev) -> indexed c'.
Proof.
  intros Hidx Hexec. apply exec_outcome in Hexec. unfold outcome_of in Hexec.
  destruct tx as [msg call]. cbn [tx_msg tx_call] in Hexec.
  destruct call.
  - destruct Hexec as (Hfree & Hs & Hp & _ & _ & tok & tev & _ & ->).
    apply indexed_locked; assumption.
  - destruct Hexec as (t & s & tok & Ht & _ & _ & _ & ->).
    apply indexed_set_status with (t := t); assumption.
  - destruct Hexec as (t & s & tok & Ht & _ & _ & _ & ->).
    apply indexed_set_status with (t := t); assumption.
  - destruct Hexec as (t & Ht & _ & _ & ->).
    apply (indexed_set_status c _taskId Disputed t (mneeToken c) Ht Hidx).
  - destruct Hexec as (t & s & tok & Ht & _ & _ & _ & ->).
    apply indexed_set_status with (t := t); assumption.
  - destruct Hexec as (_ & _ & ->). exact Hidx.
  - destruct Hexec as (_ & ->). exact Hidx.
  - destruct Hexec as (_ & _ & tok & tev & _ & ->). exact Hidx.
  - destruct Hexec as (_ & _ & ->). exact Hidx.
  - destruct Hexec as (_ & ->). exact Hidx.
  - destruct Hexec as (tok & tev & _ & ->). exact Hidx.
  - destruct Hexec as (tok & tev & _ & ->). exact Hidx.
  - destruct Hexec as (tok & tev & _ & ->). exact Hidx.
  - destruct Hexec as (tok & tev & _ & ->). exact Hidx.
  - destruct Hexec as (tok & tev & _ & ->). exact Hidx.
Qed.

Lemma constructor_indexed (msg : Msg) (token provider : N) (c : Chain) :
  constructor msg token provider = Ok (escrow c) -> indexed c.
Proof.
  unfold constructor. intros H.
  apply bind_Ok in H. destruct H as (? & _ & H).
  apply bind_Ok in H. destruct H as (? & _ & H).
  inversion H as [Hst]. unfold indexed, getAgentTasks, getProviderTasks.
  rewrite <- Hst. cbn [tasks agentTasks providerTasks].
  split; [| split; [| split; [| split]]].
  - intros id t. rewrite lookup_empty. discriminate.
  - intros a id. rewrite lookup_empty. cbn. split.
    + intros Hin. inversion Hin.
    + intros (t & Ht & _). rewrite lookup_empty in Ht. discriminate.
  - intros a id. rewrite lookup_empty. cbn. split.
    + intros Hin. inversion Hin.
    + intros (t & Ht & _). rewrite lookup_empty in Ht. discriminate.
  - intros a. rewrite lookup_empty. apply NoDup_nil_2.
  - intros a. rewrite lookup_empty. apply NoDup_nil_2.
Qed.

(** X6. From the escrow's constructor on, after any sequence of
    transactions, the views agree: [getAgentTasks a] lists exactly the
    identifiers whose task, as [getTask] returns it, has the agent [a], and
    [getProviderTasks p] exactly those whose task has the provider [p], both
    without repetition; and a stored task carries its own identifier. *)
Theorem task_lists_match_tasks (deploy : Msg) (token provider : N) (c0 : Chain)
    (txs : list Tx) :
  constructor deploy token provider = Ok (escrow c0) ->
  let c := (run P txs c0).1 in
  (forall a id, id ∈ getAgentTasks c a <-> a <> 0%N /\ agent (getTask c id) = a) /\
  (forall p id, id ∈ getProviderTasks c p <->
     p <> 0%N /\ serviceProvider (getTask c id) = p) /\
  (forall a, NoDup (getAgentTasks c a)) /\
  (forall p, NoDup (getProviderTasks c p)) /\
  (forall id, agent (getTask c id) <> 0%N -> taskId (getTask c id) = id).
Proof.
  intros Hdeploy c.
  assert (Hidx : indexed c).
  { apply (run_invariant P indexed (fun _ => True)).
    - intros tx c1 c2 ev _. apply indexed_step.
    - apply Forall_forall. auto.
    - apply (constructor_indexed _ _ _ _ Hdeploy). }
  destruct Hidx as (Hnamed & Hag & Hpr & Hnd1 & Hnd2).
  assert (Hget : forall id t, tasks (escrow c) !! id = Some t -> getTask c id = t).
  { intros id t Ht. apply task_at_Some. exact Ht. }
  assert (Hmiss : forall id, tasks (escrow c) !! id = None -> getTask c id = no_task).
  { intros id Hn. unfold getTask, task_at. rewrite Hn. reflexivity. }
  split; [| split; [| split; [exact Hnd1 | split; [exact Hnd2 |]]]].
  - intros a id. rewrite Hag. split.
    + intros (t & Ht & <-). rewrite (Hget _ _ Ht). split; [apply (Hnamed _ _ Ht) | reflexivity].
    + intros [Ha Hagent]. destruct (tasks (escrow c) !! id) as [t |] eqn:Ht.
      * exists t. rewrite (Hget _ _ Ht) in Hagent. auto.
      * rewrite (Hmiss _ Ht) in Hagent. cbn in Hagent. congruence.
  - intros p id. rewrite Hpr. split.
    + intros (t & Ht & <-). rewrite (Hget _ _ Ht). split; [apply (Hnamed _ _ Ht) | reflexivity].
    + intros [Hp Hprov]. destruct (tasks (escrow c) !! id) as [t |] eqn:Ht.
      * exists t. rewrite (Hget _ _ Ht) in Hprov. auto.
      * rewrite (Hmiss _ Ht) in Hprov. cbn in Hprov. congruence.
  - intros id Hagent. destruct (tasks (escrow c) !! id) as [t |] eqn:Ht.
    + rewrite (Hget _ _ Ht). apply (Hnamed _ _ Ht).
    + rewrite (Hmiss _ Ht) in Hagent. cbn in Hagent. congruence.
Qed.

End EscrowIndex.

(** ** Disputes and repeated locks *)
Section EscrowDisputes.
Import Evm MneeEscrow.
Variable P : Primitives.

Lemma closed_to_release (c : Chain) (msg : Msg) (id uid : N) (sig : list N) (t : EscrowTask) :
  tasks (escrow c) !! id = Some t -> agent t <> 0%N -> status t <> Active ->
  releaseWithProof P msg id uid sig c = Revert "Task not active".
Proof.
  intros Ht Hagent Hst. unfold releaseWithProof. rewrite (task_at_Some _ _ _ Ht).
  apply N.eqb_neq in Hagent. rewrite Hagent.
  destruct (status t); [congruence | reflexivity ..].
Qed.

Lemma closed_to_refund (c : Chain) (msg : Msg) (id : N) (t : EscrowTask) :
  tasks (escrow c) !! id = Some t -> agent t <> 0%N -> status t <> Active ->
  refund msg id c = Revert "Task not active".
Proof.
  intros Ht Hagent Hst. unfold refund. rewrite (task_at_Some _ _ _ Ht).
  apply N.eqb_neq in Hagent. rewrite Hagent.
  destruct (status t); [congruence | reflexivity ..].
Qed.

Lemma closed_to_dispute (c : Chain) (msg : Msg) (id : N) (t : EscrowTask) :
  tasks (escrow c) !! id = Some t -> agent t <> 0%N -> status t <> Active ->
  dispute msg id c = Revert "Task not active".
Proof.
  intros Ht Hagent Hst. unfold dispute. rewrite (task_at_Some _ _ _ Ht).
  apply N.eqb_neq in Hagent. rewrite Hagent.
  destruct (status t); [congruence | reflexivity ..].
Qed.

Lemma not_owner (c : Chain) (msg : Msg) :
  sender msg <> owner (escrow c) -> onlyOwner msg c = Revert "OwnableUnauthorizedAccount".
Proof.
  intros Hne. unfold onlyOwner.
  destruct (N.eqb_spec (owner (escrow c)) (sender msg)); [congruence | reflexivity].
Qed.

(** X7. Only the agent or the provider of an Active task can dispute it;
    the dispute moves no tokens and marks the task Disputed. From then on
    release, refund and a second dispute revert with "Task not active",
    whatever the time and the proof; [resolveDispute] is refused to
    everybody but the owner, and for the owner it pays the task's amount to
    the provider or to the agent, as asked, and closes the task. *)
Theorem disputed_task_waits_for_owner (c : Chain) (msg : Msg) (id : N) (t : EscrowTask)
    (c' : Chain) (ev : list Event) :
  tasks (escrow c) !! id = Some t ->
  dispute msg id c = Ok (c', ev) ->
  (sender msg = agent t \/ sender msg = serviceProvider t) /\
  mneeToken c' = mneeToken c /\
  tasks (escrow c') !! id = Some (with_status Disputed t) /\
  (forall m uid sig, releaseWithProof P m id uid sig c' = Revert "Task not active") /\
  (forall m, refund m id c' = Revert "Task not active") /\
  (forall m, dispute m id c' = Revert "Task not active") /\
  (forall m b, sender m <> owner (escrow c') ->
     resolveDispute m id b c' = Revert "OwnableUnauthorizedAccount") /\
  (forall m b, sender m = owner (escrow c') ->
     this c <> 0%N -> serviceProvider t <> 0%N ->
     (amount t <= MockMNEE.balanceOf (mneeToken c) (this c))%N ->
     exists c'' ev',
       resolveDispute m id b c' = Ok (c'', ev') /\
       tasks (escrow c'') !! id
         = Some (with_status (if b then Completed else Refunded) t) /\
       ev' = [Token (MockMNEE.Transfer (this c) (if b then serviceProvider t else agent t)
                       (amount t));
              if b then TaskCompleted id (serviceProvider t) 0
              else TaskRefunded id (agent t) (amount t)]).
Proof.
  intros Ht Hd. apply dispute_Ok in Hd. cbv zeta in Hd.
  rewrite (task_at_Some _ _ _ Ht) in Hd.
  destruct Hd as (_ & Hagent & Hact & Hwho & -> & _).
  assert (Ht' : tasks (escrow (set_status id Disputed c)) !! id = Some (with_status Disputed t)).
  { cbn [set_status escrow set_tasks tasks]. rewrite (task_at_Some _ _ _ Ht).
    apply lookup_insert_eq. }
  split; [exact Hwho |]. split; [reflexivity |]. split; [exact Ht' |].
  split; [intros m uid sig; apply (closed_to_release _ _ _ _ _ _ Ht'); [exact Hagent | discriminate] |].
  split; [intros m; apply (closed_to_refund _ _ _ _ Ht'); [exact Hagent | discriminate] |].
  split; [intros m; apply (closed_to_dispute _ _ _ _ Ht'); [exact Hagent | discriminate] |].
  split.
  - intros m b Hne. unfold resolveDispute. rewrite (not_owner _ _ Hne). reflexivity.
  - intros m b Hown Hthis Hprov Hbal.
    destruct (resolveDispute_succeeds (set_status id Disputed c) m id b
                (with_status Disputed t) Ht' eq_refl Hown Hthis Hagent Hprov Hbal)
      as (c'' & ev' & H1 & H2 & H3).
    exists c'', ev'. split; [exact H1 |]. split; [exact H2 | exact H3].
Qed.

Lemma lockFunds_described (msg : Msg) (p a d : N) (descr : string) (r : bool)
    (c : Chain) (res : N * Chain * list Event) :
  lockFunds P msg p a d descr r c = Ok res -> (0 < String.length descr)%nat.
Proof.
  unfold lockFunds. intros H.
  apply bind_Ok in H. destruct H as (? & _ & H).
  apply bind_Ok in H. destruct H as (? & _ & H).
  apply bind_Ok in H. destruct H as (? & _ & H).
  apply bind_Ok in H. destruct H as (? & Hlen & _).
  apply require_Ok, Nat.ltb_lt in Hlen. exact Hlen.
Qed.

(** X8. The task identifier is the hash of sender, provider, amount,
    block time and description: after a [lockFunds] that went through, a
    second one by the same sender in the same block with the same provider,
    amount and description reverts with "Task already exists", whatever its
    deadline and auto-refund flag. *)
Theorem same_task_cannot_be_locked_twice (msg : Msg) (p a d : N) (descr : string) (r : bool)
    (c c' : Chain) (id : N) (ev : list Event) :
  lockFunds P msg p a d descr r c = Ok (id, c', ev) ->
  forall (again : Msg) (d' : N) (r' : bool),
    sender again = sender msg -> timestamp again = timestamp msg ->
    (timestamp again < d')%N ->
    lockFunds P again p a d' descr r' c' = Revert "Task already exists".
Proof.
  intros Hlock again d' r' Hs Hts Hd'.
  pose proof (lockFunds_described _ _ _ _ _ _ _ _ Hlock) as Hlen.
  apply lockFunds_Ok in Hlock.
  destruct Hlock as (-> & _ & Hsender & Hp & Ha & _ & _ & Htasks & _).
  unfold lockFunds. rewrite Hs, Hts.
  apply N.eqb_neq in Hp. rewrite Hp. apply N.ltb_lt in Ha. rewrite Ha.
  rewrite Hts in Hd'. apply N.ltb_lt in Hd'. rewrite Hd'.
  apply Nat.ltb_lt in Hlen. rewrite Hlen.
  cbn [negb require mbind result_bind].
  unfold task_at at 1. rewrite Htasks, lookup_insert_eq.
  cbn [from_option Datatypes.id agent]. apply N.eqb_neq in Hsender. rewrite Hsender.
  reflexivity.
Qed.

End EscrowDisputes.

(** ** What the owner can do, and an escrow without owner *)
Section EscrowOwner.
Import Evm MneeEscrow.
Variable P : Primitives.

(** X9. [emergencyWithdraw] asks only for the owner and a positive
    balance: it sends the escrow's whole token balance to the owner and
    leaves every task as it was. After it the escrow holds nothing, and any
    transaction that would settle a task with a positive amount reverts. *)
Theorem emergency_withdraw_ignores_tasks (c : Chain) (msg : Msg) :
  supply_ok (mneeToken c) ->
  sender msg = owner (escrow c) -> owner (escrow c) <> 0%N -> this c <> 0%N ->
  owner (escrow c) <> this c ->
  (0 < MockMNEE.balanceOf (mneeToken c) (this c))%N ->
  exists c',
    emergencyWithdraw msg c
      = Ok (c', [Token (MockMNEE.Transfer (this c) (owner (escrow c))
                          (MockMNEE.balanceOf (mneeToken c) (this c)))]) /\
    escrow c' = escrow c /\
    MockMNEE.balanceOf (mneeToken c') (this c) = 0%N /\
    MockMNEE.balanceOf (mneeToken c') (owner (escrow c))
      = (MockMNEE.balanceOf (mneeToken c) (owner (escrow c))
         + MockMNEE.balanceOf (mneeToken c) (this c))%N /\
    forall tx id t,
      settles (tx_call tx) = Some id ->
      tasks (escrow c) !! id = Some t -> (0 < amount t)%N ->
      exists reason, exec P tx c' = Revert reason.
Proof.
  intros Hok Hown Howner Hthis Hne Hbal.
  set (bal := MockMNEE.balanceOf (mneeToken c) (this c)) in *.
  assert (Hex : exists tok,
            MockMNEE._transfer (this c) (owner (escrow c)) bal (mneeToken c)
            = Ok (tok, [MockMNEE.Transfer (this c) (owner (escrow c)) bal])).
  { eexists. apply _transfer_succeeds; [exact Hthis | exact Howner | unfold bal; lia]. }
  destruct Hex as (tok & Htr).
  destruct (_transfer_exact _ _ _ _ _ _ Hok Htr) as (_ & _ & _ & _ & Hnew).
  exists (with_token tok c). split.
  - unfold emergencyWithdraw, onlyOwner. rewrite Hown, N.eqb_refl.
    fold bal. apply N.ltb_lt in Hbal. rewrite Hbal.
    cbn [require mbind result_bind]. unfold MockMNEE.transfer.
    cbn [as_escrow sender]. rewrite Htr. reflexivity.
  - cbn [with_token escrow mneeToken this]. split; [reflexivity |].
    split; [| split].
    + rewrite Hnew. fold bal. repeat case_decide; try congruence; lia.
    + rewrite Hnew. fold bal. repeat case_decide; try congruence; lia.
    + intros tx id t Hid Ht Hpos.
      destruct (exec P tx (with_token tok c)) as [[c2 ev2] | reason] eqn:Hexec; [| eauto].
      exfalso.
      destruct (settling_call P _ _ _ _ _ Hid Hexec)
        as (t' & s & marker & Ht' & _ & _ & _ & _ & _ & Hpay).
      cbn [with_token escrow this mneeToken] in Ht', Hpay.
      rewrite Ht in Ht'. inversion Ht'; subst t'.
      apply _transfer_Ok in Hpay. destruct Hpay as (_ & _ & Hamount & _).
      rewrite Hnew in Hamount. fold bal in Hamount.
      revert Hamount. repeat case_decide; try congruence; lia.
Qed.

(** X10. [releaseWithProof] does not look at its caller, and with an empty
    signature the attestation check asks only for a non-zero identifier: up
    to the deadline, any account can complete an Active task in custody with
    any non-zero [attestationUID], which pays the task's amount to the
    provider. *)
Theorem anyone_releases_with_any_uid (c : Chain) (msg : Msg) (id uid : N) (t : EscrowTask) :
  held c id t -> (timestamp msg <= deadline t)%N -> uid <> 0%N ->
  exists c' ev,
    releaseWithProof P msg id uid [] c = Ok (c', ev) /\
    tasks (escrow c') !! id = Some (with_status Completed t) /\
    ev = [Token (MockMNEE.Transfer (this c) (serviceProvider t) (amount t));
          TaskCompleted id (serviceProvider t) uid].
Proof.
  intros Hheld Hd Huid. apply (release_succeeds P c msg id uid [] t Hheld Hd).
  unfold _verifyAttestation. cbn [length Nat.ltb Nat.leb].
  apply N.eqb_neq in Huid. rewrite Huid. reflexivity.
Qed.

Lemma ownerless_step (id : N) (t : EscrowTask) (tx : Tx) (c c' : Chain) (ev : list Event) :
  sender (tx_msg tx) <> 0%N ->
  owner (escrow c) = 0%N /\
    (tasks (escrow c) !! id = Some t /\ agent t <> 0%N /\ status t = Disputed) ->
  exec P tx c = Ok (c', ev) ->
  owner (escrow c') = 0%N /\
    (tasks (escrow c') !! id = Some t /\ agent t <> 0%N /\ status t = Disputed).
Proof.
  intros Hs (Hown & Ht & Hagent & Hdis) Hexec.
  pose proof Hexec as Hraw.
  apply exec_outcome in Hexec. unfold outcome_of in Hexec.
  destruct tx as [msg call]. cbn [tx_msg tx_call] in *.
  assert (Hkeep : forall j s u tok, tasks (escrow c) !! j = Some u -> status u = Active ->
            owner (escrow (with_token tok (set_status j s c))) = 0%N /\
            (tasks (escrow (with_token tok (set_status j s c))) !! id = Some t /\
             agent t <> 0%N /\ status t = Disputed)).
  { intros j s u tok Hu Hact. cbn [with_token set_status escrow set_tasks tasks owner].
    split; [exact Hown |]. split; [| auto].
    rewrite lookup_insert_ne; [exact Ht |]. intros ->. congruence. }
  destruct call.
  - destruct Hexec as (Hfree & _ & _ & _ & _ & tok & tev & _ & ->).
    cbn [escrow locked owner tasks]. split; [exact Hown |]. split; [| auto].
    rewrite lookup_insert_ne; [exact Ht |]. intros Heq. rewrite Heq in Hfree.
    rewrite (task_at_Some _ _ _ Ht) in Hfree. congruence.
  - destruct Hexec as (u & s & tok & Hu & Hg & _ & _ & ->). cbn [guard_state] in Hg.
    apply (Hkeep _ _ u); congruence.
  - destruct Hexec as (u & s & tok & Hu & Hg & _ & _ & ->). cbn [guard_state] in Hg.
    apply (Hkeep _ _ u); congruence.
  - destruct Hexec as (u & Hu & Hact & _ & ->).
    apply (Hkeep _ Disputed u (mneeToken c)); assumption.
  - unfold exec in Hraw. cbn [tx_msg tx_call] in Hraw.
    apply resolveDispute_Ok in Hraw. destruct Hraw as (_ & Hsender & _). congruence.
  - destruct Hexec as (Hsender & _). congruence.
  - destruct Hexec as (Hsender & _). congruence.
  - destruct Hexec as (Hsender & _). congruence.
  - destruct Hexec as (Hsender & _). congruence.
  - destruct Hexec as (Hsender & _). congruence.
  - destruct Hexec as (tok & tev & _ & ->). auto.
  - destruct Hexec as (tok & tev & _ & ->). auto.
  - destruct Hexec as (tok & tev & _ & ->). auto.
  - destruct Hexec as (tok & tev & _ & ->). auto.
  - destruct Hexec as (tok & tev & _ & ->). auto.
Qed.


(** X11. After [renounceOwnership] the owner is the zero address for good:
    whatever transactions non-zero senders make afterwards, the owner stays
    zero, and a task that is Disputed stays exactly as it is, its amount
    locked. *)
Theorem renounced_escrow_has_no_arbiter (c : Chain) (msg : Msg) (c' : Chain)
    (ev : list Event) (txs : list Tx) :
  renounceOwnership msg c = Ok (c', ev) ->
  Forall (fun tx => sender (tx_msg tx) <> 0%N) txs ->
  let c'' := (run P txs c').1 in
  owner (escrow c'') = 0%N /\
  forall id t,
    tasks (escrow c') !! id = Some t -> agent t <> 0%N -> status t = Disputed ->
    tasks (escrow c'') !! id = Some t.
Proof.
  intros Hren Hall c''.
  unfold renounceOwnership in Hren.
  apply bind_Ok in Hren. destruct Hren as (? & _ & Hren). inversion Hren; subst c' ev.
  clear Hren.
  split.
  - apply (run_invariant P (fun c1 => owner (escrow c1) = 0%N)
             (fun tx => sender (tx_msg tx) <> 0%N)); [| exact Hall | reflexivity].
    intros tx c1 c2 ev1 Hs Hown Hexec.
    apply exec_outcome in Hexec. unfold outcome_of in Hexec.
    destruct tx as [m call]. cbn [tx_msg tx_call] in *.
    destruct call.
    + destruct Hexec as (_ & _ & _ & _ & _ & tok & tev & _ & ->). exact Hown.
    + destruct Hexec as (u & s & tok & _ & _ & _ & _ & ->). exact Hown.
    + destruct Hexec as (u & s & tok & _ & _ & _ & _ & ->). exact Hown.
    + destruct Hexec as (u & _ & _ & _ & ->). exact Hown.
    + destruct Hexec as (u & s & tok & _ & _ & _ & _ & ->). exact Hown.
    + destruct Hexec as (Hsender & _). congruence.
    + destruct Hexec as (Hsender & _). congruence.
    + destruct Hexec as (Hsender & _). congruence.
    + destruct Hexec as (Hsender & _). congruence.
    + destruct Hexec as (Hsender & _). congruence.
    + destruct Hexec as (tok & tev & _ & ->). exact Hown.
    + destruct Hexec as (tok & tev & _ & ->). exact Hown.
    + destruct Hexec as (tok & tev & _ & ->). exact Hown.
    + destruct Hexec as (tok & tev & _ & ->). exact Hown.
    + destruct Hexec as (tok & tev & _ & ->). exact Hown.
  - intros id t Ht Hagent Hdis.
    apply (run_invariant P
             (fun c1 => owner (escrow c1) = 0%N /\
                (tasks (escrow c1) !! id = Some t /\ agent t <> 0%N /\ status t = Disputed))
             (fun tx => sender (tx_msg tx) <> 0%N)); [| exact Hall | auto].
    intros tx c1 c2 ev1. apply ownerless_step.
Qed.

End EscrowOwner.

(** ** Allowances *)
Section TokenAllowance.
Import Evm MneeEscrow.
Variable P : Primitives.

Lemma transferFrom_events (msg : Msg) (from to v : N) (st st' : MockMNEE.State)
    (ev : list MockMNEE.Event) :
  MockMNEE.transferFrom msg from to v st = Ok (st', ev) ->
  ev = [MockMNEE.Approval from (sender msg)
          (MockMNEE.allowance st from (sender msg) - v)%N;
        MockMNEE.Transfer from to v].
Proof.
  intros H. unfold MockMNEE.transferFrom in H. cbv zeta in H.
  apply bind_Ok in H. destruct H as (? & _ & H).
  apply bind_Ok in H. destruct H as ([st1 ev1] & Hap & H).
  apply bind_Ok in H. destruct H as ([st2 ev2] & Htr & H).
  inversion H; subst. clear H.
  apply _transfer_Ok in Htr. destruct Htr as (_ & _ & _ & -> & _).
  unfold MockMNEE._approve in Hap.
  apply bind_Ok in Hap. destruct Hap as (? & _ & Hap).
  apply bind_Ok in Hap. destruct Hap as (? & _ & Hap).
  inversion Hap; subst. reflexivity.
Qed.

(** X12. A [lockFunds] that goes through, sent by an account other than
    the escrow, returns the hash as task identifier, stores the task as
    Active with the given fields (as [getTask] reads it), and takes the
    amount from the sender's balance and from the sender's allowance for the
    escrow into the escrow's balance; both covered the amount. It emits the
    token's Approval and Transfer and then TaskCreated. *)
Theorem lockFunds_takes_custody (msg : Msg) (p a d : N) (descr : string) (r : bool)
    (c c' : Chain) (id : N) (ev : list Event) :
  supply_ok (mneeToken c) -> sender msg <> this c ->
  lockFunds P msg p a d descr r c = Ok (id, c', ev) ->
  let tok := mneeToken c in
  id = task_hash P (sender msg) p a (timestamp msg) descr /\
  getTask c' id
    = {| agent := sender msg; serviceProvider := p; amount := a; deadline := d;
         status := Active; taskId := id; taskDescription := descr; autoRefund := r |} /\
  (a <= MockMNEE.allowance tok (sender msg) (this c))%N /\
  (a <= MockMNEE.balanceOf tok (sender msg))%N /\
  MockMNEE.allowance (mneeToken c') (sender msg) (this c)
    = (MockMNEE.allowance tok (sender msg) (this c) - a)%N /\
  MockMNEE.balanceOf (mneeToken c') (sender msg)
    = (MockMNEE.balanceOf tok (sender msg) - a)%N /\
  MockMNEE.balanceOf (mneeToken c') (this c) = (MockMNEE.balanceOf tok (this c) + a)%N /\
  ev = [Token (MockMNEE.Approval (sender msg) (this c)
                 (MockMNEE.allowance tok (sender msg) (this c) - a)%N);
        Token (MockMNEE.Transfer (sender msg) (this c) a);
        TaskCreated id (sender msg) p a d].
Proof.
  intros Hok Hne Hlock tok.
  apply lockFunds_Ok in Hlock.
  destruct Hlock as (Hid & _ & _ & _ & _ & _ & _ & Htasks & tk & tev & Htr & Htok & ->).
  pose proof (transferFrom_events _ _ _ _ _ _ _ Htr) as Hev.
  cbn [as_escrow sender] in Hev.
  pose proof (transferFrom_Ok _ _ _ _ _ _ _ Htr) as _.
  assert (Hfrom : (a <= MockMNEE.balanceOf tok (sender msg))%N).
  { unfold MockMNEE.transferFrom in Htr. cbv zeta in Htr.
    apply bind_Ok in Htr. destruct Htr as (? & _ & Htr).
    apply bind_Ok in Htr. destruct Htr as ([st1 ev1] & Hap & Htr).
    apply bind_Ok in Htr. destruct Htr as ([st2 ev2] & Htr & _).
    apply _approve_exact in Hap. destruct Hap as (_ & _ & ->).
    apply _transfer_Ok in Htr. destruct Htr as (_ & _ & Hle & _). exact Hle. }
  destruct (transferFrom_exact _ _ _ _ _ _ _ Hok Htr) as (_ & Hle & _ & _ & Hall & Hbal).
  cbn [as_escrow sender] in Hle, Hall.
  rewrite Htok. fold tok in Hle, Hall, Hbal.
  split; [exact Hid |].
  split; [unfold getTask, task_at; rewrite Htasks, lookup_insert_eq; reflexivity |].
  split; [exact Hle |]. split; [exact Hfrom |].
  split; [rewrite Hall; case_decide; [reflexivity | congruence] |].
  split; [rewrite Hbal; repeat case_decide; try congruence; lia |].
  split; [rewrite Hbal; repeat case_decide; try congruence; lia |].
  rewrite Hev. reflexivity.
Qed.

(** What a spender has pulled from an owner: the amounts of the
    [transferFrom] calls that went through, the ones the escrow makes inside
    [lockFunds] included. *)
Definition pulled (escrowAddress owner spender : N) (entry : Tx * result (list Event)) : N :=
  match entry.2 with
  | Ok _ =>
      match tx_call entry.1 with
      | TokenTransferFrom from _ v =>
          if decide (from = owner /\ sender (tx_msg entry.1) = spender) then v else 0
      | LockFunds _ a _ _ _ =>
          if decide (sender (tx_msg entry.1) = owner /\ escrowAddress = spender) then a else 0
      | _ => 0
      end
  | Revert _ => 0
  end%N.

Definition total_pulled (escrowAddress owner spender : N)
    (history : list (Tx * result (list Event))) : N :=
  foldr (fun e acc => (pulled escrowAddress owner spender e + acc)%N) 0%N history.

(** A transaction by which [owner] sets the allowance of [spender]. *)
Definition approves (owner spender : N) (tx : Tx) : Prop :=
  sender (tx_msg tx) = owner /\ exists v, tx_call tx = TokenApprove spender v.

Lemma allowance_step (o s : N) (tx : Tx) (c c' : Chain) (ev : list Event) :
  ~ approves o s tx ->
  exec P tx c = Ok (c', ev) ->
  (MockMNEE.allowance (mneeToken c') o s + pulled (this c) o s (tx, Ok ev)
   = MockMNEE.allowance (mneeToken c) o s)%N.
Proof.
  intros Hno Hexec. apply exec_outcome in Hexec. unfold outcome_of in Hexec.
  unfold pulled. destruct tx as [msg call]. cbn [tx_msg tx_call fst snd] in *.
  assert (Hsame : forall tok from to v tev,
            MockMNEE._transfer from to v (mneeToken c) = Ok (tok, tev) ->
            MockMNEE.allowance tok o s = MockMNEE.allowance (mneeToken c) o s).
  { intros tok from to v tev Htr. apply _transfer_Ok in Htr.
    destruct Htr as (_ & _ & _ & _ & ->). reflexivity. }
  assert (Hpull : forall m from to v tok tev,
            MockMNEE.transferFrom m from to v (mneeToken c) = Ok (tok, tev) ->
            (MockMNEE.allowance tok o s
             + (if decide (from = o /\ sender m = s) then v else 0)
             = MockMNEE.allowance (mneeToken c) o s)%N).
  { intros m from to v tok tev Htr.
    unfold MockMNEE.transferFrom in Htr. cbv zeta in Htr.
    apply bind_Ok in Htr. destruct Htr as (? & Hle & Htr).
    apply bind_Ok in Htr. destruct Htr as ([st1 ev1] & Hap & Htr).
    apply bind_Ok in Htr. destruct Htr as ([st2 ev2] & Htr & Hret).
    inversion Hret; subst. clear Hret.
    apply require_Ok, N.leb_le in Hle.
    apply _approve_exact in Hap. destruct Hap as (_ & _ & ->).
    apply _transfer_Ok in Htr. destruct Htr as (_ & _ & _ & _ & ->).
    change (MockMNEE.allowance (MockMNEE.set_balance _ _ (MockMNEE.set_balance _ _ ?st)) o s)
      with (MockMNEE.allowance st o s).
    rewrite allowance_insert.
    destruct (decide ((from, sender m) = (o, s))) as [Heq | Hneq].
    - inversion Heq; subst. case_decide; [lia | tauto].
    - case_decide as Hboth; [destruct Hboth; subst; congruence | lia]. }
  destruct call.
  - destruct Hexec as (_ & _ & _ & _ & _ & tok & tev & Htr & ->).
    cbn [mneeToken]. apply Hpull in Htr. cbn [as_escrow sender] in Htr. exact Htr.
  - destruct Hexec as (u & st & tok & _ & _ & _ & Htr & ->).
    cbn [with_token mneeToken]. rewrite (Hsame _ _ _ _ _ Htr). lia.
  - destruct Hexec as (u & st & tok & _ & _ & _ & Htr & ->).
    cbn [with_token mneeToken]. rewrite (Hsame _ _ _ _ _ Htr). lia.
  - destruct Hexec as (u & _ & _ & _ & ->). cbn [set_status mneeToken]. lia.
  - destruct Hexec as (u & st & tok & _ & _ & _ & Htr & ->).
    cbn [with_token mneeToken]. rewrite (Hsame _ _ _ _ _ Htr). lia.
  - destruct Hexec as (_ & _ & ->). cbn [set_escrow mneeToken]. lia.
  - destruct Hexec as (_ & ->). cbn [set_escrow mneeToken]. lia.
  - destruct Hexec as (_ & _ & tok & tev & Htr & ->).
    cbn [with_token mneeToken]. rewrite (Hsame _ _ _ _ _ Htr). lia.
  - destruct Hexec as (_ & _ & ->). cbn [set_owner set_escrow mneeToken]. lia.
  - destruct Hexec as (_ & ->). cbn [set_owner set_escrow mneeToken]. lia.
  - destruct Hexec as (tok & tev & Htr & ->).
    cbn [with_token mneeToken]. rewrite (Hsame _ _ _ _ _ Htr). lia.
  - destruct Hexec as (tok & tev & Htr & ->). cbn [with_token mneeToken].
    apply _approve_exact in Htr. destruct Htr as (_ & _ & ->).
    rewrite allowance_insert. case_decide as Heq; [| lia].
    exfalso. apply Hno. inversion Heq; subst. split; [reflexivity | eauto].
  - destruct Hexec as (tok & tev & Htr & ->). cbn [with_token mneeToken].
    apply Hpull in Htr. exact Htr.
  - destruct Hexec as (tok & tev & Htr & ->). cbn [with_token mneeToken].
    unfold MockMNEE.faucet in Htr.
    apply bind_Ok in Htr. destruct Htr as (? & _ & Htr).
    apply bind_Ok in Htr. destruct Htr as (? & _ & Htr).
    apply bind_Ok in Htr. destruct Htr as ([st2 ev2] & Hm & Hret).
    inversion Hret; subst. clear Hret.
    unfold MockMNEE._mint in Hm.
    apply bind_Ok in Hm. destruct Hm as (? & _ & Hm).
    apply bind_Ok in Hm. destruct Hm as (? & _ & Hm).
    inversion Hm; subst. unfold MockMNEE.allowance. cbn. lia.
  - destruct Hexec as (tok & tev & Hm & ->). cbn [with_token mneeToken].
    unfold MockMNEE._mint in Hm.
    apply bind_Ok in Hm. destruct Hm as (? & _ & Hm).
    apply bind_Ok in Hm. destruct Hm as (? & _ & Hm).
    inversion Hm; subst. unfold MockMNEE.allowance. cbn. lia.
Qed.

Lemma run_allowance (o s : N) (txs : list Tx) :
  forall c, Forall (fun tx => ~ approves o s tx) txs ->
    (MockMNEE.allowance (mneeToken (run P txs c).1) o s
     + total_pulled (this c) o s (run P txs c).2
     = MockMNEE.allowance (mneeToken c) o s)%N.
Proof.
  induction txs as [| tx rest IH]; intros c Hall; [simpl; lia |].
  inversion Hall as [| ? ? Htx Hrest]; subst.
  simpl. destruct (exec P tx c) as [[c1 ev] | reason] eqn:Hexec.
  - pose proof (allowance_step o s _ _ _ _ Htx Hexec) as Hstep.
    pose proof (exec_this P _ _ _ _ Hexec) as Hthis.
    specialize (IH c1 Hrest). rewrite Hthis in IH.
    destruct (run P rest c1) as [c2 h]. cbn [fst snd total_pulled foldr] in *. lia.
  - specialize (IH c Hrest).
    destruct (run P rest c) as [c2 h]. cbn [fst snd total_pulled foldr] in *.
    unfold pulled at 1. cbn [snd]. lia.
Qed.

(** X2. Along any sequence of transactions in which the owner does not
    call [approve] for the spender again, what the spender pulls from the
    owner through [transferFrom] (the pulls the escrow makes inside
    [lockFunds] included) adds up to at most the allowance at the start,
    and the allowance at the end is the allowance at the start less that
    sum. *)
Theorem allowance_is_a_ceiling (o s : N) (c : Chain) (txs : list Tx) :
  Forall (fun tx => ~ approves o s tx) txs ->
  let c' := (run P txs c).1 in
  let spent := total_pulled (this c) o s (run P txs c).2 in
  (spent <= MockMNEE.allowance (mneeToken c) o s)%N /\
  MockMNEE.allowance (mneeToken c') o s = (MockMNEE.allowance (mneeToken c) o s - spent)%N.
Proof.
  intros Hall c' spent. pose proof (run_allowance o s txs c Hall) as H.
  fold c' spent in H. lia.
Qed.

End TokenAllowance.

(** ** The faucet *)
Section Faucet.
Import Evm MockMNEE.

(** X3. A faucet call that goes through mints [FAUCET_AMOUNT] to the
    caller and starts the caller's cooldown: from then on
    [timeUntilNextDrip] answers the seconds left of one hour (zero once the
    hour has passed), a second call inside the hour reverts with the wait
    message, and [timeUntilNextDrip] answers zero exactly when [faucet]
    would not be refused for the cooldown. *)
Theorem faucet_cooldown (msg : Msg) (st st' : State) (ev : list Event) :
  supply_ok st -> faucet msg st = Ok (st', ev) ->
  balanceOf st' (sender msg) = (balanceOf st (sender msg) + FAUCET_AMOUNT)%N /\
  totalSupply st' = (totalSupply st + FAUCET_AMOUNT)%N /\
  ev = [Transfer 0 (sender msg) FAUCET_AMOUNT; FaucetDrip (sender msg) FAUCET_AMOUNT] /\
  forall later, sender later = sender msg ->
    (timestamp msg + FAUCET_COOLDOWN < 2 ^ 256)%N ->
    timeUntilNextDrip later (sender msg) st'
      = Ok (timestamp msg + FAUCET_COOLDOWN - timestamp later)%N /\
    ((timestamp later < timestamp msg + FAUCET_COOLDOWN)%N ->
       faucet later st' = Revert "Faucet: Please wait before requesting again") /\
    (forall d, timeUntilNextDrip later (sender msg) st' = Ok d ->
       (d = 0%N <->
        faucet later st' <> Revert "Faucet: Please wait before requesting again")).
Proof.
  intros Hok Hf. pose proof (faucet_exact _ _ _ _ Hok Hf) as (_ & _ & Hts & _ & Hlf & Hbal).
  split; [rewrite Hbal; case_decide; [reflexivity | congruence] |].
  split; [exact Hts |].
  split.
  { unfold faucet in Hf.
    apply bind_Ok in Hf. destruct Hf as (? & _ & Hf).
    apply bind_Ok in Hf. destruct Hf as (? & _ & Hf).
    apply bind_Ok in Hf. destruct Hf as ([st2 ev2] & Hm & Hret).
    inversion Hret; subst. clear Hret.
    unfold _mint in Hm.
    apply bind_Ok in Hm. destruct Hm as (? & _ & Hm).
    apply bind_Ok in Hm. destruct Hm as (? & _ & Hm).
    inversion Hm; subst. reflexivity. }
  intros later Hsame Hfit.
  assert (Hnext : checked_add (default 0%N (lastFaucetTime st' !! sender msg)) FAUCET_COOLDOWN
                  = Ok (timestamp msg + FAUCET_COOLDOWN)%N).
  { rewrite Hlf, lookup_insert_eq. cbn [from_option Datatypes.id]. unfold checked_add.
    apply N.ltb_lt in Hfit. rewrite Hfit. reflexivity. }
  assert (Htime : timeUntilNextDrip later (sender msg) st'
                  = Ok (timestamp msg + FAUCET_COOLDOWN - timestamp later)%N).
  { unfold timeUntilNextDrip. rewrite Hnext. cbn [mbind result_bind].
    destruct (N.leb_spec (timestamp msg + FAUCET_COOLDOWN) (timestamp later)) as [Hle | Hlt].
    - cbn. f_equal. lia.
    - reflexivity. }
  assert (Hwait : (timestamp later < timestamp msg + FAUCET_COOLDOWN)%N ->
                  faucet later st' = Revert "Faucet: Please wait before requesting again").
  { intros Hlt. unfold faucet. rewrite Hsame, Hnext. cbn [mbind result_bind].
    destruct (N.leb_spec (timestamp msg + FAUCET_COOLDOWN) (timestamp later)); [lia |].
    reflexivity. }
  split; [exact Htime |]. split; [exact Hwait |].
  intros d Hd. rewrite Htime in Hd. inversion Hd as [Hd']. clear Hd.
  split.
  - intros Hzero Hrev. unfold faucet in Hrev. rewrite Hsame, Hnext in Hrev.
    cbn [mbind result_bind] in Hrev.
    destruct (N.leb_spec (timestamp msg + FAUCET_COOLDOWN) (timestamp later)) as [Hle | Hlt];
      [| lia].
    cbn [require mbind result_bind] in Hrev. unfold _mint, checked_add in Hrev.
    destruct (negb (sender msg =? 0)%N); cbn [require mbind result_bind] in Hrev;
      [| discriminate].
    destruct (_ <? _)%N; cbn [mbind result_bind] in Hrev; discriminate.
  - intros Hno. destruct (N.lt_ge_cases (timestamp later) (timestamp msg + FAUCET_COOLDOWN))
      as [Hlt | Hge]; [exfalso; apply Hno, Hwait, Hlt | lia].
Qed.

End Faucet.

(** ** The ledger properties on the small chain *)
Section LedgerExamples.
Import Evm MneeEscrow.

(** The chain of the examples after the agent's approval, and after a
    dispute of task 7 by the agent. *)
Definition ex_approved : Chain :=
  (run ex_primitives [ex_tx 10 1000 (TokenApprove 99 500000000)] ex_deployed).1.

Definition ex_disputed : Chain :=
  (run ex_primitives [ex_tx 10 2000 (Dispute 7)] ex_locked).1.

Lemma ex_deployed_supply : supply_ok (mneeToken ex_deployed).
Proof. split; reflexivity. Qed.

Lemma ex_deployed_no_allowance (x : N) :
  MockMNEE.allowance (mneeToken ex_deployed) (this ex_deployed) x = 0%N.
Proof. reflexivity. Qed.

Lemma ex_lock_ordinary : Forall (ordinary (this ex_deployed)) ex_lock.
Proof. repeat constructor; discriminate. Qed.

Lemma supply_is_conserved_witness :
  MockMNEE.constructor 10 = Ok (mneeToken ex_deployed, [MockMNEE.Transfer 0 10 1000000000000]) /\
  sum_balances (mneeToken ex_locked) = 1000000000000%N.
Proof.
  assert (Hdeploy : MockMNEE.constructor 10
            = Ok (mneeToken ex_deployed, [MockMNEE.Transfer 0 10 1000000000000]))
    by reflexivity.
  split; [exact Hdeploy |].
  destruct (supply_is_conserved ex_primitives 10 ex_deployed _ ex_lock Hdeploy) as [Hsum _].
  exact Hsum.
Defined.

Lemma escrow_stays_solvent_witness :
  (obligations ex_locked <= MockMNEE.balanceOf (mneeToken ex_locked) (this ex_locked))%N.
Proof.
  apply (escrow_stays_solvent ex_primitives ex_deployed ex_lock eq_refl
           ex_deployed_supply ex_deployed_no_allowance ex_lock_ordinary).
Defined.

Lemma open_task_can_settle_witness :
  exists c' ev, refund {| sender := 30; timestamp := 260201 |} 7 ex_locked = Ok (c', ev).
Proof.
  assert (Hthis : this ex_deployed <> 0%N) by discriminate.
  assert (Ht : tasks (escrow ex_locked) !! 7%N = Some ex_task) by reflexivity.
  destruct (open_task_can_settle ex_primitives ex_deployed ex_lock 7 ex_task eq_refl
              ex_deployed_supply ex_deployed_no_allowance Hthis ex_lock_ordinary Ht)
    as [Hactive _].
  destruct (Hactive eq_refl) as [Hrefund _].
  apply Hrefund; [right; reflexivity | reflexivity].
Defined.

Lemma task_lists_match_tasks_witness :
  constructor {| sender := 1; timestamp := 900 |} 50 5 = Ok (escrow ex_deployed) /\
  getAgentTasks ex_locked 10 = [7%N] /\
  (7%N ∈ getAgentTasks ex_locked 10 <-> 10%N <> 0%N /\ agent (getTask ex_locked 7) = 10%N).
Proof.
  assert (Hdeploy : constructor {| sender := 1; timestamp := 900 |} 50 5
                    = Ok (escrow ex_deployed)) by reflexivity.
  split; [exact Hdeploy |]. split; [reflexivity |].
  destruct (task_lists_match_tasks ex_primitives _ _ _ ex_deployed ex_lock Hdeploy)
    as [Hagents _].
  apply (Hagents 10%N 7%N).
Defined.

Lemma disputed_task_waits_for_owner_witness :
  dispute {| sender := 10; timestamp := 2000 |} 7 ex_locked
    = Ok (ex_disputed, [TaskDisputed 7 10]) /\
  refund {| sender := 10; timestamp := 260201 |} 7 ex_disputed = Revert "Task not active".
Proof.
  assert (Ht : tasks (escrow ex_locked) !! 7%N = Some ex_task) by reflexivity.
  assert (Hd : dispute {| sender := 10; timestamp := 2000 |} 7 ex_locked
               = Ok (ex_disputed, [TaskDisputed 7 10])) by reflexivity.
  split; [exact Hd |].
  destruct (disputed_task_waits_for_owner ex_primitives ex_locked _ 7 ex_task _ _ Ht Hd)
    as (_ & _ & _ & _ & Hrefund & _).
  apply Hrefund.
Defined.

Lemma same_task_cannot_be_locked_twice_witness :
  lockFunds ex_primitives {| sender := 10; timestamp := 1000 |} 20 500000000 260200
    "Build landing page" true ex_approved
  = Ok (7%N, ex_locked,
        [Token (MockMNEE.Approval 10 99 0); Token (MockMNEE.Transfer 10 99 500000000);
         TaskCreated 7 10 20 500000000 260200]) /\
  lockFunds ex_primitives {| sender := 10; timestamp := 1000 |} 20 500000000 300000
    "Build landing page" false ex_locked
  = Revert "Task already exists".
Proof.
  assert (Hlock : lockFunds ex_primitives {| sender := 10; timestamp := 1000 |} 20 500000000
                    260200 "Build landing page" true ex_approved
                  = Ok (7%N, ex_locked,
                        [Token (MockMNEE.Approval 10 99 0);
                         Token (MockMNEE.Transfer 10 99 500000000);
                         TaskCreated 7 10 20 500000000 260200])) by reflexivity.
  split; [exact Hlock |].
  apply (same_task_cannot_be_locked_twice ex_primitives _ _ _ _ _ _ _ _ _ _ Hlock
           {| sender := 10; timestamp := 1000 |} 300000 false eq_refl eq_refl).
  reflexivity.
Defined.

Lemma ex_locked_supply : supply_ok (mneeToken ex_locked).
Proof. split; reflexivity. Qed.

Lemma emergency_withdraw_ignores_tasks_witness :
  exists c',
    emergencyWithdraw {| sender := 1; timestamp := 3000 |} ex_locked
      = Ok (c', [Token (MockMNEE.Transfer 99 1 500000000)]) /\
    escrow c' = escrow ex_locked /\
    MockMNEE.balanceOf (mneeToken c') 99 = 0%N.
Proof.
  assert (Hpos : (0 < MockMNEE.balanceOf (mneeToken ex_locked) (this ex_locked))%N)
    by reflexivity.
  destruct (emergency_withdraw_ignores_tasks ex_primitives ex_locked
              {| sender := 1; timestamp := 3000 |} ex_locked_supply eq_refl
              ltac:(discriminate) ltac:(discriminate) ltac:(discriminate) Hpos)
    as (c' & Hw & Hsame & Hzero & _).
  exists c'. split; [exact Hw |]. split; [exact Hsame | exact Hzero].
Defined.

Lemma anyone_releases_with_any_uid_witness :
  exists c' ev,
    releaseWithProof ex_primitives {| sender := 30; timestamp := 2000 |} 7 1 [] ex_locked
      = Ok (c', ev) /\
    tasks (escrow c') !! 7%N = Some (with_status Completed ex_task).
Proof.
  destruct (anyone_releases_with_any_uid ex_primitives ex_locked
              {| sender := 30; timestamp := 2000 |} 7 1 ex_task ex_locked_held
              ltac:(discriminate) ltac:(discriminate))
    as (c' & ev & Hrel & Ht & _).
  exists c', ev. split; [exact Hrel | exact Ht].
Defined.

Lemma renounced_escrow_has_no_arbiter_witness :
  exists c' ev,
    renounceOwnership {| sender := 1; timestamp := 3000 |} ex_disputed = Ok (c', ev) /\
    owner (escrow (run ex_primitives [ex_tx 1 4000 (ResolveDispute 7 true)] c').1) = 0%N.
Proof.
  eexists _, _. 
  assert (Hren : renounceOwnership {| sender := 1; timestamp := 3000 |} ex_disputed
                 = Ok (set_owner 0 ex_disputed, [OwnershipTransferred 1 0])) by reflexivity.
  split; [exact Hren |].
  assert (Hall : Forall (fun tx => sender (tx_msg tx) <> 0%N)
                   [ex_tx 1 4000 (ResolveDispute 7 true)])
    by (repeat constructor; discriminate).
  destruct (renounced_escrow_has_no_arbiter ex_primitives _ _ _ _ _ Hren Hall) as [Hown _].
  exact Hown.
Defined.

Lemma lockFunds_takes_custody_witness :
  exists ev,
    lockFunds ex_primitives {| sender := 10; timestamp := 1000 |} 20 500000000 260200
      "Build landing page" true ex_approved = Ok (7%N, ex_locked, ev) /\
    MockMNEE.balanceOf (mneeToken ex_locked) 99 = 500000000%N.
Proof.
  eexists.
  assert (Hlock : lockFunds ex_primitives {| sender := 10; timestamp := 1000 |} 20 500000000
                    260200 "Build landing page" true ex_approved
                  = Ok (7%N, ex_locked,
                        [Token (MockMNEE.Approval 10 99 0);
                         Token (MockMNEE.Transfer 10 99 500000000);
                         TaskCreated 7 10 20 500000000 260200])) by reflexivity.
  split; [exact Hlock |].
  assert (Hok : supply_ok (mneeToken ex_approved)) by (split; reflexivity).
  assert (Hne : sender {| sender := 10; timestamp := 1000 |} <> this ex_approved)
    by discriminate.
  destruct (lockFunds_takes_custody ex_primitives _ _ _ _ _ _ _ _ _ _ Hok Hne Hlock)
    as (_ & _ & _ & _ & _ & _ & Hbal & _).
  exact Hbal.
Defined.

Lemma allowance_is_a_ceiling_witness :
  (total_pulled 99 10 99
     (run ex_primitives
        [ ex_tx 10 1000 (LockFunds 20 300000000 260200 "Build landing page" true);
          ex_tx 10 1001 (LockFunds 20 300000000 260200 "Write the copy" true) ]
        ex_approved).2
   <= 500000000)%N.
Proof.
  assert (Hall : Forall (fun tx => ~ approves 10 99 tx)
            [ ex_tx 10 1000 (LockFunds 20 300000000 260200 "Build landing page" true);
              ex_tx 10 1001 (LockFunds 20 300000000 260200 "Write the copy" true) ]).
  { repeat constructor; intros [_ [v Hv]]; discriminate. }
  destruct (allowance_is_a_ceiling ex_primitives 10 99 ex_approved _ Hall) as [Hle _].
  exact Hle.
Defined.

Lemma faucet_cooldown_witness :
  exists st' ev,
    MockMNEE.faucet {| sender := 30; timestamp := 5000 |} (mneeToken ex_deployed)
      = Ok (st', ev) /\
    MockMNEE.timeUntilNextDrip {| sender := 30; timestamp := 6000 |} 30 st' = Ok 2600%N /\
    MockMNEE.faucet {| sender := 30; timestamp := 6000 |} st'
      = Revert "Faucet: Please wait before requesting again".
Proof.
  destruct (MockMNEE.faucet {| sender := 30; timestamp := 5000 |} (mneeToken ex_deployed))
    as [[st' ev] | reason] eqn:Hf; [| discriminate].
  exists st', ev. split; [reflexivity |].
  destruct (faucet_cooldown _ _ _ _ ex_deployed_supply Hf) as (_ & _ & _ & Hlater).
  destruct (Hlater {| sender := 30; timestamp := 6000 |} eq_refl ltac:(reflexivity))
    as (Htime & Hwait & _).
  split; [exact Htime | apply Hwait; reflexivity].
Defined.

End LedgerExamples.

(** ** Amount texts and addresses *)
Section AmountTexts.
Import Js Utils.

Local Abbreviation digits s := (Forall (fun c => is_digit c = true) s).

Lemma value10_shift (s : list ascii) (acc : N) :
  value10 s acc = (acc * 10 ^ N.of_nat (length s) + value10 s 0)%N.
Proof.
  revert acc. induction s as [| c r IH]; intros acc.
  - cbn. lia.
  - unfold value10 in *. cbn [fold_left length]. rewrite (IH (10 * acc + _)%N).
    rewrite (IH (10 * 0 + _)%N). rewrite Nat2N.inj_succ, N.pow_succ_r'. lia.
Qed.

Lemma value10_concat (s t : list ascii) :
  value10 (s ++ t) 0 = (value10 s 0 * 10 ^ N.of_nat (length t) + value10 t 0)%N.
Proof. rewrite value10_app. apply value10_shift. Qed.

(** The six digits [toWei] keeps of a fraction. *)
Definition six_digits (f : list ascii) : list ascii :=
  slice 0 decimals (padEnd decimals "0" f).

Lemma six_digits_length (f : list ascii) : length (six_digits f) = 6%nat.
Proof.
  unfold six_digits, slice, padEnd, decimals.
  rewrite length_take, drop_0, length_app, length_replicate. lia.
Qed.

Lemma six_digits_digits (f : list ascii) : digits f -> digits (six_digits f).
Proof.
  intros Hf. unfold six_digits, slice, padEnd. rewrite drop_0.
  apply Forall_take, Forall_app. split; [exact Hf |].
  apply Forall_replicate. reflexivity.
Qed.

Lemma toWei_parts (whole : list ascii) (f : list ascii) (parts : list (list ascii))
    (text : string) :
  split_on 46 (list_ascii_of_string text) = whole :: parts ->
  nth 0 parts [] = f ->
  digits whole -> digits f ->
  toWei text = Some (Z.of_N (value10 whole 0 * 10 ^ 6 + value10 (six_digits f) 0)).
Proof.
  intros Hsplit Hf Hw Hd. unfold toWei, toWei_text. rewrite Hsplit. cbn [nth]. rewrite Hf.
  fold (six_digits f).
  rewrite StringToBigInt_digits.
  - rewrite value10_concat, six_digits_length. reflexivity.
  - intros Hnil. apply (f_equal (@length ascii)) in Hnil.
    rewrite length_app, six_digits_length in Hnil. simpl in Hnil. lia.
  - apply Forall_app. split; [exact Hw | apply six_digits_digits; exact Hd].
Qed.

Lemma no_dot (s : list ascii) : digits s -> Forall (fun c => is_char 46 c = false) s.
Proof. intros Hs. eapply Forall_impl; [exact Hs |]. intros c. apply digit_not_dot. Qed.

Lemma split_on_head (s : list ascii) : exists p ps, split_on 46 s = p :: ps.
Proof.
  induction s as [| c r (p & ps & IH)]; simpl; [eauto |].
  destruct (is_char 46 c); [eauto |]. rewrite IH. eauto.
Qed.

(** X13. On plain decimal texts [toWei] scales by [10^6] and rounds down: a
    run of digits is its value times [10^6]; with a fraction of up to six
    digits the fraction is padded with zeros; a longer fraction is cut after
    its sixth digit, never rounded up; and whatever follows a second point
    is ignored. Either run of digits may be empty. *)
Theorem toWei_rounds_down (w f : list ascii) :
  digits w -> digits f ->
  let whole := value10 w 0 in
  toWei (string_of_list_ascii w) = Some (Z.of_N (whole * 10 ^ 6)) /\
  (length f <= 6 ->
     toWei (string_of_list_ascii (w ++ "."%char :: f))
     = Some (Z.of_N (whole * 10 ^ 6 + value10 f 0 * 10 ^ N.of_nat (6 - length f))))%nat /\
  (6 <= length f ->
     toWei (string_of_list_ascii (w ++ "."%char :: f))
     = Some (Z.of_N (whole * 10 ^ 6 + value10 (take 6 f) 0)))%nat /\
  forall rest,
    toWei (string_of_list_ascii (w ++ "."%char :: f ++ "."%char :: rest))
    = toWei (string_of_list_ascii (w ++ "."%char :: f)).
Proof.
  intros Hw Hf whole.
  assert (Hzeros : six_digits [] = replicate 6 "0"%char) by reflexivity.
  assert (Hdot : is_char 46 "."%char = true) by reflexivity.
  assert (Hone : split_on 46 (w ++ "."%char :: f) = [w; f]).
  { rewrite (split_on_once 46 w f "."%char (no_dot w Hw) Hdot).
    rewrite (split_on_digits 46 f (no_dot f Hf)). reflexivity. }
  assert (Hgen : toWei (string_of_list_ascii (w ++ "."%char :: f))
                 = Some (Z.of_N (whole * 10 ^ 6 + value10 (six_digits f) 0))).
  { apply (toWei_parts w f [f]); [| reflexivity | exact Hw | exact Hf].
    rewrite list_ascii_of_string_of_list_ascii. exact Hone. }
  split; [| split; [| split]].
  - rewrite (toWei_parts w [] [] (string_of_list_ascii w)); [| | reflexivity | exact Hw | constructor].
    + rewrite Hzeros, value10_zeros, N.add_0_r. reflexivity.
    + rewrite list_ascii_of_string_of_list_ascii. apply split_on_digits, no_dot, Hw.
  - intros Hlen. rewrite Hgen. do 3 f_equal.
    unfold six_digits, slice, padEnd, decimals. rewrite drop_0, Nat.sub_0_r.
    rewrite take_ge by (rewrite length_app, length_replicate; lia).
    rewrite value10_concat, length_replicate, value10_zeros. lia.
  - intros Hlen. rewrite Hgen. do 3 f_equal.
    unfold six_digits, slice, padEnd, decimals. rewrite drop_0, Nat.sub_0_r.
    rewrite take_app_le by lia. reflexivity.
  - intros rest. rewrite Hgen.
    destruct (split_on_head rest) as (p & ps & Hrest).
    apply (toWei_parts w f (f :: p :: ps)); [| reflexivity | exact Hw | exact Hf].
    rewrite list_ascii_of_string_of_list_ascii.
    rewrite (split_on_once 46 w _ "."%char (no_dot w Hw) Hdot).
    rewrite (split_on_once 46 f _ "."%char (no_dot f Hf) Hdot). rewrite Hrest.
    reflexivity.
Qed.

Lemma string_length_list (s : string) : String.length s = length (list_ascii_of_string s).
Proof. induction s as [| c r IH]; simpl; [reflexivity | rewrite IH; reflexivity]. Qed.

Lemma string_of_list_ascii_app (a b : list ascii) :
  string_of_list_ascii (a ++ b) = (string_of_list_ascii a ++ string_of_list_ascii b)%string.
Proof. induction a as [| c r IH]; simpl; [reflexivity | rewrite IH; reflexivity]. Qed.

Lemma isValidAddress_spec (address : string) :
  isValidAddress address = true ->
  exists body,
    list_ascii_of_string address = "0"%char :: "x"%char :: body /\
    length body = 40%nat /\ Forall (fun c => is_hex c = true) body.
Proof.
  unfold isValidAddress. destruct (list_ascii_of_string address) as [| z [| x body]];
    [discriminate .. |].
  intros H. apply andb_true_iff in H. destruct H as [H Hhex].
  apply andb_true_iff in H. destruct H as [H Hlen].
  apply andb_true_iff in H. destruct H as [Hz Hx].
  unfold is_char in Hz, Hx. apply N.eqb_eq in Hz, Hx.
  exists body. split; [| split].
  - f_equal; [| f_equal].
    + rewrite <- (ascii_N_embedding z). unfold code in Hz. rewrite Hz. reflexivity.
    + rewrite <- (ascii_N_embedding x). unfold code in Hx. rewrite Hx. reflexivity.
  - apply Nat.eqb_eq. exact Hlen.
  - apply Forall_forall. intros c Hc. rewrite forallb_forall in Hhex. apply Hhex.
    apply list_elem_of_In. exact Hc.
Qed.

(** X14. [shortenAddress] returns a text that is not a valid address
    unchanged. A valid address has 42 characters; for 1 to 40 [chars] the
    result is the first [chars + 2] characters, three dots and the last
    [chars] characters; for [chars = 0] the whole address follows the dots
    (since [slice(-0)] is the whole string), and from 42 [chars] on the
    address is printed twice. *)
Theorem shortenAddress_shape (address : string) (chars : nat) :
  (isValidAddress address = false -> shortenAddress address chars = address) /\
  (isValidAddress address = true ->
     String.length address = 42%nat /\
     (1 <= chars <= 40 ->
        String.length (shortenAddress address chars) = 2 * chars + 5 /\
        exists first last,
          length first = chars + 2 /\ length last = chars /\
          list_ascii_of_string (shortenAddress address chars)
            = first ++ list_ascii_of_string "..." ++ last /\
          first `prefix_of` list_ascii_of_string address /\
          last `suffix_of` list_ascii_of_string address)%nat /\
     shortenAddress address 0 = ("0x..." ++ address)%string /\
     (42 <= chars -> shortenAddress address chars = (address ++ "..." ++ address)%string)%nat).
Proof.
  split.
  - intros Hbad. unfold shortenAddress. rewrite Hbad. reflexivity.
  - intros Hok. destruct (isValidAddress_spec address Hok) as (body & Hs & Hlen & _).
    assert (Hlen42 : length (list_ascii_of_string address) = 42%nat)
      by (rewrite Hs; simpl; rewrite Hlen; reflexivity).
    unfold shortenAddress. rewrite Hok. cbn [negb].
    set (s := list_ascii_of_string address) in *.
    split; [rewrite string_length_list; exact Hlen42 |].
    split; [| split].
    + intros Hchars. unfold slice, slice_last. rewrite drop_0, Nat.sub_0_r.
      destruct chars as [| n]; [lia |].
      split.
      * rewrite string_length_list, list_ascii_of_string_of_list_ascii.
        rewrite !length_app, length_take, length_drop. change (length (list_ascii_of_string "...")) with 3%nat. lia.
      * exists (take (S n + 2) s), (drop (length s - S n) s).
        rewrite list_ascii_of_string_of_list_ascii.
        split; [rewrite length_take; lia |]. split; [rewrite length_drop; lia |].
        split; [reflexivity |].
        split; [apply prefix_take | apply suffix_drop].
    + unfold slice, slice_last. rewrite drop_0. cbn [Nat.add Nat.sub].
      rewrite !string_of_list_ascii_app. unfold s at 2.
      rewrite !string_of_list_ascii_of_string, Hs. reflexivity.
    + intros Hchars. unfold slice, slice_last. rewrite drop_0, Nat.sub_0_r.
      destruct chars as [| n]; [lia |].
      rewrite take_ge by lia.
      replace (length s - S n)%nat with 0%nat by lia. rewrite drop_0.
      unfold s. rewrite !string_of_list_ascii_app, !string_of_list_ascii_of_string.
      reflexivity.
Qed.

End AmountTexts.

(** ** What [fromWei] prints *)
Section PrintedAmounts.
Import Js Utils.

Local Abbreviation digits s := (Forall (fun c => is_digit c = true) s).

Lemma strip_trailing_zeros_last (s : list ascii) :
  last (strip_trailing_zeros s) <> Some "0"%char.
Proof.
  induction s as [| c r IH]; [discriminate |].
  cbn [strip_trailing_zeros].
  destruct (strip_trailing_zeros r) as [| d r'] eqn:Hr.
  - destruct (is_char 48 c) eqn:Hc; [discriminate |].
    cbn. intros [= ->]. discriminate.
  - change (last (c :: d :: r')) with (last (d :: r')). exact IH.
Qed.

(** X29. For a non-negative amount [fromWei] prints a non-empty run of
    digits, followed, unless the fraction is zero, by a point and at most
    six digits that do not end in a zero; the text is never left with a bare
    point or a trailing zero of the fraction, and the amount is the whole
    part times [10^6] plus the fraction read as millionths. *)
Theorem fromWei_prints_canonically (w : Z) :
  (0 <= w)%Z ->
  exists whole fraction : list ascii,
    list_ascii_of_string (fromWei w)
      = match fraction with
        | [] => whole
        | _ => whole ++ "."%char :: fraction
        end /\
    whole <> [] /\ digits whole /\ digits fraction /\
    (length fraction <= 6)%nat /\
    last fraction <> Some "0"%char /\
    Z.to_N w
      = (value10 whole 0 * 10 ^ 6
         + value10 fraction 0 * 10 ^ N.of_nat (6 - length fraction))%N.
Proof.
  intros Hw. unfold fromWei. rewrite list_ascii_of_string_of_list_ascii.
  unfold BigInt_toString. destruct (Z.ltb_spec w 0) as [Hneg | _]; [lia |].
  destruct (decimal_digits_spec (Z.to_N w)) as (Hne & Hds & Hval).
  set (ds := decimal_digits (Z.to_N w)) in *.
  set (weiStr := padStart (decimals + 1) "0" ds).
  assert (Hall : digits weiStr).
  { apply Forall_app. split; [apply Forall_replicate; reflexivity | exact Hds]. }
  assert (Hlen : (decimals + 1 <= length weiStr)%nat).
  { unfold weiStr, padStart. rewrite length_app, length_replicate. lia. }
  assert (Hvalue : value10 weiStr 0 = Z.to_N w).
  { unfold weiStr, padStart. rewrite value10_app, value10_zeros. exact Hval. }
  set (pos := (length weiStr - decimals)%nat).
  assert (Hsplit : weiStr = take pos weiStr ++ drop pos weiStr)
    by (symmetry; apply take_drop).
  assert (Hwhole : slice 0 pos weiStr = take pos weiStr).
  { unfold slice. rewrite Nat.sub_0_r. reflexivity. }
  rewrite Hwhole.
  assert (Hwlen : length (take pos weiStr) = pos).
  { rewrite length_take. unfold pos. lia. }
  assert (Hdlen : length (drop pos weiStr) = 6%nat).
  { rewrite length_drop. unfold pos, decimals in *. lia. }
  assert (Hwne : take pos weiStr <> []).
  { intros Hnil. rewrite Hnil in Hwlen. simpl in Hwlen. unfold pos, decimals in *. lia. }
  destruct (strip_trailing_zeros_spec (drop pos weiStr)) as [k Hk].
  set (fraction := strip_trailing_zeros (drop pos weiStr)) in *.
  rewrite Hsplit in Hall. apply Forall_app in Hall. destruct Hall as [Hw1 Hd1].
  assert (Hflen : (length fraction + k = 6)%nat).
  { rewrite Hk in Hdlen at 1. rewrite length_app, length_replicate in Hdlen. exact Hdlen. }
  exists (take pos weiStr), fraction.
  split; [destruct (take pos weiStr) as [| c r] eqn:Ht; [congruence | reflexivity] |].
  split; [exact Hwne |]. split; [exact Hw1 |].
  split; [apply strip_trailing_zeros_digits; exact Hd1 |].
  split; [lia |].
  split; [apply strip_trailing_zeros_last |].
  rewrite <- Hvalue, Hsplit at 1. rewrite Hk.
  rewrite !value10_concat, length_app, length_replicate, value10_zeros, Hflen.
  replace (6 - length fraction)%nat with k by lia.
  change (N.of_nat 6) with 6%N. lia.
Qed.

Lemma fromWei_prints_canonically_witness :
  (0 <= 100500000)%Z /\
  exists whole fraction : list ascii,
    list_ascii_of_string (fromWei 100500000)
      = match fraction with
        | [] => whole
        | _ => whole ++ "."%char :: fraction
        end /\
    last fraction <> Some "0"%char.
Proof.
  assert (Hpos : (0 <= 100500000)%Z) by discriminate.
  split; [exact Hpos |].
  destruct (fromWei_prints_canonically 100500000 Hpos)
    as (whole & fraction & Hout & _ & _ & _ & _ & Hlast & _).
  exists whole, fraction. split; [exact Hout | exact Hlast].
Defined.

End PrintedAmounts.

(** ** The client: entry point, registration and independence of keys *)
Section ClientFacts.
Import Utils MneeClient.

Lemma authorizeAgent_account (env : AuthorizeEnv) (options : AuthorizeAgentOptions)
    (w : World) :
  account (authorizeAgent env options w).1 = account w.
Proof.
  unfold authorizeAgent, approve.
  destruct (account w) as [main |] eqn:Hacc; [| exact Hacc].
  destruct (toWei (opt_spendLimit options)) as [limit |]; [| exact Hacc].
  cbn [account set_sessionKeys set_heap]. rewrite Hacc.
  destruct (auth_approve env); exact Hacc.
Qed.

(** X15. A session key returned by [authorizeAgent] expires at the second
    of its authorisation plus the duration: a payment at or after that
    second throws "Session key has expired" and changes nothing, so a key
    with a duration of zero or less can never pay; before that second a
    payment within the limit that the wallet accepts is submitted as a
    [transferFrom] signed by the session account and debited. *)
Theorem session_key_lifetime (env : AuthorizeEnv) (options : AuthorizeAgentOptions)
    (w w1 : World) (r : ref) :
  authorizeAgent env options w = (w1, Returned r) ->
  forall (penv : PayEnv) (recipient : Address) (value : Z),
    let expiry := (auth_now env / 1000 + opt_duration options)%Z in
    let pay := _sendPaymentWithSessionKey penv recipient value r w1 in
    ((expiry <= pay_now penv / 1000)%Z -> pay = (w1, Threw "Session key has expired")) /\
    ((opt_duration options <= 0)%Z -> (auth_now env <= pay_now penv)%Z ->
       pay = (w1, Threw "Session key has expired")) /\
    ((pay_now penv / 1000 < expiry)%Z ->
     forall limit h,
       toWei (opt_spendLimit options) = Some limit -> (value <= limit)%Z ->
       pay_submit penv = Returned h ->
       exists main,
         account w = Some main /\
         submitted pay.1 = submitted w1 ++
           [{| signer := SessionAccount (auth_privateKey env);
               call := TransferFrom main recipient value; answer := Returned h |}] /\
         remainingLimit <$> heap pay.1 !! r = Some (limit - value)%Z).
Proof.
  intros Hauth penv recipient value expiry pay.
  destruct (authorizeAgent_returned _ _ _ _ _ Hauth)
    as (limit & main & h0 & Hlim & Hacc & _ & Hr & Hheap & _ & _).
  assert (Hacc1 : account w1 = Some main).
  { pose proof (authorizeAgent_account env options w) as Hsame.
    rewrite Hauth in Hsame. cbn [fst] in Hsame. congruence. }
  assert (Hk : heap w1 !! r
               = Some {| privateKey := auth_privateKey env; address := auth_address env;
                         spendLimit := limit; remainingLimit := limit;
                         expiresAt := getExpirationTimestamp (auth_now env)
                                        (opt_duration options);
                         createdAt := (auth_created env / 1000)%Z |}).
  { rewrite Hheap, Hr. rewrite lookup_app_r by lia. rewrite Nat.sub_diag. reflexivity. }
  assert (Hexpired : (expiry <= pay_now penv / 1000)%Z ->
                     pay = (w1, Threw "Session key has expired")).
  { intros Hle. unfold pay, _sendPaymentWithSessionKey. rewrite Hk.
    cbn [expiresAt]. unfold isExpired, getExpirationTimestamp.
    apply Z.leb_le in Hle. unfold expiry in Hle. rewrite Hle. reflexivity. }
  split; [exact Hexpired |]. split.
  - intros Hd Hnow. apply Hexpired. unfold expiry.
    assert (auth_now env / 1000 <= pay_now penv / 1000)%Z
      by (apply Z.div_le_mono; lia).
    lia.
  - intros Hlive limit' h Hlim' Hv Hsub. rewrite Hlim in Hlim'. inversion Hlim'; subst limit'.
    exists main. split; [exact Hacc |].
    unfold pay, _sendPaymentWithSessionKey. rewrite Hk.
    cbn [expiresAt remainingLimit privateKey]. unfold isExpired, getExpirationTimestamp.
    destruct (Z.leb_spec (auth_now env / 1000 + opt_duration options) (pay_now penv / 1000))
      as [Hle | _]; [unfold expiry in Hlive; lia |].
    destruct (Z.ltb_spec limit value) as [Hlt | _]; [lia |].
    rewrite Hacc1, Hsub.
    assert (Hdeb : forall w2, heap w2 = heap w1 ->
              remainingLimit <$> heap (debit r value w2) !! r = Some (limit - value)%Z).
    { intros w2 Hw2. unfold debit, set_heap. cbn [heap]. rewrite Hw2.
      rewrite list_lookup_alter, Hk. case_decide; [reflexivity | congruence]. }
    destruct (pay_receipt penv); cbn [fst]; (split; [reflexivity | apply Hdeb; reflexivity]).
Qed.

Lemma debited_snoc_other (key : string) (log : list Submission) (s : Submission) :
  debit_of key s = 0%Z -> debited key (log ++ [s]) = debited key log.
Proof.
  intros Hs. unfold debited. rewrite foldr_app. cbn [foldr]. rewrite Hs.
  induction log as [| x l IH]; cbn [foldr]; [reflexivity | rewrite IH; reflexivity].
Qed.

(** X16. [sendPayment] checks the recipient before anything else: with an
    invalid recipient it throws "Invalid recipient address" and changes
    nothing, with or without a session key; an amount that [BigInt] refuses
    throws its SyntaxError, which quotes the text [BigInt] was given, before
    anything is sent. With a session key the converted amount
    is handed to [_sendPaymentWithSessionKey]. Without one, no session key
    is touched or debited: the main account signs one [transfer] of the
    converted amount, or, without an account, nothing is sent. *)
Theorem sendPayment_entry (env : PayEnv) (recipient : Address) (amount : string)
    (sessionKey : option ref) (w : World) :
  (isValidAddress recipient = false ->
     sendPayment env recipient amount sessionKey w = (w, Threw "Invalid recipient address")) /\
  (isValidAddress recipient = true ->
     (toWei amount = None ->
        sendPayment env recipient amount sessionKey w = (w, Threw (SyntaxError amount))) /\
     (forall v, toWei amount = Some v ->
        (forall r, sessionKey = Some r ->
           sendPayment env recipient amount sessionKey w
           = _sendPaymentWithSessionKey env recipient v r w) /\
        (sessionKey = None ->
           let w' := (sendPayment env recipient amount sessionKey w).1 in
           heap w' = heap w /\ sessionKeys w' = sessionKeys w /\
           (forall key, debited key (submitted w') = debited key (submitted w)) /\
           (account w = None -> w' = w) /\
           (forall main, account w = Some main ->
              submitted w' = submitted w ++
                [{| signer := MainAccount main; call := Transfer recipient v;
                    answer := pay_submit env |}])))).
Proof.
  split.
  - intros Hbad. unfold sendPayment. rewrite Hbad. reflexivity.
  - intros Hok. split.
    + intros Hnone. unfold sendPayment. rewrite Hok, Hnone. reflexivity.
    + intros v Hv. split.
      * intros r ->. unfold sendPayment. rewrite Hok, Hv. reflexivity.
      * intros ->. unfold sendPayment. rewrite Hok, Hv. cbn [negb].
        destruct (account w) as [main |] eqn:Hacc.
        -- assert (Hw1 : forall res : outcome TransactionReceipt,
                     let w' := (writeContract (MainAccount main) (Transfer recipient v)
                                  (pay_submit env) w, res).1 in
                     heap w' = heap w /\ sessionKeys w' = sessionKeys w /\
                     (forall key, debited key (submitted w') = debited key (submitted w)) /\
                     (Some main = None -> w' = w) /\
                     (forall main0, Some main = Some main0 ->
                        submitted w' = submitted w ++
                          [{| signer := MainAccount main0; call := Transfer recipient v;
                              answer := pay_submit env |}])).
           { intros res. cbn [fst writeContract heap sessionKeys submitted].
             repeat split; try discriminate.
             - intros key. apply debited_snoc_other. reflexivity.
             - intros main0 [= <-]. reflexivity. }
           destruct (pay_submit env) as [h | m] eqn:Hsub; [| apply Hw1].
           destruct (pay_receipt env); apply Hw1.
        -- cbn [fst]. repeat split; try discriminate.
Qed.

(** X17. [authorizeAgent] stores the new key before it asks for the
    allowance: when the approval is refused the call throws the wallet's
    error, and the key is nevertheless in the client's map under its label,
    with its full limit. *)
Theorem authorize_registers_before_approval (env : AuthorizeEnv)
    (options : AuthorizeAgentOptions) (w : World) (main : Address) (limit : Z) (m : string) :
  account w = Some main ->
  toWei (opt_spendLimit options) = Some limit ->
  auth_approve env = Threw m ->
  let w' := (authorizeAgent env options w).1 in
  let r := length (heap w) in
  (authorizeAgent env options w).2 = Threw m /\
  getSessionKey (keyId_of (opt_label options) (auth_address env)) w' = Some r /\
  heap w' !! r
    = Some {| privateKey := auth_privateKey env; address := auth_address env;
              spendLimit := limit; remainingLimit := limit;
              expiresAt := getExpirationTimestamp (auth_now env) (opt_duration options);
              createdAt := (auth_created env / 1000)%Z |} /\
  submitted w' = submitted w ++
    [{| signer := MainAccount main; call := Approve (auth_address env) limit;
        answer := Threw m |}].
Proof.
  intros Hacc Hlim Hans w' r. unfold w', authorizeAgent, approve.
  rewrite Hacc, Hlim. cbn [account set_sessionKeys set_heap]. rewrite Hacc, Hans.
  cbn [fst snd writeContract getSessionKey sessionKeys heap submitted].
  split; [reflexivity |]. split; [apply lookup_insert_eq |].
  split; [| reflexivity].
  unfold r. cbn [heap set_sessionKeys set_heap]. rewrite lookup_app_r by lia. rewrite Nat.sub_diag. reflexivity.
Qed.

(** X18. Session keys do not interfere: a payment with one key leaves every
    other key object, the map and the account as they were; a revocation
    changes no key object and no other entry of the map; and
    [authorizeAgent] changes no existing key object and no entry under
    another label. *)
Theorem keys_are_independent (w : World) (r : ref) :
  (forall env recipient v r',
     r' <> r ->
     let w' := (_sendPaymentWithSessionKey env recipient v r' w).1 in
     heap w' !! r = heap w !! r /\ sessionKeys w' = sessionKeys w /\ account w' = account w) /\
  (forall ans keyId,
     let w' := (revokeSessionKey ans keyId w).1 in
     heap w' = heap w /\
     forall other, other <> keyId -> sessionKeys w' !! other = sessionKeys w !! other) /\
  (forall env options,
     let w' := (authorizeAgent env options w).1 in
     (r < length (heap w))%nat -> heap w' !! r = heap w !! r) /\
  (forall env options,
     let w' := (authorizeAgent env options w).1 in
     forall other, other <> keyId_of (opt_label options) (auth_address env) ->
       sessionKeys w' !! other = sessionKeys w !! other).
Proof.
  split; [| split; [| split]].
  - intros env recipient v r' Hne. unfold _sendPaymentWithSessionKey.
    destruct (heap w !! r') as [k |]; [| auto].
    destruct (isExpired _ _); [auto |].
    destruct (_ <? _)%Z; [auto |].
    destruct (account w) as [main |] eqn:Hacc; [| auto].
    destruct (pay_submit env) as [h | m]; [| cbn; auto].
    assert (Hd : heap (debit r' v (writeContract (SessionAccount (privateKey k))
                   (TransferFrom main recipient v) (Returned h) w)) !! r = heap w !! r).
    { unfold debit, set_heap, writeContract. cbn [heap].
      rewrite list_lookup_alter_ne by exact Hne. reflexivity. }
    destruct (pay_receipt env); cbn [fst]; (split; [exact Hd | split; [reflexivity | exact Hacc]]).
  - intros ans keyId. unfold revokeSessionKey, approve.
    destruct (sessionKeys w !! keyId) as [key |]; [| auto].
    destruct (heap w !! key) as [k |]; [| auto].
    destruct (account w) as [main |]; [| auto].
    destruct (toWei "0") as [z |]; [| auto].
    destruct ans as [h | m]; cbn; [| auto].
    split; [reflexivity |]. intros other Hne. apply lookup_delete_ne. congruence.
  - intros env options. unfold authorizeAgent, approve.
    destruct (account w) as [main |] eqn:Hacc; [| auto].
    destruct (toWei (opt_spendLimit options)) as [limit |]; [| auto].
    cbn [account set_sessionKeys set_heap]. rewrite Hacc.
    intros Hr.
    destruct (auth_approve env); cbn [fst writeContract heap set_sessionKeys set_heap];
      rewrite lookup_app_l by exact Hr; reflexivity.
  - intros env options. unfold authorizeAgent, approve.
    destruct (account w) as [main |] eqn:Hacc; [| auto].
    destruct (toWei (opt_spendLimit options)) as [limit |]; [| auto].
    cbn [account set_sessionKeys set_heap]. rewrite Hacc.
    intros other Hne.
    destruct (auth_approve env); cbn [fst writeContract sessionKeys set_sessionKeys set_heap];
      apply lookup_insert_ne; congruence.
Qed.

(** X19. Authorising under a label that is in use replaces the map entry:
    [getSessionKey] now returns the new key, while the earlier key object
    is unchanged and pays as before for whoever holds it; and
    [revokeSessionKey] under that label revokes the new key's allowance and
    removes the entry, so the earlier key can no longer be revoked through
    the client. *)
Theorem reused_label_orphans_key (env : AuthorizeEnv) (options : AuthorizeAgentOptions)
    (w w' : World) (old new : ref) (k : SessionKey) :
  let keyId := keyId_of (opt_label options) (auth_address env) in
  sessionKeys w !! keyId = Some old ->
  heap w !! old = Some k ->
  authorizeAgent env options w = (w', Returned new) ->
  new <> old /\
  getSessionKey keyId w' = Some new /\
  heap w' !! old = Some k /\
  (forall penv recipient v,
     (_sendPaymentWithSessionKey penv recipient v old w').2
     = (_sendPaymentWithSessionKey penv recipient v old w).2) /\
  forall h,
    let w'' := (revokeSessionKey (Returned h) keyId w').1 in
    getSessionKey keyId w'' = None /\
    heap w'' !! old = Some k /\
    exists main,
      submitted w'' = submitted w' ++
        [{| signer := MainAccount main; call := Approve (auth_address env) 0;
            answer := Returned h |}].
Proof.
  intros keyId Hold Hk Hauth.
  destruct (authorizeAgent_returned _ _ _ _ _ Hauth)
    as (limit & main & h0 & Hlim & Hacc & _ & Hr & Hheap & Hkeys & _).
  assert (Hacc' : account w' = Some main).
  { pose proof (authorizeAgent_account env options w) as Hsame.
    rewrite Hauth in Hsame. cbn [fst] in Hsame. congruence. }
  assert (Hlt : (old < length (heap w))%nat) by (apply lookup_lt_Some in Hk; exact Hk).
  assert (Hk' : heap w' !! old = Some k).
  { rewrite Hheap, lookup_app_l by exact Hlt. exact Hk. }
  assert (Hnew : heap w' !! new
            = Some {| privateKey := auth_privateKey env; address := auth_address env;
                      spendLimit := limit; remainingLimit := limit;
                      expiresAt := getExpirationTimestamp (auth_now env) (opt_duration options);
                      createdAt := (auth_created env / 1000)%Z |}).
  { rewrite Hheap, Hr. rewrite lookup_app_r by lia. rewrite Nat.sub_diag. reflexivity. }
  split; [lia |].
  split; [unfold getSessionKey; rewrite Hkeys; apply lookup_insert_eq |].
  split; [exact Hk' |].
  split.
  - intros penv recipient v. unfold _sendPaymentWithSessionKey. rewrite Hk, Hk', Hacc, Hacc'.
    destruct (isExpired _ _); [reflexivity |].
    destruct (_ <? _)%Z; [reflexivity |].
    destruct (pay_submit penv); [| reflexivity].
    destruct (pay_receipt penv); reflexivity.
  - intros h w''. unfold w'', revokeSessionKey, approve.
    fold keyId in Hkeys. rewrite Hkeys, lookup_insert_eq, Hnew, Hacc', toWei_zero.
    cbn [fst address writeContract set_sessionKeys getSessionKey sessionKeys heap submitted].
    split; [apply lookup_delete_eq |]. split; [exact Hk' |].
    exists main. reflexivity.
Qed.

(** X20. Two payments with one key whose checks both run before either is
    submitted are both submitted and both debited whenever each amount alone
    is within the remaining limit: the remaining limit ends at the old one
    less both amounts, below zero when the amounts together exceed it. *)
Theorem overlapping_payments_both_debited (w : World) (r : ref) (k : SessionKey)
    (main : Address) (to1 to2 : Address) (v1 v2 : Z) (n1 n2 : Z) (h1 h2 : Hash) :
  heap w !! r = Some k -> account w = Some main ->
  (n1 / 1000 < expiresAt k)%Z -> (n2 / 1000 < expiresAt k)%Z ->
  (v1 <= remainingLimit k)%Z -> (v2 <= remainingLimit k)%Z ->
  let overlapping :=
    [ (0%nat, Enter n1); (1%nat, Enter n2);
      (0%nat, Submitted (Returned h1)); (1%nat, Submitted (Returned h2)) ] in
  let done := run_schedule overlapping [Called to1 v1 r; Called to2 v2 r] w in
  done.2 = [AwaitingReceipt main to1 v1 r h1; AwaitingReceipt main to2 v2 r h2] /\
  remainingLimit <$> heap done.1 !! r = Some (remainingLimit k - v1 - v2)%Z /\
  submitted done.1 = submitted w ++
    [ {| signer := SessionAccount (privateKey k); call := TransferFrom main to1 v1;
         answer := Returned h1 |};
      {| signer := SessionAccount (privateKey k); call := TransferFrom main to2 v2;
         answer := Returned h2 |} ].
Proof.
  intros Hk Hacc He1 He2 Hv1 Hv2 overlapping done.
  assert (Henter : forall n to v, (n / 1000 < expiresAt k)%Z -> (v <= remainingLimit k)%Z ->
            resume (Enter n) (Called to v r) w
            = (w, AwaitingSubmit main (privateKey k) to v r)).
  { intros n to v Hn Hv. cbn [resume]. rewrite Hk, Hacc. unfold isExpired.
    destruct (Z.leb_spec (expiresAt k) (n / 1000)); [lia |].
    destruct (Z.ltb_spec (remainingLimit k) v); [lia | reflexivity]. }
  unfold done, overlapping.
  cbn [run_schedule lookup list_lookup]. rewrite (Henter n1 to1 v1 He1 Hv1).
  cbn [run_schedule lookup list_lookup insert list_insert].
  rewrite (Henter n2 to2 v2 He2 Hv2).
  cbn [run_schedule lookup list_lookup insert list_insert resume fst snd].
  split; [reflexivity |].
  split.
  - unfold debit, set_heap, writeContract. cbn [heap].
    rewrite !list_lookup_alter, Hk. repeat case_decide; try congruence.
    cbn. reflexivity.
  - unfold debit, set_heap, writeContract. cbn [submitted].
    rewrite <- app_assoc. reflexivity.
Qed.

(** X22. When the wallet refuses the zero approval, [revokeSessionKey]
    throws the wallet's error after the refused call has been handed over,
    and the key stays in the map with its object untouched; a later
    revocation that is accepted returns the hash and removes the key. *)
Theorem refused_revocation_keeps_key (keyId : string) (w : World) (key : ref)
    (k : SessionKey) (main : Address) (m : string) :
  sessionKeys w !! keyId = Some key ->
  heap w !! key = Some k ->
  account w = Some main ->
  let w' := (revokeSessionKey (Threw m) keyId w).1 in
  (revokeSessionKey (Threw m) keyId w).2 = Threw m /\
  getSessionKey keyId w' = Some key /\
  heap w' = heap w /\
  submitted w' = submitted w ++
    [{| signer := MainAccount main; call := Approve (address k) 0; answer := Threw m |}] /\
  forall h,
    (revokeSessionKey (Returned h) keyId w').2 = Returned h /\
    getSessionKey keyId (revokeSessionKey (Returned h) keyId w').1 = None.
Proof.
  intros Hid Hk Hacc w'. unfold w', revokeSessionKey, approve, getSessionKey.
  rewrite Hid, Hk, Hacc, toWei_zero.
  cbn [fst snd writeContract sessionKeys heap account submitted].
  rewrite Hid, Hk, Hacc.
  split; [reflexivity |]. split; [reflexivity |]. split; [reflexivity |].
  split; [reflexivity |].
  intros h. cbn [fst snd set_sessionKeys sessionKeys writeContract].
  split; [reflexivity | apply lookup_delete_eq].
Qed.

End ClientFacts.

(** ** The client properties on the example client *)
Section ClientExamples.
Import Js Utils MneeClient.

Lemma toWei_rounds_down_witness :
  Forall (fun c => is_digit c = true) (list_ascii_of_string "100") /\
  Forall (fun c => is_digit c = true) (list_ascii_of_string "5") /\
  toWei "100.5" = Some 100500000%Z /\
  toWei "100.5.77" = toWei "100.5".
Proof.
  assert (Hw : Forall (fun c => is_digit c = true) (list_ascii_of_string "100"))
    by (repeat constructor).
  assert (Hf : Forall (fun c => is_digit c = true) (list_ascii_of_string "5"))
    by (repeat constructor).
  split; [exact Hw |]. split; [exact Hf |].
  destruct (toWei_rounds_down _ _ Hw Hf) as (_ & Hshort & _ & Hrest).
  split.
  - apply (Hshort ltac:(cbn; lia)).
  - apply (Hrest (list_ascii_of_string "77")).
Defined.

Lemma session_key_lifetime_witness :
  authorizeAgent ex_authorize ex_options ex_client = (ex_authorized, Returned 0%nat) /\
  _sendPaymentWithSessionKey
    {| pay_now := 3605000; pay_submit := Returned "0xb2"%string;
       pay_receipt := Threw "timeout"; pay_done := 3606000 |}
    "0xShop" 1 0%nat ex_authorized
  = (ex_authorized, Threw "Session key has expired").
Proof.
  assert (Hauth : authorizeAgent ex_authorize ex_options ex_client
                  = (ex_authorized, Returned 0%nat)) by reflexivity.
  split; [exact Hauth |].
  destruct (session_key_lifetime _ _ _ _ _ Hauth
              {| pay_now := 3605000; pay_submit := Returned "0xb2"%string;
                 pay_receipt := Threw "timeout"; pay_done := 3606000 |} "0xShop" 1)
    as [Hexpired _].
  apply Hexpired. discriminate.
Defined.

Definition ex_refused : AuthorizeEnv :=
  {| auth_privateKey := "0xSessionSecret"; auth_address := "0xSession";
     auth_now := 5000; auth_created := 5001; auth_approve := Threw "User rejected the request" |}.

Lemma authorize_registers_before_approval_witness :
  (authorizeAgent ex_refused ex_options ex_client).2 = Threw "User rejected the request" /\
  getSessionKey "agent" (authorizeAgent ex_refused ex_options ex_client).1 = Some 0%nat.
Proof.
  destruct (authorize_registers_before_approval ex_refused ex_options ex_client
              "0xOwner" 1000000000 "User rejected the request" eq_refl eq_refl eq_refl)
    as (Hthrew & Hkey & _).
  split; [exact Hthrew | exact Hkey].
Defined.

Definition ex_second : AuthorizeEnv :=
  {| auth_privateKey := "0xOtherSecret"; auth_address := "0xOther";
     auth_now := 7000; auth_created := 7001; auth_approve := Returned "0xa2"%string |}.

Lemma reused_label_orphans_key_witness :
  exists w' k,
    authorizeAgent ex_second ex_options ex_authorized = (w', Returned 1%nat) /\
    heap ex_authorized !! 0%nat = Some k /\
    getSessionKey "agent" w' = Some 1%nat /\
    heap w' !! 0%nat = Some k.
Proof.
  destruct (authorizeAgent ex_second ex_options ex_authorized) as [w' res] eqn:Hauth.
  assert (Hres : res = Returned 1%nat).
  { apply (f_equal snd) in Hauth. cbn [snd] in Hauth. rewrite <- Hauth. reflexivity. }
  subst res.
  destruct (heap ex_authorized !! 0%nat) as [k |] eqn:Hk; [| discriminate].
  exists w', k. split; [reflexivity |]. split; [reflexivity |].
  destruct (reused_label_orphans_key ex_second ex_options ex_authorized w' 0%nat 1%nat k
              eq_refl Hk Hauth) as (_ & Hnew & Hold & _).
  split; [exact Hnew | exact Hold].
Defined.

Lemma overlapping_payments_both_debited_witness :
  exists k,
    heap ex_tight !! 0%nat = Some k /\ remainingLimit k = 100%Z /\
    remainingLimit <$>
      heap (run_schedule
              [ (0%nat, Enter 60000); (1%nat, Enter 60001);
                (0%nat, Submitted (Returned "0xd1"%string));
                (1%nat, Submitted (Returned "0xd2"%string)) ]
              [Called "0xShop" 80 0%nat; Called "0xMarket" 80 0%nat] ex_tight).1 !! 0%nat
    = Some (100 - 80 - 80)%Z.
Proof.
  destruct (heap ex_tight !! 0%nat) as [k |] eqn:Hk; [| discriminate].
  assert (Hlimit : remainingLimit k = 100%Z).
  { assert (Hsame : remainingLimit <$> heap ex_tight !! 0%nat = Some 100%Z) by reflexivity.
    rewrite Hk in Hsame. inversion Hsame. reflexivity. }
  assert (Hexp : expiresAt k = 3605%Z).
  { assert (Hsame : expiresAt <$> heap ex_tight !! 0%nat = Some 3605%Z) by reflexivity.
    rewrite Hk in Hsame. inversion Hsame. reflexivity. }
  exists k. split; [reflexivity |]. split; [exact Hlimit |].
  destruct (overlapping_payments_both_debited ex_tight 0%nat k "0xOwner" "0xShop" "0xMarket"
              80 80 60000 60001 "0xd1" "0xd2" Hk eq_refl)
    as (_ & Hrem & _); try (rewrite Hexp; reflexivity); try (rewrite Hlimit; discriminate).
  rewrite <- Hlimit. exact Hrem.
Defined.

Lemma refused_revocation_keeps_key_witness :
  exists k,
    heap ex_authorized !! 0%nat = Some k /\
    (revokeSessionKey (Threw "User rejected the request") "agent" ex_authorized).2
      = Threw "User rejected the request" /\
    getSessionKey "agent"
      (revokeSessionKey (Threw "User rejected the request") "agent" ex_authorized).1
      = Some 0%nat.
Proof.
  destruct (heap ex_authorized !! 0%nat) as [k |] eqn:Hk; [| discriminate].
  exists k. split; [reflexivity |].
  destruct (refused_revocation_keeps_key "agent" ex_authorized 0%nat k "0xOwner"
              "User rejected the request" eq_refl Hk eq_refl) as (Hthrew & Hkey & _).
  split; [exact Hthrew | exact Hkey].
Defined.

End ClientExamples.

(** ** The calldata of the gasless transfer *)
Section Calldata.
Import Js Utils AccountAbstractionService.

(** The value of a run of hexadecimal digits, read left to right. *)
Definition value16 (s : list ascii) (acc : N) : N :=
  fold_left (fun a c => (16 * a + default 0 (digit_value c))%N) s acc.

Definition is_hex_digit (c : ascii) : Prop := exists d, (d < 16)%N /\ digit_value c = Some d.

Lemma hex_char_value (d : N) : (d < 16)%N -> digit_value (hex_char d) = Some d.
Proof.
  intros Hd.
  assert (Hcases : (d = 0 \/ d = 1 \/ d = 2 \/ d = 3 \/ d = 4 \/ d = 5 \/ d = 6 \/ d = 7 \/
                    d = 8 \/ d = 9 \/ d = 10 \/ d = 11 \/ d = 12 \/ d = 13 \/ d = 14 \/
                    d = 15)%N) by lia.
  repeat (destruct Hcases as [-> | Hcases]; [reflexivity |]). subst d. reflexivity.
Qed.

Lemma parse_radix_hex (s : list ascii) (acc : N) :
  Forall is_hex_digit s -> parse_radix 16 s acc = Some (value16 s acc).
Proof.
  intros Hs. revert acc.
  induction Hs as [| c r (d & Hd & Hc) _ IH]; intros acc; cbn [parse_radix value16 fold_left];
    [reflexivity |].
  unfold digit_in. rewrite Hc. apply N.ltb_lt in Hd. rewrite Hd. cbn [from_option Datatypes.id].
  apply IH.
Qed.

Lemma value16_app (s t : list ascii) (acc : N) :
  value16 (s ++ t) acc = value16 t (value16 s acc).
Proof. unfold value16. apply fold_left_app. Qed.

Lemma value16_zeros (k : nat) : value16 (replicate k "0"%char) 0 = 0%N.
Proof. induction k as [| k IH]; [reflexivity | exact IH]. Qed.

Lemma hex_from_spec (fuel : nat) :
  forall (n : N) (acc : list ascii),
    (n < 2 ^ N.of_nat (S fuel))%N ->
    exists l,
      hex_from (S fuel) n acc = l ++ acc /\
      Forall is_hex_digit l /\
      value16 l 0 = n /\
      (forall k, (n < 16 ^ N.of_nat (S k))%N -> (length l <= S k)%nat) /\
      (forall k, (16 ^ N.of_nat k <= n)%N -> (k < length l)%nat).
Proof.
  induction fuel as [| fuel IH]; intros n acc Hn;
    assert (Hmod : (n mod 16 < 16)%N) by (apply N.mod_lt; lia);
    cbn [hex_from]; cbv zeta;
    destruct (N.ltb_spec n 16) as [Hlt | Hge].
  1, 3: exists [hex_char (n mod 16)]; split; [reflexivity |];
    split; [constructor; [exists (n mod 16)%N; split; [exact Hmod | apply hex_char_value, Hmod]
                         | constructor] |];
    split; [unfold value16; cbn [fold_left]; rewrite (hex_char_value _ Hmod);
            cbn [from_option Datatypes.id]; rewrite N.mod_small by exact Hlt; lia |];
    split; [intros k _; cbn; lia |];
    intros k Hk; destruct k as [| k]; [cbn; lia |];
    exfalso; rewrite Nat2N.inj_succ, N.pow_succ_r' in Hk;
    assert (1 <= 16 ^ N.of_nat k)%N by (apply N.lt_succ_r, N.lt_pred_lt_succ; cbn;
      apply N.neq_0_lt_0, N.pow_nonzero; discriminate); nia.
  - change (2 ^ N.of_nat 1)%N with 2%N in Hn. lia.
  - assert (Hdiv : (n / 16 < 2 ^ N.of_nat (S fuel))%N).
    { apply N.Div0.div_lt_upper_bound.
      rewrite (Nat2N.inj_succ (S fuel)), N.pow_succ_r' in Hn. lia. }
    destruct (IH (n / 16)%N (hex_char (n mod 16) :: acc) Hdiv)
      as (l & Heq & Hall & Hval & Hup & Hlow).
    pose proof (N.div_mod n 16 ltac:(discriminate)) as Hdm.
    exists (l ++ [hex_char (n mod 16)]).
    split; [cbn [hex_from] in Heq; cbv zeta in Heq; rewrite Heq, <- app_assoc; reflexivity |].
    split; [apply Forall_app; split; [exact Hall |];
            constructor; [exists (n mod 16)%N; split; [exact Hmod | apply hex_char_value, Hmod]
                         | constructor] |].
    split.
    { rewrite value16_app, Hval. unfold value16. cbn [fold_left].
      rewrite (hex_char_value _ Hmod). cbn [from_option Datatypes.id].
      revert Hdm. generalize (n / 16)%N (n mod 16)%N. intros q r Hdm. lia. }
    split.
    + intros k Hk. rewrite length_app. cbn [length].
      destruct k as [| k].
      * change (16 ^ N.of_nat 1)%N with 16%N in Hk. lia.
      * assert (Hq : (n / 16 < 16 ^ N.of_nat (S k))%N).
        { apply N.Div0.div_lt_upper_bound.
          rewrite (Nat2N.inj_succ (S k)), N.pow_succ_r' in Hk. lia. }
        specialize (Hup k Hq). lia.
    + intros k Hk. rewrite length_app. cbn [length].
      destruct k as [| k]; [lia |].
      assert (Hq : (16 ^ N.of_nat k <= n / 16)%N).
      { apply N.div_le_lower_bound; [discriminate |].
        rewrite Nat2N.inj_succ, N.pow_succ_r' in Hk. lia. }
      specialize (Hlow k Hq). lia.
Qed.

Lemma hex_digits_spec (n : N) :
  Forall is_hex_digit (hex_digits n) /\
  value16 (hex_digits n) 0 = n /\
  (forall k, (n < 16 ^ N.of_nat (S k))%N -> (length (hex_digits n) <= S k)%nat) /\
  (forall k, (16 ^ N.of_nat k <= n)%N -> (k < length (hex_digits n))%nat).
Proof.
  unfold hex_digits.
  assert (Hn : (n < 2 ^ N.of_nat (S (N.to_nat (N.log2 n))))%N).
  { rewrite Nat2N.inj_succ, N2Nat.id.
    destruct (N.eq_dec n 0%N) as [-> | Hpos]; [reflexivity |].
    apply N.log2_spec. lia. }
  destruct (hex_from_spec _ n [] Hn) as (l & Heq & Hall & Hval & Hup & Hlow).
  rewrite Heq, app_nil_r. auto.
Qed.


Lemma hex_digit_not_ws (c : ascii) : is_hex_digit c -> is_ws c = false.
Proof.
  intros (d & _ & Hc). unfold digit_value in Hc. unfold is_ws. cbv zeta in *.
  destruct (N.leb_spec 48 (code c)), (N.leb_spec (code c) 57),
    (N.leb_spec 97 (code c)), (N.leb_spec (code c) 102),
    (N.leb_spec 65 (code c)), (N.leb_spec (code c) 70); cbn in Hc; try discriminate;
    destruct (N.leb_spec 9 (code c)), (N.leb_spec (code c) 13), (N.eqb_spec (code c) 32),
      (N.eqb_spec (code c) 160);
    cbn; try reflexivity; lia.
Qed.

Lemma zero_is_hex_digit : is_hex_digit "0"%char.
Proof. exists 0%N. split; [lia | reflexivity]. Qed.

Lemma trim_ends (s : list ascii) (a b : ascii) (m : list ascii) :
  s = a :: m ++ [b] -> is_ws a = false -> is_ws b = false -> trim s = s.
Proof.
  intros -> Ha Hb. unfold trim. cbn [drop_ws]. rewrite Ha.
  cbn [rev]. rewrite rev_app_distr. cbn [rev app drop_ws]. rewrite Hb.
  cbn [rev]. rewrite rev_app_distr, rev_involutive. reflexivity.
Qed.

(** [BigInt("0x" + digits)] of a non-empty run of hexadecimal digits is its
    value. *)
Lemma StringToBigInt_hex (s : list ascii) :
  s <> [] -> Forall is_hex_digit s ->
  StringToBigInt ("0"%char :: "x"%char :: s) = Some (Z.of_N (value16 s 0)).
Proof.
  intros Hne Hs.
  assert (Htrim : trim ("0"%char :: "x"%char :: s) = "0"%char :: "x"%char :: s).
  { destruct (exists_last Hne) as (front & b & ->).
    apply Forall_app in Hs. destruct Hs as [_ Hb].
    apply (trim_ends _ "0"%char b ("x"%char :: front));
      [reflexivity | reflexivity | apply hex_digit_not_ws; exact (Forall_inv Hb)]. }
  unfold StringToBigInt. rewrite Htrim.
  change (is_char 43 "0") with false. change (is_char 45 "0") with false.
  change (is_char 48 "0") with true. change (radix_of_prefix "x") with (Some 16%N).
  cbv iota. unfold parse_digits. destruct s as [| c r]; [congruence |].
  rewrite (parse_radix_hex _ 0%N Hs). reflexivity.
Qed.

(** X24. [encodeTransferFunction] lays out the calldata of a token
    [transfer] for a valid recipient and a non-negative amount: the
    selector, then the recipient's forty digits after 24 zeros, then the
    amount in hexadecimal; [BigInt] of "0x" and what follows the 74th
    character is the amount again. For an amount below [2^256] the text has
    138 characters; a larger amount is not cut and makes the text longer. *)
Theorem encodeTransferFunction_layout (recipient : string) (amount : Z) :
  isValidAddress recipient = true -> (0 <= amount)%Z ->
  let data := list_ascii_of_string (encodeTransferFunction recipient amount) in
  take 10 data = list_ascii_of_string "0xa9059cbb" /\
  take 64 (drop 10 data)
    = replicate 24 "0"%char ++ drop 2 (list_ascii_of_string recipient) /\
  StringToBigInt ("0"%char :: "x"%char :: drop 74 data) = Some amount /\
  ((amount < 2 ^ 256)%Z -> length data = 138%nat) /\
  ((2 ^ 256 <= amount)%Z -> (138 < length data)%nat).
Proof.
  intros Hok Hamount data.
  destruct (isValidAddress_spec recipient Hok) as (body & Hs & Hlen & _).
  unfold data, encodeTransferFunction. rewrite list_ascii_of_string_of_list_ascii.
  rewrite Hs. cbn [drop]. rewrite drop_0. unfold BigInt_toString16.
  destruct (Z.ltb_spec amount 0) as [Hneg | _]; [lia |].
  destruct (hex_digits_spec (Z.to_N amount)) as (Hall & Hval & Hup & Hlow).
  set (hex := hex_digits (Z.to_N amount)) in *.
  assert (Haddr : padStart 64 "0" body = replicate 24 "0"%char ++ body).
  { unfold padStart. rewrite Hlen. reflexivity. }
  assert (Hlen64 : length (padStart 64 "0" body) = 64%nat).
  { rewrite Haddr, length_app, length_replicate, Hlen. reflexivity. }
  set (sig := list_ascii_of_string "0xa9059cbb").
  assert (Hsig : length sig = 10%nat) by reflexivity.
  split; [rewrite take_app_length' by (symmetry; exact Hsig); reflexivity |].
  split.
  { rewrite drop_app_length' by (symmetry; exact Hsig).
    rewrite take_app_length' by (symmetry; exact Hlen64). exact Haddr. }
  split.
  { rewrite app_assoc, drop_app_length' by (rewrite length_app; lia).
    rewrite StringToBigInt_hex.
    - unfold padStart. rewrite value16_app, value16_zeros, Hval. f_equal. lia.
    - unfold padStart. intros Hnil. apply (f_equal (@length ascii)) in Hnil.
      rewrite length_app, length_replicate in Hnil. cbn [length] in Hnil. lia.
    - unfold padStart. apply Forall_app. split; [| exact Hall].
      apply Forall_replicate, zero_is_hex_digit. }
  split.
  - intros Hsmall. rewrite !length_app, Hsig, Hlen64. unfold padStart.
    rewrite length_app, length_replicate.
    assert (Hle : (length hex <= 64)%nat).
    { apply (Hup 63%nat). change (16 ^ N.of_nat 64)%N with (2 ^ 256)%N. lia. }
    lia.
  - intros Hbig. rewrite !length_app, Hsig, Hlen64. unfold padStart.
    rewrite length_app, length_replicate.
    assert (Hgt : (64 < length hex)%nat).
    { apply (Hlow 64%nat). change (16 ^ N.of_nat 64)%N with (2 ^ 256)%N. lia. }
    lia.
Qed.

End Calldata.

(** ** The release route over requests in turn and requests that overlap *)
Section RouteSequences.
Import EscrowRoute.

Definition handle (call : Method * Request) (db : Db) : Db * Response :=
  match call.1 with
  | post => POST call.2 db
  | put => PUT call.2 db
  end.

Fixpoint serve (calls : list (Method * Request)) (db : Db) : Db * list Response :=
  match calls with
  | [] => (db, [])
  | call :: rest =>
      let '(db1, response) := handle call db in
      let '(db2, responses) := serve rest db1 in
      (db2, response :: responses)
  end.

Definition succeeded (r : Response) : bool :=
  match r with Success _ _ => true | Failure _ _ => false end.

Definition failed (r : Response) : bool :=
  match r with Success _ _ => false | Failure code _ => (code =? 500)%nat end.

Definition reports_failure (e : WebhookEvent) : bool :=
  match e with
  | escrow_release_failed _ | escrow_refund_failed _ => true
  | escrow_released _ _ _ _ | escrow_refunded _ _ _ => false
  end.

(** The columns a handler never writes. *)
Definition same_task (a b : EscrowTransaction) : Prop :=
  taskId b = taskId a /\ agentAddress b = agentAddress a /\
  providerAddress b = providerAddress a /\ amountFormatted b = amountFormatted a /\
  deadline b = deadline a /\ autoRefund b = autoRefund a.

(** One ACTIVE record is closed: COMPLETED or REFUNDED, its task as before. *)
Definition closes (db : Db) (records : gmap string EscrowTransaction) : Prop :=
  exists id old new,
    escrowTransaction db !! id = Some old /\ status old = ACTIVE /\
    same_task old new /\ (status new = COMPLETED \/ status new = REFUNDED) /\
    records = <[id := new]> (escrowTransaction db).

(** One request served alone: the records stay as they are, or one ACTIVE
    record is closed; one event is logged with a success and with a status
    500, none otherwise; and a success has closed a record. *)
Definition served (db db1 : Db) (response : Response) : Prop :=
  (escrowTransaction db1 = escrowTransaction db \/ closes db (escrowTransaction db1)) /\
  (succeeded response = true -> closes db (escrowTransaction db1)) /\
  exists events,
    webhookEvent db1 = webhookEvent db ++ events /\
    match response with
    | Success _ _ => exists e, events = [e] /\ reports_failure e = false
    | Failure code _ =>
        if (code =? 500)%nat then exists e, events = [e] /\ reports_failure e = true
        else events = []
    end.

Lemma rejects_cases (thrown : option (Await * string)) (a : Await) :
  rejects thrown a = None \/ exists text, rejects thrown a = Some (Rejected text).
Proof.
  destruct thrown as [[a' text] |]; cbn; [| left; reflexivity].
  case_decide; [right; eauto | left; reflexivity].
Qed.

Lemma closes_insert (db : Db) (id : string) (old new : EscrowTransaction) :
  escrowTransaction db !! id = Some old -> status old = ACTIVE ->
  same_task old new -> status new = COMPLETED \/ status new = REFUNDED ->
  closes db (<[id := new]> (escrowTransaction db)).
Proof. intros Hold Hst Hsame Hnew. exists id, old, new. auto. Qed.

Lemma handle_step (call : Method * Request) (db : Db) :
  served db (handle call db).1 (handle call db).2.
Proof.
  assert (Hkeep : forall event code error, (code =? 500)%nat = true ->
            reports_failure event = true ->
            served db (log event db) (Failure code error)).
  { intros event code error Hcode Hev. split; [left; reflexivity |].
    split; [discriminate |]. exists [event]. split; [reflexivity |].
    rewrite Hcode. eauto. }
  assert (Hnone : forall code error, (code =? 500)%nat = false ->
            served db db (Failure code error)).
  { intros code error Hcode. split; [left; reflexivity |]. split; [discriminate |].
    exists []. rewrite app_nil_r, Hcode. auto. }
  assert (Hclosed : forall id old new event response,
            escrowTransaction db !! id = Some old -> status old = ACTIVE ->
            same_task old new -> status new = COMPLETED \/ status new = REFUNDED ->
            reports_failure event = negb (succeeded response) ->
            (succeeded response = false -> failed response = true) ->
            served db (log event (set_row id new db)) response).
  { intros id old new event response Hold Hst Hsame Hnew Hev Hresp.
    assert (Hcl : closes db (escrowTransaction (log event (set_row id new db))))
      by (apply (closes_insert db id old new); assumption).
    split; [right; exact Hcl |]. split; [intros _; exact Hcl |].
    exists [event]. split; [reflexivity |].
    destruct response as [code error | row message]; cbn in Hev, Hresp.
    - rewrite (Hresp eq_refl). eauto.
    - eauto. }
  destruct call as [[|] req]; unfold handle; cbn [fst snd].
  - unfold POST, respond, POST_handler. cbn [try_body catch_event catch_response run].
    destruct (rejects_cases (thrown req) req_json) as [-> | [t ->]];
      [| apply Hkeep; reflexivity].
    destruct (falsy (body_taskId req) || falsy (body_attestationUID req));
      [apply Hnone; reflexivity |].
    cbn [run].
    destruct (rejects_cases (thrown req) findUnique) as [-> | [t ->]];
      [| apply Hkeep; reflexivity].
    destruct (escrowTransaction db !! default ""%string (body_taskId req)) as [old |] eqn:Hold;
      [| apply Hnone; reflexivity].
    destruct (status old) eqn:Hst; cbn [is_ACTIVE negb]; try (apply Hnone; reflexivity).
    destruct (deadline old <? checked_at req)%Z; [apply Hnone; reflexivity |].
    cbn [run].
    destruct (rejects_cases (thrown req) update) as [-> | [t ->]];
      [| apply Hkeep; reflexivity].
    rewrite Hold. cbn [run].
    destruct (rejects_cases (thrown req) create) as [-> | [t ->]]; cbn [run];
      (apply (Hclosed _ old); [exact Hold | exact Hst | repeat split | left; reflexivity
                               | reflexivity | try discriminate; reflexivity]).
  - unfold PUT, respond, PUT_handler. cbn [try_body catch_event catch_response run].
    destruct (rejects_cases (thrown req) req_json) as [-> | [t ->]];
      [| apply Hkeep; reflexivity].
    destruct (falsy (body_taskId req)); [apply Hnone; reflexivity |].
    cbn [run].
    destruct (rejects_cases (thrown req) findUnique) as [-> | [t ->]];
      [| apply Hkeep; reflexivity].
    destruct (escrowTransaction db !! default ""%string (body_taskId req)) as [old |] eqn:Hold;
      [| apply Hnone; reflexivity].
    destruct (status old) eqn:Hst; cbn [is_ACTIVE negb]; try (apply Hnone; reflexivity).
    destruct (checked_at req <=? deadline old)%Z; [apply Hnone; reflexivity |].
    cbn [run].
    destruct (rejects_cases (thrown req) update) as [-> | [t ->]];
      [| apply Hkeep; reflexivity].
    rewrite Hold. cbn [run].
    destruct (rejects_cases (thrown req) create) as [-> | [t ->]]; cbn [run];
      (apply (Hclosed _ old); [exact Hold | exact Hst | repeat split | right; reflexivity
                               | reflexivity | try discriminate; reflexivity]).
Qed.

(** How a record may differ after some requests. *)
Definition settled_from (row row' : EscrowTransaction) : Prop :=
  same_task row row' /\
  (status row <> ACTIVE -> row' = row) /\
  (status row' = status row \/
   status row = ACTIVE /\ (status row' = COMPLETED \/ status row' = REFUNDED)).

Lemma settled_from_refl (row : EscrowTransaction) : settled_from row row.
Proof. repeat split; auto. Qed.

Lemma settled_from_trans (a b c : EscrowTransaction) :
  settled_from a b -> settled_from b c -> settled_from a c.
Proof.
  intros ((H1 & H2 & H3 & H4 & H5 & H6) & Hab & Hs) ((G1 & G2 & G3 & G4 & G5 & G6) & Hbc & Ht).
  split; [repeat split; congruence |]. split.
  - intros Hna. rewrite <- (Hab Hna). apply Hbc. rewrite (Hab Hna). exact Hna.
  - destruct Hs as [Hs | [Ha Hs]].
    + destruct Ht as [Ht | [Hb Ht]]; [left; congruence | right; split; [congruence | exact Ht]].
    + right. split; [exact Ha |].
      assert (Hnb : status b <> ACTIVE) by (destruct Hs as [-> | ->]; discriminate).
      rewrite (Hbc Hnb). exact Hs.
Qed.

Lemma served_records (db db1 : Db) (response : Response) :
  served db db1 response ->
  (forall tid row, escrowTransaction db !! tid = Some row ->
     exists row', escrowTransaction db1 !! tid = Some row' /\ settled_from row row') /\
  (forall tid, escrowTransaction db !! tid = None -> escrowTransaction db1 !! tid = None).
Proof.
  intros ([Hsame | (id & old & new & Hold & Hact & Hsame & Hst & Hnew)] & _).
  - rewrite Hsame. split; [| auto].
    intros tid row Hrow. exists row. split; [exact Hrow | apply settled_from_refl].
  - rewrite Hnew. split.
    + intros tid row Hrow. destruct (decide (id = tid)) as [<- | Hne].
      * rewrite Hold in Hrow. inversion Hrow; subst row.
        exists new. split; [apply lookup_insert_eq |].
        split; [exact Hsame |]. split; [congruence |]. right. auto.
      * exists row. rewrite lookup_insert_ne by exact Hne.
        split; [exact Hrow | apply settled_from_refl].
    + intros tid Htid. rewrite lookup_insert_ne; [exact Htid |]. intros <-. congruence.
Qed.

Lemma serve_keeps (calls : list (Method * Request)) :
  forall db,
    (forall tid row, escrowTransaction db !! tid = Some row ->
       exists row', escrowTransaction (serve calls db).1 !! tid = Some row' /\
                    settled_from row row') /\
    (forall tid, escrowTransaction db !! tid = None ->
       escrowTransaction (serve calls db).1 !! tid = None) /\
    exists events,
      webhookEvent (serve calls db).1 = webhookEvent db ++ events /\
      length (filter (fun e => reports_failure e = false) events)
        = length (filter (fun r => succeeded r = true) (serve calls db).2) /\
      length (filter (fun e => reports_failure e = true) events)
        = length (filter (fun r => failed r = true) (serve calls db).2).
Proof.
  induction calls as [| call rest IH]; intros db.
  - cbn. split; [| split; [auto |]].
    + intros tid row Hrow. exists row. split; [exact Hrow | apply settled_from_refl].
    + exists []. rewrite app_nil_r. auto.
  - cbn [serve]. pose proof (handle_step call db) as Hstep.
    destruct (handle call db) as [db1 response]. cbn [fst snd] in Hstep.
    destruct (served_records _ _ _ Hstep) as (Hrows1 & Hnone1).
    destruct Hstep as (_ & _ & events1 & Hlog1 & Hkind).
    destruct (IH db1) as (Hrows & Hnone & events & Hlog & Hok & Hbad).
    destruct (serve rest db1) as [db2 responses]. cbn [fst snd] in *.
    split; [| split].
    + intros tid row Hrow. destruct (Hrows1 tid row Hrow) as (row1 & Hrow1 & Hfrom1).
      destruct (Hrows tid row1 Hrow1) as (row2 & Hrow2 & Hfrom2).
      exists row2. split; [exact Hrow2 | exact (settled_from_trans _ _ _ Hfrom1 Hfrom2)].
    + intros tid Htid. apply Hnone, Hnone1, Htid.
    + exists (events1 ++ events). rewrite Hlog, Hlog1, <- app_assoc.
      split; [reflexivity |]. rewrite !filter_app, !length_app, !filter_cons, Hok, Hbad.
      destruct response as [code error | row message]; cbn [succeeded failed].
      * destruct (code =? 500)%nat eqn:Hcode.
        -- destruct Hkind as (e & -> & He). rewrite !filter_cons, !filter_nil, He.
           repeat case_decide; try congruence; cbn; lia.
        -- subst events1. repeat case_decide; try congruence; cbn; lia.
      * destruct Hkind as (e & -> & He). rewrite !filter_cons, !filter_nil, He.
        repeat case_decide; try congruence; cbn; lia.
Qed.

(** A request scheduled alone is served as [POST] and [PUT] serve it. *)
Lemma served_alone (call : Method * Request) (db : Db) :
  run_schedule [0; 0; 0; 0; 0]%nat [arrives call] db
  = ((handle call db).1, [Responded (handle call db).2]).
Proof.
  destruct call as [m req]. unfold handle, arrives, POST, PUT, respond. cbn [fst snd].
  destruct m; cbn [handler POST_handler PUT_handler try_body catch_event catch_response].
  all: repeat
    match goal with
    | H : rejects ?t ?a = _ |- context [rejects ?t ?a] => rewrite H
    | H : ?b = _ |- context [if ?b then _ else _] => rewrite H
    | H : escrowTransaction ?d !! ?id = _ |- context [escrowTransaction ?d !! ?id] => rewrite H
    | |- context [match rejects ?t ?a with Some _ => _ | None => _ end] =>
        destruct (rejects t a) eqn:?
    | |- context [if ?b then _ else _] => destruct b eqn:?
    | |- context [match escrowTransaction ?d !! ?id with Some _ => _ | None => _ end] =>
        destruct (escrowTransaction d !! id) eqn:?
    | _ => progress cbn [run_schedule lookup list_lookup insert list_insert resume_pending
                         resume run fst snd]
    | _ => reflexivity
    end.
Qed.

(** *** Requests that overlap *)

(** A handler body whose updates only close a record. *)
Inductive closing : Handler -> Prop :=
  | closing_Return (response : Response) : closing (Return response)
  | closing_Json (next : Handler) : closing next -> closing (AwaitJson next)
  | closing_FindUnique (id : string) (next : option EscrowTransaction -> Handler) :
      (forall found, closing (next found)) -> closing (AwaitFindUnique id next)
  | closing_Update (id : string) (data : EscrowTransaction -> EscrowTransaction)
      (next : EscrowTransaction -> Handler) :
      (forall row, same_task row (data row) /\
                   (status (data row) = COMPLETED \/ status (data row) = REFUNDED)) ->
      (forall row, closing (next row)) -> closing (AwaitUpdate id data next)
  | closing_Create (event : WebhookEvent) (next : Handler) :
      closing next -> closing (AwaitCreate event next).

Definition closing_pending (p : Pending) : Prop :=
  match p with
  | InTry _ _ h => closing h
  | InCatch _ _ | Responded _ => True
  end.

Lemma arrives_closing (call : Method * Request) : closing_pending (arrives call).
Proof.
  destruct call as [[|] req]; cbn.
  - constructor. destruct (_ || _); [constructor |]. constructor. intros [escrow |];
      [| constructor].
    destruct (negb _); [constructor |]. destruct (_ <? _)%Z; [constructor |].
    constructor; [intros row; cbn; repeat split; auto |].
    intros row. repeat constructor.
  - constructor. destruct (falsy _); [constructor |]. constructor. intros [escrow |];
      [| constructor].
    destruct (negb _); [constructor |]. destruct (_ <=? _)%Z; [constructor |].
    constructor; [intros row; cbn; repeat split; auto |].
    intros row. repeat constructor.
Qed.

(** What every step keeps: no record appears or disappears, the columns no
    handler writes stay, and a closed record is not opened again. *)
Definition kept (db db1 : Db) : Prop :=
  (forall tid row, escrowTransaction db !! tid = Some row ->
     exists row', escrowTransaction db1 !! tid = Some row' /\ same_task row row' /\
                  (status row <> ACTIVE -> status row' <> ACTIVE)) /\
  (forall tid, escrowTransaction db !! tid = None -> escrowTransaction db1 !! tid = None).

Lemma kept_refl (db : Db) : kept db db.
Proof.
  split; [| auto]. intros tid row Hrow. exists row. repeat split; auto.
Qed.

Lemma kept_trans (a b c : Db) : kept a b -> kept b c -> kept a c.
Proof.
  intros [Hab Hab'] [Hbc Hbc']. split; [| auto].
  intros tid row Hrow. destruct (Hab tid row Hrow) as (row1 & Hrow1 & Hs1 & Hc1).
  destruct (Hbc tid row1 Hrow1) as (row2 & Hrow2 & Hs2 & Hc2).
  exists row2. split; [exact Hrow2 |]. split; [| auto].
  destruct Hs1 as (? & ? & ? & ? & ? & ?), Hs2 as (? & ? & ? & ? & ? & ?).
  repeat split; congruence.
Qed.

Lemma kept_log (event : WebhookEvent) (db : Db) : kept db (log event db).
Proof.
  split; [| auto]. intros tid row Hrow. exists row. repeat split; auto.
Qed.

Lemma resume_pending_kept (p : Pending) (db : Db) :
  closing_pending p ->
  kept db (resume_pending p db).1 /\ closing_pending (resume_pending p db).2.
Proof.
  destruct p as [route thrown h | event response | response]; cbn [closing_pending];
    [| intros _; split; [apply kept_log | exact I] | intros _; split; [apply kept_refl | exact I]].
  intros Hh. cbn [resume_pending].
  assert (Hgo : forall db1 h', kept db db1 -> closing h' ->
            kept db (match h' with
                     | Return response => (db1, Responded response)
                     | _ => (db1, InTry route thrown h')
                     end).1 /\
            closing_pending (match h' with
                             | Return response => (db1, Responded response)
                             | _ => (db1, InTry route thrown h')
                             end).2).
  { intros db1 h' Hk Hc. destruct h'; cbn; auto. }
  destruct Hh as [response | next Hnext | id next Hnext | id data next Hdata Hnext
                  | event next Hnext]; cbn [resume].
  - split; [apply kept_refl | exact I].
  - destruct (rejects thrown req_json); [split; [apply kept_refl | exact I] |].
    apply Hgo; [apply kept_refl | exact Hnext].
  - destruct (rejects thrown findUnique); [split; [apply kept_refl | exact I] |].
    apply Hgo; [apply kept_refl | apply Hnext].
  - destruct (rejects thrown update); [split; [apply kept_refl | exact I] |].
    destruct (escrowTransaction db !! id) as [row |] eqn:Hrow;
      [| split; [apply kept_refl | exact I]].
    apply Hgo; [| apply Hnext].
    destruct (Hdata row) as [Hsame Hst]. split.
    + intros tid old Hold. cbn. destruct (decide (id = tid)) as [<- | Hne].
      * rewrite Hrow in Hold. inversion Hold; subst old.
        exists (data row). rewrite lookup_insert_eq. repeat split; try apply Hsame.
        intros _. destruct Hst as [-> | ->]; discriminate.
      * exists old. rewrite lookup_insert_ne by exact Hne. repeat split; auto.
    + intros tid Htid. cbn. rewrite lookup_insert_ne; [exact Htid |]. intros <-. congruence.
  - destruct (rejects thrown create); [split; [apply kept_refl | exact I] |].
    apply Hgo; [apply kept_log | exact Hnext].
Qed.

Lemma run_schedule_kept (steps : list nat) :
  forall pool db,
    Forall closing_pending pool ->
    kept db (run_schedule steps pool db).1.
Proof.
  induction steps as [| i rest IH]; intros pool db Hpool; cbn [run_schedule].
  - apply kept_refl.
  - destruct (pool !! i) as [p |] eqn:Hp; [| apply IH; exact Hpool].
    assert (Hc : closing_pending p).
    { rewrite Forall_forall in Hpool. apply Hpool. eapply list_elem_of_lookup_2. exact Hp. }
    destruct (resume_pending_kept p db Hc) as [Hk Hc1].
    destruct (resume_pending p db) as [db1 p1]. cbn [fst snd] in *.
    apply (kept_trans db db1); [exact Hk |]. apply IH.
    apply Forall_insert; assumption.
Qed.

(** X21. Whatever release (POST) and refund (PUT) requests arrive, bodies
    that do not parse and database calls that reject included. However their
    awaited calls interleave, a record keeps its task, parties, amount,
    deadline and auto-refund flag, no record is created, and a record that is
    not ACTIVE never becomes ACTIVE again. Served one after the other,
    moreover, a record that is not ACTIVE is never changed again and an
    ACTIVE record can only become COMPLETED or REFUNDED; one
    [escrow.released] or [escrow.refunded] event is logged per successful
    request, one failure event per answer with status 500, and no other
    event. *)
Theorem record_is_settled_once (calls : list (Method * Request)) (db : Db) (tid : string)
    (row : EscrowTransaction) :
  escrowTransaction db !! tid = Some row ->
  (forall steps : list nat,
     let db' := (run_schedule steps (arrives <$> calls) db).1 in
     (exists row',
        escrowTransaction db' !! tid = Some row' /\ same_task row row' /\
        (status row <> ACTIVE -> status row' <> ACTIVE)) /\
     (forall other, escrowTransaction db !! other = None ->
        escrowTransaction db' !! other = None)) /\
  (let db' := (serve calls db).1 in
   let responses := (serve calls db).2 in
   (exists row',
      escrowTransaction db' !! tid = Some row' /\
      same_task row row' /\
      (status row <> ACTIVE -> row' = row) /\
      (status row' = status row \/
       status row = ACTIVE /\ (status row' = COMPLETED \/ status row' = REFUNDED))) /\
   (forall other, escrowTransaction db !! other = None ->
      escrowTransaction db' !! other = None) /\
   (exists events,
      webhookEvent db' = webhookEvent db ++ events /\
      length (filter (fun e => reports_failure e = false) events)
        = length (filter (fun r => succeeded r = true) responses) /\
      length (filter (fun e => reports_failure e = true) events)
        = length (filter (fun r => failed r = true) responses))).
Proof.
  intros Hrow. split.
  - intros steps db'.
    assert (Hpool : Forall closing_pending (arrives <$> calls)).
    { apply Forall_fmap, Forall_forall. intros call _. apply arrives_closing. }
    destruct (run_schedule_kept steps (arrives <$> calls) db Hpool) as [Hrows Hnone].
    split; [apply Hrows; exact Hrow | exact Hnone].
  - intros db' responses. destruct (serve_keeps calls db) as (Hrows & Hnone & Hlog).
    split; [| split; [exact Hnone | exact Hlog]].
    destruct (Hrows tid row Hrow) as (row' & Hrow' & Hsame & Hkeep & Hst).
    exists row'. auto.
Qed.

Local Ltac go :=
  cbn [run_schedule lookup list_lookup insert list_insert resume_pending resume
       rejects set_row log escrowTransaction webhookEvent is_ACTIVE negb].

(** X30. A release and a refund of one ACTIVE task that overlap both go
    through. The release checks the deadline at or before it and the refund
    after it; served one after the other the refund is refused with "Task is
    completed, cannot refund". When both have read the record before either
    writes it, both answer with success: the record is first COMPLETED and
    then REFUNDED, keeping the attestation and [completedAt] of the release,
    and both [escrow.released] and [escrow.refunded] are logged. *)
Theorem overlapping_release_and_refund (db : Db) (tid uid : string)
    (row : EscrowTransaction) (release refund : Request) :
  escrowTransaction db !! tid = Some row -> status row = ACTIVE ->
  tid <> ""%string -> uid <> ""%string ->
  thrown release = None -> body_taskId release = Some tid ->
  body_attestationUID release = Some uid ->
  thrown refund = None -> body_taskId refund = Some tid ->
  (checked_at release <= deadline row < checked_at refund)%Z ->
  let completed :=
    {| taskId := taskId row; agentAddress := agentAddress row;
       providerAddress := providerAddress row; amountFormatted := amountFormatted row;
       deadline := deadline row; autoRefund := autoRefund row;
       status := COMPLETED; attestationUID := Some uid;
       completedAt := Some (written_at release); refundedAt := refundedAt row |} in
  let both :=
    {| taskId := taskId row; agentAddress := agentAddress row;
       providerAddress := providerAddress row; amountFormatted := amountFormatted row;
       deadline := deadline row; autoRefund := autoRefund row;
       status := REFUNDED; attestationUID := Some uid;
       completedAt := Some (written_at release);
       refundedAt := Some (written_at refund) |} in
  let released := escrow_released tid (providerAddress row) (amountFormatted row) uid in
  serve [(post, release); (put, refund)] db
  = ({| escrowTransaction := <[tid := completed]> (escrowTransaction db);
        webhookEvent := webhookEvent db ++ [released] |},
     [Success completed "Escrow funds released to provider";
      Failure 400 "Task is completed, cannot refund"]) /\
  run_schedule [0; 1; 0; 1; 0; 1; 0; 1]%nat [arrives (post, release); arrives (put, refund)] db
  = ({| escrowTransaction := <[tid := both]> (escrowTransaction db);
        webhookEvent := webhookEvent db ++
          [released; escrow_refunded tid (agentAddress row) (amountFormatted row)] |},
     [Responded (Success completed "Escrow funds released to provider");
      Responded (Success both "Escrow funds refunded to agent")]).
Proof.
  intros Hrow Hact Htid Huid Ht1 Hid1 Hu1 Ht2 Hid2 [Hearly Hlate] completed both released.
  apply String.eqb_neq in Htid, Huid.
  apply Z.ltb_ge in Hearly. apply Z.leb_gt in Hlate.
  split.
  - cbn [serve handle fst snd]. unfold POST, PUT, respond, POST_handler, PUT_handler.
    cbn [try_body catch_event catch_response].
    rewrite Ht1, Hid1, Hu1, Ht2, Hid2. cbn [run rejects falsy]. rewrite Htid, Huid.
    cbn [orb from_option Datatypes.id run rejects]. rewrite Hrow, Hact.
    cbn [is_ACTIVE negb]. rewrite Hearly. cbn [run rejects]. rewrite Hrow.
    cbn [run rejects set_row log escrowTransaction webhookEvent providerAddress
         amountFormatted].
    rewrite lookup_insert_eq. cbn [status is_ACTIVE negb lower]. reflexivity.
  - unfold arrives. cbn [fst snd handler POST_handler PUT_handler try_body].
    rewrite Ht1, Hid1, Hu1, Ht2, Hid2. cbn [falsy]. rewrite Htid, Huid.
    cbn [orb from_option Datatypes.id].
    go. rewrite Hrow, Hact. go. rewrite Hearly. go. rewrite Hrow, Hact. go. rewrite Hlate.
    go. rewrite Hrow. go. rewrite lookup_insert_eq. go.
    cbn [providerAddress agentAddress amountFormatted taskId deadline autoRefund
         attestationUID completedAt refundedAt].
    unfold log, set_row. cbn [escrowTransaction webhookEvent].
    rewrite insert_insert_eq, <- app_assoc. reflexivity.
Qed.

End RouteSequences.

(** ** The route on one record *)
Section RouteExamples.
Import EscrowRoute.

Definition ex_row : EscrowTransaction :=
  {| taskId := "task-7"; agentAddress := "0xAgent"; providerAddress := "0xProvider";
     amountFormatted := "500"; deadline := 260200000; autoRefund := false;
     status := ACTIVE; attestationUID := None; completedAt := None; refundedAt := None |}.

Definition ex_db : Db :=
  {| escrowTransaction := {[ "task-7"%string := ex_row ]}; webhookEvent := [] |}.

Definition ex_request (now : Z) : Request :=
  {| body_taskId := Some "task-7"%string; body_attestationUID := Some "0xuid"%string;
     body_signature := None; checked_at := now; written_at := now; thrown := None |}.

(** A request whose body is not JSON. *)
Definition ex_garbled : Request :=
  {| body_taskId := None; body_attestationUID := None; body_signature := None;
     checked_at := 260200002; written_at := 260200002;
     thrown := Some (req_json, "SyntaxError: Unexpected token"%string) |}.

Example garbled_body_is_logged :
  POST ex_garbled ex_db
  = ({| escrowTransaction := escrowTransaction ex_db;
        webhookEvent :=
          [escrow_release_failed (Rejected "SyntaxError: Unexpected token")] |},
     Failure 500 "Failed to release escrow funds").
Proof. reflexivity. Qed.

Lemma record_is_settled_once_witness :
  escrowTransaction ex_db !! "task-7"%string = Some ex_row /\
  (exists row',
     escrowTransaction
       (serve [(put, ex_request 260200001); (post, ex_garbled);
               (post, ex_request 260200002); (put, ex_request 260200003)] ex_db).1
       !! "task-7"%string = Some row' /\
     status row' = REFUNDED) /\
  length (webhookEvent
            (serve [(put, ex_request 260200001); (post, ex_garbled);
                    (post, ex_request 260200002); (put, ex_request 260200003)] ex_db).1)
  = 2%nat.
Proof.
  assert (Hrow : escrowTransaction ex_db !! "task-7"%string = Some ex_row) by reflexivity.
  split; [exact Hrow |].
  destruct (record_is_settled_once
              [(put, ex_request 260200001); (post, ex_garbled);
               (post, ex_request 260200002); (put, ex_request 260200003)]
              ex_db "task-7" ex_row Hrow) as (_ & (row' & Hrow' & _) & _ & _).
  split; [| reflexivity].
  exists row'. split; [exact Hrow' |].
  assert (Hsome : status <$> Some row' = Some REFUNDED) by (rewrite <- Hrow'; reflexivity).
  inversion Hsome. reflexivity.
Defined.

Lemma PUT_guard_witness :
  exists row',
    (PUT (ex_request 260200001) ex_db).2 = Success row' "Escrow funds refunded to agent" /\
    escrowTransaction (PUT (ex_request 260200001) ex_db).1 !! "task-7"%string = Some row' /\
    status row' = REFUNDED.
Proof.
  assert (Hne : "task-7"%string <> ""%string) by discriminate.
  destruct (PUT_guard (ex_request 260200001) ex_db "task-7" ex_row eq_refl eq_refl Hne eq_refl)
    as (_ & Hrun & _).
  rewrite Hrun by reflexivity. eexists. split; [reflexivity |].
  split; [apply lookup_insert_eq | reflexivity].
Defined.

Lemma overlapping_release_and_refund_witness :
  exists row',
    escrowTransaction
      (run_schedule [0; 1; 0; 1; 0; 1; 0; 1]%nat
         [arrives (post, ex_request 260200000); arrives (put, ex_request 260200001)]
         ex_db).1 !! "task-7"%string = Some row' /\
    status row' = REFUNDED /\ completedAt row' = Some 260200000%Z /\
    refundedAt row' = Some 260200001%Z.
Proof.
  assert (Hne : "task-7"%string <> ""%string) by discriminate.
  assert (Hu : "0xuid"%string <> ""%string) by discriminate.
  assert (Hd : (checked_at (ex_request 260200000) <= deadline ex_row
                < checked_at (ex_request 260200001))%Z) by (cbn; lia).
  destruct (overlapping_release_and_refund ex_db "task-7" "0xuid" ex_row
              (ex_request 260200000) (ex_request 260200001)
              eq_refl eq_refl Hne Hu eq_refl eq_refl eq_refl eq_refl eq_refl Hd)
    as (_ & Hrun).
  rewrite Hrun. eexists. split; [apply lookup_insert_eq |]. repeat split.
Defined.

End RouteExamples.

(** ** Revocation and sponsorship on the stored keys *)
Section SponsorFacts.
Import SessionKeysRoute.





End SponsorFacts.

(** ** The client against the routes *)
Section BackendFacts.
Import MneeClient MneeClientBackend.


Local Ltac route :=
  unfold EscrowRoute.POST, EscrowRoute.PUT, EscrowRoute.respond, EscrowRoute.POST_handler,
    EscrowRoute.PUT_handler;
  cbn [EscrowRoute.try_body EscrowRoute.catch_event EscrowRoute.catch_response
       EscrowRoute.thrown EscrowRoute.run EscrowRoute.rejects EscrowRoute.body_taskId
       EscrowRoute.body_attestationUID EscrowRoute.falsy EscrowRoute.checked_at
       EscrowRoute.written_at from_option Datatypes.id].

(** X28. [releaseEscrow] and [refundEscrow] exclude each other on the
    off-chain record: after a release that succeeded every refund of the
    task answers "Task is completed, cannot refund", after a refund that
    succeeded every release answers "Task is refunded, cannot release", and
    the refused call changes nothing. *)
Theorem closed_record_refuses_the_other_way (taskId uid : string) (signature : option string)
    (checked written : Z) (db : EscrowRoute.Db) :
  (escrow_success (releaseEscrow taskId uid signature checked written db).2 = true ->
   forall checked' written',
     refundEscrow taskId checked' written'
       (releaseEscrow taskId uid signature checked written db).1
     = ((releaseEscrow taskId uid signature checked written db).1,
        {| escrow_success := false; escrow_record := None;
           escrow_error := Some "Task is completed, cannot refund"%string |})) /\
  (escrow_success (refundEscrow taskId checked written db).2 = true ->
   forall checked' written',
     uid <> ""%string ->
     releaseEscrow taskId uid signature checked' written'
       (refundEscrow taskId checked written db).1
     = ((refundEscrow taskId checked written db).1,
        {| escrow_success := false; escrow_record := None;
           escrow_error := Some "Task is refunded, cannot release"%string |})).
Proof.
  split.
  - unfold releaseEscrow at 1. route.
    destruct (String.eqb taskId "") eqn:Htid; [discriminate |].
    destruct (String.eqb uid "") eqn:Huid; [discriminate |].
    cbn [orb EscrowRoute.run EscrowRoute.rejects].
    destruct (EscrowRoute.escrowTransaction db !! taskId) as [row |] eqn:Hrow; [| discriminate].
    destruct (EscrowRoute.status row) eqn:Hst; cbn [EscrowRoute.is_ACTIVE negb];
      try discriminate.
    destruct (_ <? _)%Z eqn:Hlate; [discriminate |].
    intros _ checked' written'.
    unfold releaseEscrow. route. rewrite Htid, Huid.
    cbn [orb EscrowRoute.run EscrowRoute.rejects]. rewrite Hrow, Hst.
    cbn [EscrowRoute.is_ACTIVE negb]. rewrite Hlate.
    cbn [EscrowRoute.run EscrowRoute.rejects]. rewrite Hrow.
    cbn [EscrowRoute.run EscrowRoute.rejects fst].
    unfold refundEscrow. route. rewrite Htid.
    cbn [EscrowRoute.run EscrowRoute.rejects EscrowRoute.log EscrowRoute.set_row
         EscrowRoute.escrowTransaction].
    rewrite lookup_insert_eq. reflexivity.
  - unfold refundEscrow at 1. route.
    destruct (String.eqb taskId "") eqn:Htid; [discriminate |].
    cbn [EscrowRoute.run EscrowRoute.rejects].
    destruct (EscrowRoute.escrowTransaction db !! taskId) as [row |] eqn:Hrow; [| discriminate].
    destruct (EscrowRoute.status row) eqn:Hst; cbn [EscrowRoute.is_ACTIVE negb];
      try discriminate.
    destruct (_ <=? _)%Z eqn:Hearly; [discriminate |].
    intros _ checked' written' Huid. apply String.eqb_neq in Huid.
    unfold refundEscrow. route. rewrite Htid.
    cbn [EscrowRoute.run EscrowRoute.rejects]. rewrite Hrow, Hst.
    cbn [EscrowRoute.is_ACTIVE negb]. rewrite Hearly.
    cbn [EscrowRoute.run EscrowRoute.rejects]. rewrite Hrow.
    cbn [EscrowRoute.run EscrowRoute.rejects fst].
    unfold releaseEscrow. route. rewrite Htid, Huid.
    cbn [orb EscrowRoute.run EscrowRoute.rejects EscrowRoute.log EscrowRoute.set_row
         EscrowRoute.escrowTransaction].
    rewrite lookup_insert_eq. reflexivity.
Qed.
End BackendFacts.

(** ** The attestation provider *)
Section AttestationProvider.
Import Evm MneeEscrow.
Variable P : Primitives.

Lemma verify_signed (st : Storage) (id uid : N) (sig : list N) (p : N) :
  length sig = 65%nat ->
  _verifyAttestation P st id uid sig p
  = Ok (ecrecover P (attestation_hash P id uid p) (nth 64 sig 0%N)
          (be_uint (take 32 sig)) (be_uint (take 32 (drop 32 sig)))
        =? attestationProvider st)%N.
Proof.
  intros Hlen. unfold _verifyAttestation, _recoverSigner. rewrite Hlen. reflexivity.
Qed.

(** X26. The constructor accepts the zero address as attestation
    provider: deployed by a sender other than zero with a token other than
    zero it returns, with the provider stored as zero, and then every 65-byte
    signature for which [ecrecover] answers zero verifies. [updateAttestationProvider] is refused for the zero address
    and to everybody but the owner; when it goes through it changes neither
    tasks nor tokens, and from then on a 65-byte signature verifies exactly
    when its recovered signer is the new provider. *)
Theorem attestation_provider_rules :
  (forall msg token,
     sender msg <> 0%N -> token <> 0%N ->
     exists st,
       constructor msg token 0 = Ok st /\ attestationProvider st = 0%N /\
       owner st = sender msg /\
       forall id uid sig p,
         length sig = 65%nat ->
         ecrecover P (attestation_hash P id uid p) (nth 64 sig 0%N)
           (be_uint (take 32 sig)) (be_uint (take 32 (drop 32 sig))) = 0%N ->
         _verifyAttestation P st id uid sig p = Ok true) /\
  (forall msg c, exists reason, updateAttestationProvider msg 0 c = Revert reason) /\
  (forall msg p c,
     sender msg <> owner (escrow c) ->
     updateAttestationProvider msg p c = Revert "OwnableUnauthorizedAccount") /\
  (forall msg p c c' ev,
     updateAttestationProvider msg p c = Ok (c', ev) ->
     sender msg = owner (escrow c) /\ p <> 0%N /\
     attestationProvider (escrow c') = p /\
     tasks (escrow c') = tasks (escrow c) /\ mneeToken c' = mneeToken c /\
     forall id uid sig prov, length sig = 65%nat ->
       _verifyAttestation P (escrow c') id uid sig prov
       = Ok (ecrecover P (attestation_hash P id uid prov) (nth 64 sig 0%N)
               (be_uint (take 32 sig)) (be_uint (take 32 (drop 32 sig))) =? p)%N).
Proof.
  split; [| split; [| split]].
  - intros msg token Hsender Htoken.
    apply N.eqb_neq in Hsender, Htoken.
    eexists. unfold constructor. rewrite Hsender, Htoken. cbn.
    split; [reflexivity |]. split; [reflexivity |]. split; [reflexivity |].
    intros id uid sig p Hlen Hzero.
    rewrite (verify_signed _ id uid sig p Hlen), Hzero. reflexivity.
  - intros msg c. unfold updateAttestationProvider, onlyOwner.
    destruct (owner (escrow c) =? sender msg)%N; cbn; eauto.
  - intros msg p c Hne. unfold updateAttestationProvider, onlyOwner.
    destruct (N.eqb_spec (owner (escrow c)) (sender msg)); [congruence | reflexivity].
  - intros msg p c c' ev Hup. unfold updateAttestationProvider, onlyOwner in Hup.
    apply bind_Ok in Hup. destruct Hup as (? & Hown & Hup).
    apply bind_Ok in Hup. destruct Hup as (? & Hp & Hup).
    apply require_Ok, N.eqb_eq in Hown. apply require_Ok, negb_true_iff, N.eqb_neq in Hp.
    inversion Hup; subst. clear Hup.
    repeat split; auto.
    intros id uid sig prov Hlen. apply verify_signed. exact Hlen.
Qed.

End AttestationProvider.

(** ** Calldata and sponsorship on examples *)
Section MoreExamples.
Import Js Utils AccountAbstractionService SessionKeysRoute.

Lemma encodeTransferFunction_layout_witness :
  isValidAddress "0x1111111111111111111111111111111111111111" = true /\
  (0 <= 500000000)%Z /\
  encodeTransferFunction "0x1111111111111111111111111111111111111111" 500000000
  = ("0xa9059cbb" ++
     "0000000000000000000000001111111111111111111111111111111111111111" ++
     "000000000000000000000000000000000000000000000000000000001dcd6500")%string /\
  length (list_ascii_of_string
            (encodeTransferFunction "0x1111111111111111111111111111111111111111" 500000000))
  = 138%nat.
Proof.
  assert (Hok : isValidAddress "0x1111111111111111111111111111111111111111" = true)
    by reflexivity.
  assert (Hpos : (0 <= 500000000)%Z) by discriminate.
  split; [exact Hok |]. split; [exact Hpos |]. split; [reflexivity |].
  destruct (encodeTransferFunction_layout _ _ Hok Hpos) as (_ & _ & _ & Hlen & _).
  apply Hlen. reflexivity.
Defined.





End MoreExamples.

(** ** A gasless payment with a stored key *)
Section BackendExamples.
Import MneeClient MneeClientBackend.


End BackendExamples.
